(** * Email body parsing and verification-code extraction

    A shallow embedding of [src/email/parser.js] (the MIME body parser and
    the server-side verification-code extractor) and of [extractCode] from
    [public/js/modules/app/ui-helpers.js] (the client-side list-preview
    extractor), and of the code around them: the escapers of the user
    interface, the forwarding rules of [src/email/forwarder.js], the address
    extractor of [src/utils/common.js] and the message that
    [src/email/receiver.js] stores; followed by the properties established
    about them.

    JavaScript strings are sequences of UTF-16 code units; they are modelled
    as [list N].  Regular expressions are modelled by a small backtracking
    matcher that returns every way a pattern can match at a position, in the
    priority order of the ECMAScript matcher, so that the first element is
    the match the runtime reports. *)

From Stdlib Require Import NArith ZArith List Bool Lia String Ascii.
From stdpp Require Import base option list gmap.

Open Scope N_scope.
Open Scope nat_scope.

(** ** Strings as sequences of UTF-16 code units *)

Abbreviation cu := N.
Abbreviation jsstring := (list N).

(** An ASCII literal of the source as a sequence of code units. *)
Definition str (s : string) : jsstring :=
  map N_of_ascii (list_ascii_of_string s).
Arguments str s%_string.

Definition cu_eqb (a b : cu) : bool := N.eqb a b.
Arguments cu_eqb (a b)%_N.

Definition in_range (lo hi c : cu) : bool := (N.leb lo c && N.leb c hi)%bool.
Arguments in_range (lo hi c)%_N.

Definition isDigit (c : cu) : bool := in_range 48 57 c.
Definition isUpper (c : cu) : bool := in_range 65 90 c.
Definition isLower (c : cu) : bool := in_range 97 122 c.
Definition isAlpha (c : cu) : bool := isUpper c || isLower c.
Definition isAlnum (c : cu) : bool := isDigit c || isAlpha c.
(** [\w] : [A-Za-z0-9_] *)
Definition isWord (c : cu) : bool := isAlnum c || cu_eqb c 95.
Definition isHex (c : cu) : bool :=
  isDigit c || in_range 65 70 c || in_range 97 102 c.

(** [\s], which is also the set removed by [trim]: WhiteSpace and
    LineTerminator of ECMAScript. *)
Definition isSpace (c : cu) : bool :=
  in_range 9 13 c || cu_eqb c 32 || cu_eqb c 160 || cu_eqb c 5760
  || in_range 8192 8202 c || cu_eqb c 8232 || cu_eqb c 8233
  || cu_eqb c 8239 || cu_eqb c 8287 || cu_eqb c 12288 || cu_eqb c 65279.

(** Line terminators, the characters that [.] does not match. *)
Definition isLineTerminator (c : cu) : bool :=
  cu_eqb c 10 || cu_eqb c 13 || cu_eqb c 8232 || cu_eqb c 8233.

Definition lowerAscii (c : cu) : cu := if isUpper c then (c + 32)%N else c.
Definition upperAscii (c : cu) : cu := if isLower c then (c - 32)%N else c.

(** Equality of two code units under the [i] flag.  Canonicalisation maps a
    code unit to its upper case unless that would turn a non-ASCII unit into
    an ASCII one, so an ASCII letter of a pattern matches its two ASCII
    cases only; the non-ASCII characters that occur in the patterns below
    (CJK, kana, hangul, punctuation) have no case variants. *)
Definition cu_eqb_ci (a b : cu) : bool := cu_eqb (upperAscii a) (upperAscii b).
Arguments cu_eqb_ci (a b)%_N.

Definition str_eqb (a b : jsstring) : bool := bool_decide (a = b).

(** [s.startsWith(p)] *)
Fixpoint startsWith (p s : jsstring) : bool :=
  match p, s with
  | [], _ => true
  | a :: p', b :: s' => cu_eqb a b && startsWith p' s'
  | _ :: _, [] => false
  end.

(** [s.indexOf(p)]: [None] stands for [-1]. *)
Fixpoint indexOf (p s : jsstring) : option nat :=
  if startsWith p s then Some 0
  else match s with
       | [] => None
       | _ :: s' => option_map S (indexOf p s')
       end.

(** [s.lastIndexOf(p)] *)
Fixpoint lastIndexOf (p s : jsstring) : option nat :=
  match s with
  | [] => if startsWith p [] then Some 0 else None
  | _ :: s' =>
      match lastIndexOf p s' with
      | Some i => Some (S i)
      | None => if startsWith p s then Some 0 else None
      end
  end.

(** [s.includes(p)] *)
Definition includes (p s : jsstring) : bool :=
  match indexOf p s with Some _ => true | None => false end.

(** [s.slice(a, b)] and [s.slice(a)] for non-negative indices. *)
Definition slice (s : jsstring) (a b : nat) : jsstring := take (b - a) (drop a s).
Definition sliceFrom (s : jsstring) (a : nat) : jsstring := drop a s.

Fixpoint trimStart (s : jsstring) : jsstring :=
  match s with
  | c :: s' => if isSpace c then trimStart s' else s
  | [] => []
  end.

Definition trimEnd (s : jsstring) : jsstring := rev (trimStart (rev s)).
Definition trim (s : jsstring) : jsstring := trimEnd (trimStart s).

(** [lines.join(sep)] *)
Fixpoint join (sep : jsstring) (l : list jsstring) : jsstring :=
  match l with
  | [] => []
  | [x] => x
  | x :: l' => x ++ sep ++ join sep l'
  end.

(** [s.split(/\r?\n/)]: the pieces between line ends; a carriage return
    belongs to the separator only when a line feed follows it. *)
Fixpoint splitLines_aux (cur : jsstring) (s : jsstring) : list jsstring :=
  match s with
  | [] => [rev cur]
  | c :: s' =>
      if cu_eqb c 10 then rev cur :: splitLines_aux [] s'
      else if cu_eqb c 13 then
        match s' with
        | d :: s'' =>
            if cu_eqb d 10 then rev cur :: splitLines_aux [] s''
            else splitLines_aux (c :: cur) s'
        | [] => splitLines_aux (c :: cur) s'
        end
      else splitLines_aux (c :: cur) s'
  end.

Definition splitLines (s : jsstring) : list jsstring := splitLines_aux [] s.

(** ** Regular expressions

    The patterns of the source are terms of [regex]; [run r st] lists the
    states in which a match of [r] started in state [st] can end, in the
    order in which the backtracking matcher of the runtime tries them.
    No pattern of the source has a group inside a quantifier or a
    lookahead, so the reset of such groups is not modelled. *)

Module Re.

(** A position in the subject string: the code units already passed (most
    recent first), the code units ahead, and the captures made so far. *)
Record mstate := MState {
  before : jsstring;
  after : jsstring;
  caps : list (nat * jsstring)
}.

Inductive regex :=
| Eps                                       (* the empty pattern *)
| Chr (p : cu -> bool)                      (* a character or a class *)
| Seq (r1 r2 : regex)                       (* r1r2 *)
| Alt (r1 r2 : regex)                       (* r1|r2 *)
| Rep (greedy : bool) (lo : nat) (hi : option nat) (r : regex)
                                            (* r{lo,hi}, r{lo,}, lazy with ? *)
| Group (n : nat) (r : regex)               (* capturing group number n *)
| Ahead (positive : bool) (r : regex)       (* (?=r) and (?!r) *)
| NotBehind (p : cu -> bool)                (* (?<!c) for a class c *)
| WordB                                     (* \b *)
| Bol                                       (* ^ without the m flag *)
| Eol.                                      (* $ without the m flag *)

Definition consumed (st st' : mstate) : jsstring :=
  rev (take (length (before st') - length (before st)) (before st')).

(** The optional iterations of a quantifier, once the mandatory ones are
    done: [budget] bounds their number ([None]: unbounded); an iteration that
    consumes nothing is rejected, as the runtime does, so the number of
    iterations is at most the number [fuel] of code units ahead. *)
Fixpoint rep_opt (step : mstate -> list mstate) (greedy : bool)
    (budget : option nat) (fuel : nat) (st : mstate) : list mstate :=
  match fuel with
  | 0 => [st]
  | S fuel' =>
      match budget with
      | Some 0 => [st]
      | _ =>
          let more :=
            flat_map (fun st' =>
                        if length (after st') <? length (after st)
                        then rep_opt step greedy (option_map pred budget) fuel' st'
                        else [])
                     (step st) in
          if greedy then more ++ [st] else st :: more
      end
  end.

Fixpoint iter_step (step : mstate -> list mstate) (n : nat) (st : mstate)
    : list mstate :=
  match n with
  | 0 => [st]
  | S n' => flat_map (iter_step step n') (step st)
  end.

Definition wordAt (s : jsstring) : bool :=
  match s with c :: _ => isWord c | [] => false end.

Fixpoint run (r : regex) (st : mstate) : list mstate :=
  match r with
  | Eps => [st]
  | Chr p =>
      match after st with
      | c :: rest => if p c then [MState (c :: before st) rest (caps st)] else []
      | [] => []
      end
  | Seq r1 r2 => flat_map (run r2) (run r1 st)
  | Alt r1 r2 => run r1 st ++ run r2 st
  | Rep greedy lo hi r' =>
      flat_map (fun st' =>
                  rep_opt (run r') greedy (option_map (fun h => h - lo) hi)
                          (length (after st')) st')
               (iter_step (run r') lo st)
  | Group n r' =>
      map (fun st' => MState (before st') (after st')
                             ((n, consumed st st') :: caps st'))
          (run r' st)
  | Ahead positive r' =>
      match run r' st with
      | [] => if positive then [] else [st]
      | _ :: _ => if positive then [st] else []
      end
  | NotBehind p =>
      match before st with
      | c :: _ => if p c then [] else [st]
      | [] => [st]
      end
  | WordB => if xorb (wordAt (before st)) (wordAt (after st)) then [st] else []
  | Bol => match before st with [] => [st] | _ :: _ => [] end
  | Eol => match after st with [] => [st] | _ :: _ => [] end
  end.

(** Derived forms. *)
Definition star (p : cu -> bool) : regex := Rep true 0 None (Chr p).
Definition plus (p : cu -> bool) : regex := Rep true 1 None (Chr p).
Definition opt (r : regex) : regex := Rep true 0 (Some 1) r.
Definition upto (n : nat) (p : cu -> bool) : regex := Rep true 0 (Some n) (Chr p).
Definition any : cu -> bool := fun _ => true.
Definition dot : cu -> bool := fun c => negb (isLineTerminator c).
Definition chr (c : cu) : regex := Chr (cu_eqb c).
Definition chri (c : cu) : regex := Chr (cu_eqb_ci c).
Arguments chr c%_N.
Arguments chri c%_N.

Fixpoint seqs (l : list regex) : regex :=
  match l with
  | [] => Eps
  | [r] => r
  | r :: l' => Seq r (seqs l')
  end.

Fixpoint alts (l : list regex) : regex :=
  match l with
  | [] => Ahead true (Ahead false Eps)
  | [r] => r
  | r :: l' => Alt r (alts l')
  end.

(** A literal, and a literal under the [i] flag. *)
Definition lit (s : jsstring) : regex := seqs (map (fun c => Chr (cu_eqb c)) s).
Definition liti (s : jsstring) : regex := seqs (map (fun c => Chr (cu_eqb_ci c)) s).

(** The leftmost match: the first result of [run] at the first position
    that has one ([String.prototype.match] and [RegExp.prototype.exec]
    without the [g] flag). *)
Fixpoint search_from (r : regex) (bef aft : jsstring) : option (mstate * mstate) :=
  match run r (MState bef aft []) with
  | st :: _ => Some (MState bef aft [], st)
  | [] =>
      match aft with
      | [] => None
      | c :: aft' => search_from r (c :: bef) aft'
      end
  end.

Definition search (r : regex) (s : jsstring) : option (mstate * mstate) :=
  search_from r [] s.

(** [r.test(s)] *)
Definition test (r : regex) (s : jsstring) : bool :=
  match search r s with Some _ => true | None => false end.

(** [m[n]] of a successful match; a group that did not take part is
    [undefined], which the source only ever tests for truth, as is the
    empty string. *)
Definition capture (n : nat) (st : mstate) : jsstring :=
  match find (fun e => Nat.eqb (fst e) n) (caps st) with
  | Some e => snd e
  | None => []
  end.

(** [s.replace(r, f)] for a pattern with the [g] flag: the matches are found
    left to right, each search starting where the previous match ended (one
    code unit further after an empty match). *)
Fixpoint replace_from (fuel : nat) (r : regex) (f : mstate -> mstate -> jsstring)
    (bef aft : jsstring) : jsstring :=
  match fuel with
  | 0 => aft
  | S fuel' =>
      match run r (MState bef aft []) with
      | st :: _ =>
          if length (after st) <? length aft
          then f (MState bef aft []) st ++ replace_from fuel' r f (before st) (after st)
          else
            f (MState bef aft []) st ++
            match aft with
            | [] => []
            | c :: aft' => c :: replace_from fuel' r f (c :: bef) aft'
            end
      | [] =>
          match aft with
          | [] => []
          | c :: aft' => c :: replace_from fuel' r f (c :: bef) aft'
          end
      end
  end.

Definition replace_all (r : regex) (f : mstate -> mstate -> jsstring)
    (s : jsstring) : jsstring :=
  replace_from (S (length s)) r f [] s.

Definition replace_with (r : regex) (by_ : jsstring) (s : jsstring) : jsstring :=
  replace_all r (fun _ _ => by_) s.





End Re.

(** ** Outcomes of a call

    A call of the source returns a value, throws an exception that a
    [catch] of the source can absorb, or exhausts the call stack of the
    runtime.  The recursion of [parseEntity] has no bound of its own: the
    model gives it the number of nested calls that the stack admits, and
    [OutOfFuel] is the [RangeError] of a recursion that goes deeper, which
    no [catch] of the parser surrounds. *)

Inductive outcome (A : Type) :=
| Ret (a : A)
| Throw
| OutOfFuel.
Arguments Ret {A} a.
Arguments Throw {A}.
Arguments OutOfFuel {A}.

Definition bind {A B} (x : outcome A) (f : A -> outcome B) : outcome B :=
  match x with
  | Ret a => f a
  | Throw => Throw
  | OutOfFuel => OutOfFuel
  end.

Notation "'do' x <- e ; k" := (bind e (fun x => k))
  (at level 10, x name, e at level 100, k at level 200).

(** A call of the runtime that returns or throws. *)
Definition throwing {A} (o : option A) : outcome A :=
  match o with
  | Some a => Ret a
  | None => Throw
  end.

(** [try { e } catch (_) { h }] *)
Definition try_catch {A} (e : outcome A) (h : outcome A) : outcome A :=
  match e with
  | Throw => h
  | _ => e
  end.


(** ** The services of the runtime

    [toLowerCase] follows the case tables of Unicode, [TextDecoder] the
    encodings known to the platform, and [parseInt] its number
    representation; none of them belongs to the repository, and the parser
    is read relative to them. *)
Record Runtime := {
  (** [s.toLowerCase()] *)
  toLowerCase : jsstring -> jsstring;
  (** [new TextDecoder(label, { fatal: false }).decode(new Uint8Array(bytes))];
      it throws for a label that names no encoding ([None]). *)
  textDecode : jsstring -> list N -> option jsstring;
  (** [String.fromCharCode(parseInt(n, 10))] for a string [n] of digits. *)
  charFromDecimal : jsstring -> option jsstring
}.

(** ** Base64: [atob]

    The forgiving base64 decoder of the platform: padding is optional, a
    length of 1 modulo 4 and any character outside the alphabet throw, and
    the result is a string whose code units are the decoded bytes. *)

Definition b64val (c : cu) : option N :=
  if isUpper c then Some (c - 65)%N
  else if isLower c then Some (c - 71)%N
  else if isDigit c then Some (c + 4)%N
  else if cu_eqb c 43 then Some 62%N
  else if cu_eqb c 47 then Some 63%N
  else None.

Fixpoint b64vals (s : jsstring) : option (list N) :=
  match s with
  | [] => Some []
  | c :: s' =>
      match b64val c, b64vals s' with
      | Some v, Some vs => Some (v :: vs)
      | _, _ => None
      end
  end.

Fixpoint b64bytes (l : list N) : list N :=
  match l with
  | a :: b :: c :: d :: rest =>
      let n := (((a * 64 + b) * 64 + c) * 64 + d)%N in
      (n / 65536)%N :: ((n / 256) mod 256)%N :: (n mod 256)%N :: b64bytes rest
  | [a; b; c] =>
      let n := ((a * 64 + b) * 64 + c)%N in
      [(n / 1024)%N; ((n / 4) mod 256)%N]
  | [a; b] => [((a * 64 + b) / 16)%N]
  | _ => []
  end.

Definition stripPadding (s : jsstring) : jsstring :=
  if Nat.eqb (length s mod 4) 0 then
    match rev s with
    | 61%N :: 61%N :: r => rev r
    | 61%N :: r => rev r
    | _ => s
    end
  else s.

Definition isAsciiWhitespace (c : cu) : bool :=
  cu_eqb c 9 || cu_eqb c 10 || cu_eqb c 12 || cu_eqb c 13 || cu_eqb c 32.

Definition atob (data : jsstring) : outcome jsstring :=
  let d := stripPadding (filter (fun c => negb (isAsciiWhitespace c)) data) in
  if Nat.eqb (length d mod 4) 1 then Throw
  else match b64vals d with
       | Some vs => Ret (b64bytes vs)
       | None => Throw
       end.

(** ** The parser: [src/email/parser.js] *)

(** The result of [parseEmailBody]: the object [{ text, html }]. *)
Record parsed := Parsed { text : jsstring; html : jsstring }.

(** Truthiness of a string: the empty string is the only falsy one. *)
Definition truthy (s : jsstring) : bool :=
  match s with [] => false | _ :: _ => true end.

(** The header object.  Its keys are lower-cased names; an assignment to the
    key [__proto__] of a plain object is ignored when the value is a string,
    so that key never becomes a property. *)
Abbreviation headers := (gmap (list N) (list N)).

Definition protoKey : jsstring := str "__proto__".

Definition setHeader (k v : jsstring) (h : headers) : headers :=
  if str_eqb k protoKey then h else <[k := v]> h.

(** [headers[k] || ''] *)
Definition getHeader (k : jsstring) (h : headers) : jsstring :=
  default [] (h !! k).

(** The pattern of a header line: [^], group 1 [[^:]+], [:], [\s*],
    group 2 [.*], [$]. *)
Definition re_headerLine : Re.regex :=
  Re.seqs [Re.Bol; Re.Group 1 (Re.plus (fun c => negb (cu_eqb c 58)));
           Re.chr 58; Re.star isSpace; Re.Group 2 (Re.star Re.dot); Re.Eol].

(** [/^\s/.test(line)] *)
Definition startsWithSpace (line : jsstring) : bool :=
  match line with c :: _ => isSpace c | [] => false end.

(** The pattern of [getBoundary], with the [i] flag: [boundary\s*=\s*], an
    optional double quote, group 1 (one or more characters other than the
    double quote, [;], CR and LF), an optional double quote. *)
Definition re_boundary : Re.regex :=
  Re.seqs [Re.liti (str "boundary"); Re.star isSpace; Re.chr 61; Re.star isSpace;
           Re.opt (Re.chr 34);
           Re.Group 1 (Re.plus (fun c => negb (cu_eqb c 34 || cu_eqb c 59
                                               || cu_eqb c 13 || cu_eqb c 10)));
           Re.opt (Re.chr 34)].

(** The pattern of [decodeBodyWithCharset], with the [i] flag:
    [charset\s*=\s*], an optional double quote, group 1 (one or more
    characters other than the double quote and [;]). *)
Definition re_charset : Re.regex :=
  Re.seqs [Re.liti (str "charset"); Re.star isSpace; Re.chr 61; Re.star isSpace;
           Re.opt (Re.chr 34);
           Re.Group 1 (Re.plus (fun c => negb (cu_eqb c 34 || cu_eqb c 59)))].

(** [/<\w+[\s\S]*?>[\s\S]*<\/\w+>/] *)
Definition re_tagged : Re.regex :=
  Re.seqs [Re.chr 60; Re.plus isWord; Re.Rep false 0 None (Re.Chr Re.any);
           Re.chr 62; Re.star Re.any; Re.chr 60; Re.chr 47; Re.plus isWord;
           Re.chr 62].

(** [/=\r?\n/g] *)
Definition re_softBreak : Re.regex :=
  Re.seqs [Re.chr 61; Re.opt (Re.chr 13); Re.chr 10].

(** The class of [escapeHtml]: ampersand, [<], [>], double and single
    quote. *)
Definition re_htmlSpecial : Re.regex :=
  Re.Chr (fun c => cu_eqb c 38 || cu_eqb c 60 || cu_eqb c 62
                   || cu_eqb c 34 || cu_eqb c 39).

Definition getBoundary (contentType : jsstring) : jsstring :=
  if negb (truthy contentType) then []
  else match Re.search re_boundary contentType with
       | Some (_, m) => trim (Re.capture 1 m)
       | None => []
       end.

(** The value of a hexadecimal digit, and [parseInt(hex, 16)] for two of
    them. *)
Definition hexval (c : cu) : N :=
  if isDigit c then (c - 48)%N
  else if isUpper c then (c - 55)%N
  else (c - 87)%N.

(** The loop of [decodeQuotedPrintable]: the numbers pushed on [bytes]. *)
Fixpoint qpBytes (s : jsstring) : list N :=
  match s with
  | [] => []
  | ch :: rest =>
      if cu_eqb ch 61 then
        match rest with
        | h1 :: h2 :: rest' =>
            if isHex h1 && isHex h2
            then (16 * hexval h1 + hexval h2)%N :: qpBytes rest'
            else ch :: qpBytes rest
        | _ => ch :: qpBytes rest
        end
      else ch :: qpBytes rest
  end.

(** [new Uint8Array(numbers)]: every element is reduced modulo 256. *)
Definition toUint8Array (l : list N) : list N := map (fun c => (c mod 256)%N) l.

Definition escapeHtml (s : jsstring) : jsstring :=
  Re.replace_all re_htmlSpecial
    (fun st st' =>
       match Re.consumed st st' with
       | [38%N] => str "&amp;"
       | [60%N] => str "&lt;"
       | [62%N] => str "&gt;"
       | [34%N] => str "&quot;"
       | [39%N] => str "&#39;"
       | c => c
       end) s.

Definition textToHtml (t : jsstring) : jsstring :=
  str "<div style=" ++ [34%N] ++ str "white-space:pre-wrap" ++ [34%N] ++ str ">"
  ++ escapeHtml t ++ str "</div>".

(** The loop of [splitMultipart]: the parts pushed so far, the lines of the
    current part, and [inPart]; the last component records the [break]. *)
Record splitState := SplitState {
  parts : list jsstring;
  current : list jsstring;
  inPart : bool
}.

Definition flush (st : splitState) : list jsstring :=
  if inPart st && negb (Nat.eqb (length (current st)) 0)
  then parts st ++ [join [10%N] (current st)]
  else parts st.

Fixpoint splitMultipart_loop (delim endDelim : jsstring) (lines : list jsstring)
    (st : splitState) : list jsstring :=
  match lines with
  | [] => parts st
  | rawLine :: lines' =>
      let line := trimEnd rawLine in
      if str_eqb (trim line) delim
      then splitMultipart_loop delim endDelim lines' (SplitState (flush st) [] true)
      else if str_eqb (trim line) endDelim
      then flush st
      else if inPart st
      then splitMultipart_loop delim endDelim lines'
             (SplitState (parts st) (current st ++ [rawLine]) true)
      else splitMultipart_loop delim endDelim lines' st
  end.

Definition splitMultipart (body boundary : jsstring) : list jsstring :=
  let delim := str "--" ++ boundary in
  let endDelim := delim ++ str "--" in
  splitMultipart_loop delim endDelim (splitLines body) (SplitState [] [] false).

Section Parser.

Variable rt : Runtime.

(** The loop of [parseHeaders]: the header object and [lastKey]. *)
Definition parseHeaders_step (st : headers * jsstring) (line : jsstring)
    : headers * jsstring :=
  let '(h, lastKey) := st in
  if startsWithSpace line && truthy lastKey
  then (setHeader lastKey (getHeader lastKey h ++ str " " ++ trim line) h, lastKey)
  else match Re.search re_headerLine line with
       | Some (_, m) =>
           let k := toLowerCase rt (Re.capture 1 m) in
           (setHeader k (Re.capture 2 m) h, k)
       | None => (h, lastKey)
       end.

Definition parseHeaders (rawHeaders : jsstring) : headers :=
  fst (fold_left parseHeaders_step (splitLines rawHeaders) (∅, [])).

Definition splitHeadersAndBody (input : jsstring) : headers * jsstring :=
  let idx := indexOf [13; 10; 13; 10]%N input in
  let idx2 := match idx with None => indexOf [10; 10]%N input | Some _ => idx end in
  match idx, idx2 with
  | Some i, _ => (parseHeaders (slice input 0 i), sliceFrom input (i + 4))
  | None, Some i => (parseHeaders (slice input 0 i), sliceFrom input (i + 2))
  | None, None => (∅, input)
  end.

Definition decodeQuotedPrintable (input : jsstring) : outcome jsstring :=
  let s := Re.replace_with re_softBreak [] input in
  let bytes := qpBytes s in
  try_catch (throwing (textDecode rt (str "utf-8") (toUint8Array bytes))) (Ret s).

Definition decodeBody (body transferEncoding : jsstring) : outcome jsstring :=
  if negb (truthy body) then Ret []
  else
    let enc := trim transferEncoding in
    if str_eqb enc (str "base64") then
      let cleaned := Re.replace_with (Re.plus isSpace) [] body in
      try_catch
        (do bin <- atob cleaned;
         try_catch (throwing (textDecode rt (str "utf-8") (toUint8Array bin)))
                   (Ret bin))
        (Ret body)
    else if str_eqb enc (str "quoted-printable") then decodeQuotedPrintable body
    else Ret body.

Definition decodeBodyWithCharset (body transferEncoding contentType : jsstring)
    : outcome jsstring :=
  do decodedRaw <- decodeBody body transferEncoding;
  let charset :=
    match Re.search re_charset contentType with
    | Some (_, m) =>
        let c := toLowerCase rt (trim (Re.capture 1 m)) in
        if truthy c then c else str "utf-8"
    | None => str "utf-8"
    end in
  if negb (truthy decodedRaw) then Ret []
  else if str_eqb charset (str "utf-8") || str_eqb charset (str "utf8")
          || str_eqb charset (str "us-ascii")
  then Ret decodedRaw
  else try_catch (throwing (textDecode rt charset (toUint8Array decodedRaw)))
                 (Ret decodedRaw).

Definition guessHtmlFromRaw (raw : jsstring) : jsstring :=
  if negb (truthy raw) then []
  else
    let lower := toLowerCase rt raw in
    let hs := match indexOf (str "<html") lower with
              | None => indexOf (str "<!doctype html") lower
              | Some i => Some i
              end in
    match hs with
    | Some hs =>
        match lastIndexOf (str "</html>") lower with
        | Some he => slice raw hs (he + 7)
        | None => []
        end
    | None => []
    end.

(** [a || b] on strings. *)
Definition orElse (a b : jsstring) : jsstring := if truthy a then a else b.

(** A call of [parseEntity] that is not a multipart. *)
Definition parseLeaf (ct body transferEnc : jsstring) : outcome parsed :=
  do decoded <- decodeBodyWithCharset body transferEnc ct;
  let isHtml := includes (str "text/html") ct in
  let isText := includes (str "text/plain") ct || negb isHtml in
  let res := Parsed (if isText then decoded else []) (if isHtml then decoded else []) in
  if negb (truthy ct) then
    let guessHtml := guessHtmlFromRaw (orElse decoded body) in
    if truthy guessHtml then Ret (Parsed [] guessHtml) else Ret res
  else Ret res.

(** What one iteration of the loop over the parts does with a part: [None]
    is the [continue] of a part of type [rfc822-headers]. *)
Definition parsePart (entity : headers -> jsstring -> outcome parsed)
    (email : jsstring -> outcome parsed) (part : jsstring)
    : outcome (option parsed) :=
  let '(ph, pb) := splitHeadersAndBody part in
  let pct := toLowerCase rt (getHeader (str "content-type") ph) in
  if startsWith (str "multipart/") pct then
    do nested <- entity ph pb; Ret (Some nested)
  else if startsWith (str "message/rfc822") pct then
    do nested <- email pb; Ret (Some nested)
  else if includes (str "rfc822-headers") pct then Ret None
  else do res <- entity ph pb; Ret (Some res).

(** The loop over the parts, with its accumulators [text] and [html]. *)
Fixpoint mergeParts (part : jsstring -> outcome (option parsed))
    (ps : list jsstring) (acc : parsed) : outcome parsed :=
  match ps with
  | [] => Ret acc
  | p :: ps' =>
      do r <- part p;
      match r with
      | None => mergeParts part ps' acc
      | Some res =>
          let html' := if negb (truthy (html acc)) && truthy (html res)
                       then html res else html acc in
          let text' := if negb (truthy (text acc)) && truthy (text res)
                       then text res else text acc in
          if truthy text' && truthy html' then Ret (Parsed text' html')
          else mergeParts part ps' (Parsed text' html')
      end
  end.

(** What [parseEntity] does after the loop. *)
Definition finishEntity (body : jsstring) (acc : parsed) : parsed :=
  let html1 :=
    if negb (truthy (html acc)) then
      let g := guessHtmlFromRaw body in
      if negb (truthy g) && Re.test re_tagged body then body else g
    else html acc in
  let html2 :=
    if negb (truthy html1) && truthy (text acc) then textToHtml (text acc)
    else html1 in
  Parsed (text acc) html2.

Definition parseEmailBodyWith (entity : headers -> jsstring -> outcome parsed)
    (raw : jsstring) : outcome parsed :=
  if negb (truthy raw) then Ret (Parsed [] [])
  else let '(topHeaders, topBody) := splitHeadersAndBody raw in
       entity topHeaders topBody.

(** [parseEntity]; [fuel] is the number of nested calls that the call
    stack admits. *)
Fixpoint parseEntity (fuel : nat) (hs : headers) (body : jsstring) : outcome parsed :=
  match fuel with
  | 0 => OutOfFuel
  | S fuel' =>
      let ctRaw := getHeader (str "content-type") hs in
      let ct := toLowerCase rt ctRaw in
      let transferEnc :=
        toLowerCase rt (getHeader (str "content-transfer-encoding") hs) in
      let boundary := getBoundary ctRaw in
      if negb (startsWith (str "multipart/") ct)
      then parseLeaf ct body transferEnc
      else
        do acc <-
          (if truthy boundary
           then mergeParts
                  (parsePart (parseEntity fuel')
                             (parseEmailBodyWith (parseEntity fuel')))
                  (splitMultipart body boundary) (Parsed [] [])
           else Ret (Parsed [] []));
        Ret (finishEntity body acc)
  end.

Definition parseEmailBody (fuel : nat) (raw : jsstring) : outcome parsed :=
  parseEmailBodyWith (parseEntity fuel) raw.

End Parser.

(** ** The verification-code extractor of the server *)

(** The argument of [extractVerificationCode]: an object whose properties
    [subject], [text] and [html] are strings or missing. *)
Record ctx := Ctx {
  subject : option jsstring;
  ctx_text : option jsstring;
  ctx_html : option jsstring
}.

(** [String(x || '')] for a property that is a string or missing. *)
Definition stringOr (x : option jsstring) : jsstring := default [] x.

(** [-] or [\s] *)
Definition dashOrSpace (c : cu) : bool := cu_eqb c 45 || isSpace c.

(** The keyword alternation [kw] of the server, under the [i] flag. *)
Definition kw : Re.regex :=
  Re.alts
    [Re.liti (str "verification");
     Re.seqs [Re.liti (str "one"); Re.opt (Re.Chr dashOrSpace); Re.liti (str "time")];
     Re.seqs [Re.liti (str "two"); Re.opt (Re.Chr dashOrSpace); Re.liti (str "factor")];
     Re.liti (str "2fa");
     Re.liti (str "security");
     Re.liti (str "auth");
     Re.liti (str "login");
     Re.liti (str "confirm");
     Re.liti (str "code");
     Re.liti (str "otp");
     Re.liti [0x9a8c; 0x8bc1; 0x7801]%N;
     Re.liti [0x6821; 0x9a8c; 0x7801]%N;
     Re.liti [0x9a57; 0x8b49; 0x78bc]%N;
     Re.liti [0x78ba; 0x8a8d; 0x78bc]%N;
     Re.liti [0x8a8d; 0x8b49; 0x78bc]%N;
     Re.liti [0x8a8d; 0x8a3c; 0x30b3; 0x30fc; 0x30c9]%N;
     Re.liti [0xc778; 0xc99d; 0xcf54; 0xb4dc]%N;
     Re.liti [0xcf54; 0xb4dc]%N].

(** [sepClass]: no-break space, [\s], hyphen, en and em dash, underscore,
    full stop, middle dot, bullet, bullet operator, hyphenation point and
    the apostrophe. *)
Definition sepClass (c : cu) : bool :=
  cu_eqb c 0xA0 || isSpace c || cu_eqb c 45 || cu_eqb c 0x2013
  || cu_eqb c 0x2014 || cu_eqb c 95 || cu_eqb c 46 || cu_eqb c 0xB7
  || cu_eqb c 0x2022 || cu_eqb c 0x2219 || cu_eqb c 0x2027 || cu_eqb c 39.

(** [codeChunk]: group 1, a digit followed by three to seven digits, each
    optionally preceded by one separator. *)
Definition codeChunk : Re.regex :=
  Re.Group 1
    (Re.Seq (Re.Chr isDigit)
            (Re.Rep true 3 (Some 7)
                    (Re.Seq (Re.opt (Re.Chr sepClass)) (Re.Chr isDigit)))).

(** The class between keyword and digits.  The patterns are built from
    template literals in which the class is written with single
    backslashes, so the pattern the runtime compiles has a line feed, a
    carriage return and the letter d in the class; under the [i] flag it
    excludes LF, CR, [d] and [D]. *)
Definition gapClass (c : cu) : bool :=
  negb (cu_eqb c 10 || cu_eqb c 13 || cu_eqb_ci c 100).

Definition notBehindDigit : Re.regex := Re.NotBehind isDigit.
Definition notAheadDigit : Re.regex := Re.Ahead false (Re.Chr isDigit).

(** keyword, gap of at most [n], digits *)
Definition kwThenCode (n : nat) : Re.regex :=
  Re.seqs [kw; Re.upto n gapClass; notBehindDigit; codeChunk; notAheadDigit].

(** digits, gap of at most [n], keyword *)
Definition codeThenKw (n : nat) : Re.regex :=
  Re.seqs [notBehindDigit; codeChunk; notAheadDigit; Re.upto n gapClass; kw].

Definition subjectOrdereds : list Re.regex := [kwThenCode 20; codeThenKw 20].
Definition bodyOrdereds : list Re.regex := [kwThenCode 30; codeThenKw 30].
Definition looseBodyOrdereds : list Re.regex := [kwThenCode 80; codeThenKw 80].

Definition minLen : nat := 4.
Definition maxLen : nat := 8.

(** [normalizeDigits]: the pattern is [\D+] with the [g] flag. *)
Definition normalizeDigits (s : jsstring) : jsstring :=
  let digits := Re.replace_with (Re.plus (fun c => negb (isDigit c))) [] s in
  if (minLen <=? length digits) && (length digits <=? maxLen) then digits else [].

(** [parseInt(s, 10)]: [None] is [NaN]. *)
Fixpoint digitsValue (acc : Z) (s : jsstring) : Z :=
  match s with
  | c :: s' => if isDigit c then digitsValue (acc * 10 + Z.of_N (c - 48)) s' else acc
  | [] => acc
  end.

Definition parseInt10 (s : jsstring) : option Z :=
  let t := trimStart s in
  let '(neg, u) :=
    match t with
    | 45%N :: u => (true, u)
    | 43%N :: u => (false, u)
    | _ => (false, t)
    end in
  match u with
  | c :: _ => if isDigit c
              then Some (if neg then - digitsValue 0 u else digitsValue 0 u)%Z
              else None
  | [] => None
  end.

(** The pattern of the postal test, with the [i] flag: [\b[a-z]{2,}\s+\d{5}\b]. *)
Definition re_wordThenFive : Re.regex :=
  Re.seqs [Re.WordB; Re.Rep true 2 None (Re.Chr isAlpha); Re.plus isSpace;
           Re.Rep true 5 (Some 5) (Re.Chr isDigit); Re.WordB].

(** [addressPattern], with the [i] flag: [\b], the digits, [\s+], [[A-Z]],
    [[a-z]+], then a comma or [\b].  Under the flag both classes match the
    letters of either case. *)
Definition addressPattern (digits : jsstring) : Re.regex :=
  Re.seqs [Re.WordB; Re.liti digits; Re.plus isSpace; Re.Chr isAlpha;
           Re.plus isAlpha; Re.Alt (Re.chr 44) Re.WordB].

Section Extractor.

Variable rt : Runtime.

(** The replacement of a numeric character reference in [stripHtml]. *)
Definition numericReference (n : jsstring) : jsstring :=
  match try_catch (throwing (charFromDecimal rt n)) (Ret (str " ")) with
  | Ret c => c
  | _ => []
  end.

Definition stripHtml (h : option jsstring) : jsstring :=
  let s := stringOr h in
  let s := Re.replace_with
             (Re.seqs [Re.liti (str "<script"); Re.Rep false 0 None (Re.Chr Re.any);
                       Re.liti (str "</script>")]) (str " ") s in
  let s := Re.replace_with
             (Re.seqs [Re.liti (str "<style"); Re.Rep false 0 None (Re.Chr Re.any);
                       Re.liti (str "</style>")]) (str " ") s in
  let s := Re.replace_with
             (Re.seqs [Re.chr 60; Re.plus (fun c => negb (cu_eqb c 62)); Re.chr 62])
             (str " ") s in
  let s := Re.replace_with (Re.liti (str "&nbsp;")) (str " ") s in
  let s := Re.replace_all
             (Re.seqs [Re.chr 38; Re.chr 35; Re.Group 1 (Re.plus isDigit); Re.chr 59])
             (fun _ m => numericReference (Re.capture 1 m)) s in
  let s := Re.replace_with
             (Re.seqs [Re.chr 38; Re.plus isAlpha; Re.chr 59]) (str " ") s in
  let s := Re.replace_with (Re.plus isSpace) (str " ") s in
  trim s.

Definition isLikelyNonVerificationCode (digits context : jsstring) : bool :=
  if negb (truthy digits) then true
  else
    let year := parseInt10 digits in
    if Nat.eqb (length digits) 4
       && match year with
          | Some y => (2000 <=? y)%Z && (y <=? 2099)%Z
          | None => false
          end
    then true
    else if Nat.eqb (length digits) 5
            && (let lowerContext := toLowerCase rt context in
                includes (str "address") lowerContext
                || includes (str "street") lowerContext
                || includes (str "zip") lowerContext
                || includes (str "postal") lowerContext
                || Re.test re_wordThenFive context)
    then true
    else Re.test (addressPattern digits) context.

(** One of the three loops over a list of patterns: the first pattern whose
    match normalises to a code that passes [ok] decides. *)
Fixpoint firstCode (rules : list Re.regex) (source : jsstring)
    (ok : jsstring -> bool) : option jsstring :=
  match rules with
  | [] => None
  | r :: rules' =>
      match Re.search r source with
      | Some (_, m) =>
          if truthy (Re.capture 1 m) then
            let n := normalizeDigits (Re.capture 1 m) in
            if truthy n && ok n then Some n else firstCode rules' source ok
          else firstCode rules' source ok
      | None => firstCode rules' source ok
      end
  end.

(** [sources.body] *)
Definition sourcesBody (c : ctx) : jsstring :=
  trim (stringOr (ctx_text c) ++ str " " ++ stripHtml (ctx_html c)).

(** The three loops of [extractVerificationCode] over [sources.subject] and
    [sources.body]. *)
Definition cascade (subjectText body : jsstring) : jsstring :=
  match firstCode subjectOrdereds subjectText (fun _ => true) with
  | Some n => n
  | None =>
      match firstCode bodyOrdereds body (fun _ => true) with
      | Some n => n
      | None =>
          match firstCode looseBodyOrdereds body
                  (fun n => negb (isLikelyNonVerificationCode n body)) with
          | Some n => n
          | None => []
          end
      end
  end.

(** [extractVerificationCode]; [None] is a call without argument. *)
Definition extractVerificationCode (arg : option ctx) : jsstring :=
  let c := default (Ctx None None None) arg in
  cascade (stringOr (subject c)) (sourcesBody c).

End Extractor.

(** ** The extractor of the list preview: [extractCode] of [ui-helpers.js] *)

Module Client.

(** [keywords], under the [i] flag. *)
Definition keywords : Re.regex :=
  Re.alts
    [Re.liti [0x9a8c; 0x8bc1; 0x7801]%N;
     Re.liti [0x6821; 0x9a8c; 0x7801]%N;
     Re.liti [0x6fc0; 0x6d3b; 0x7801]%N;
     Re.seqs [Re.liti (str "one"); Re.opt (Re.Chr dashOrSpace); Re.liti (str "time");
              Re.plus isSpace; Re.liti (str "code")];
     Re.seqs [Re.liti (str "verification"); Re.plus isSpace; Re.liti (str "code")];
     Re.seqs [Re.liti (str "security"); Re.plus isSpace; Re.liti (str "code")];
     Re.seqs [Re.liti (str "two"); Re.opt (Re.Chr dashOrSpace); Re.liti (str "factor")];
     Re.liti (str "2fa");
     Re.liti (str "otp");
     Re.seqs [Re.liti (str "login"); Re.plus isSpace; Re.liti (str "code")];
     Re.liti (str "code")].

Definition notAlnum (c : cu) : bool := negb (isAlnum c).

(** [notFollowAlnum] *)
Definition notFollowAlnum : Re.regex := Re.Ahead false (Re.Chr isAlnum).

(** a colon or a full-width colon *)
Definition colon (c : cu) : bool := cu_eqb c 58 || cu_eqb c 0xff1a.

(** The optional connector after the keyword: [is] with an optional colon
    after optional white space, a colon, or one of two Chinese copulas. *)
Definition connector : Re.regex :=
  Re.opt (Re.alts [Re.seqs [Re.liti (str "is");
                            Re.opt (Re.Seq (Re.star isSpace) (Re.Chr colon))];
                   Re.Chr colon;
                   Re.chri 0x4e3a;
                   Re.chri 0x662f]).

(** a space, a tab or a hyphen *)
Definition blankOrDash (c : cu) : bool := cu_eqb c 32 || cu_eqb c 9 || cu_eqb c 45.

Definition rule1 : Re.regex :=
  Re.seqs [keywords; Re.upto 20 notAlnum; connector; Re.upto 10 notAlnum;
           Re.Group 1 (Re.Rep true 4 (Some 8) (Re.Chr isDigit)); notFollowAlnum].

Definition rule2 : Re.regex :=
  Re.seqs [keywords; Re.upto 20 notAlnum; connector; Re.upto 10 notAlnum;
           Re.Group 1 (Re.Seq (Re.Rep true 3 (Some 7)
                                      (Re.Seq (Re.Chr isDigit) (Re.Chr blankOrDash)))
                              (Re.Chr isDigit))].

Definition rule3 : Re.regex :=
  Re.seqs [keywords; Re.upto 40 notAlnum;
           Re.Group 1 (Re.Seq (Re.Ahead true (Re.Seq (Re.star isAlnum) (Re.Chr isDigit)))
                              (Re.Rep true 4 (Some 8) (Re.Chr isAlnum)));
           notFollowAlnum].

Definition rule4 : Re.regex :=
  Re.seqs [Re.NotBehind isDigit; Re.Group 1 (Re.Rep true 6 (Some 6) (Re.Chr isDigit));
           Re.Ahead false (Re.Chr isDigit)].

Definition rule5 : Re.regex :=
  Re.Group 1 (Re.Seq (Re.Chr isDigit)
                     (Re.Rep true 5 (Some 7)
                             (Re.Seq (Re.Chr blankOrDash) (Re.Chr isDigit)))).

(** [m[1].replace(/\D/g, '')] and the test of its length. *)
Definition digitsInRange (s : jsstring) : option jsstring :=
  let digits := Re.replace_with (Re.Chr (fun c => negb (isDigit c))) [] s in
  if (4 <=? length digits) && (length digits <=? 8) then Some digits else None.

Definition extractCode (text : jsstring) : jsstring :=
  if negb (truthy text) then []
  else
    match Re.search rule1 text with
    | Some (_, m) => Re.capture 1 m
    | None =>
        let r2 := match Re.search rule2 text with
                  | Some (_, m) => digitsInRange (Re.capture 1 m)
                  | None => None
                  end in
        match r2 with
        | Some d => d
        | None =>
            match Re.search rule3 text with
            | Some (_, m) => Re.capture 1 m
            | None =>
                match Re.search rule4 text with
                | Some (_, m) => Re.capture 1 m
                | None =>
                    match Re.search rule5 text with
                    | Some (_, m) => default [] (digitsInRange (Re.capture 1 m))
                    | None => []
                    end
                end
            end
        end
    end.

End Client.

(** ** A reference runtime for the examples

    It is exact on the texts of the examples below, which are ASCII but
    for three Chinese characters, which have no case: [toLowerCase] lowers
    the ASCII letters, the only encoding it knows is UTF-8, whose ASCII
    bytes decode to themselves (any other byte becomes U+FFFD), and a
    character reference is reduced modulo 65536. *)
Module Reference.

Definition asciiLower (s : jsstring) : jsstring := map lowerAscii s.

Definition decodeAscii (bytes : list N) : jsstring :=
  map (fun b => if (b <? 128)%N then b else 0xFFFD%N) bytes.

Definition textDecode0 (label : jsstring) (bytes : list N) : option jsstring :=
  if str_eqb label (str "utf-8") || str_eqb label (str "utf8")
  then Some (decodeAscii bytes)
  else None.

Definition charFromDecimal0 (n : jsstring) : option jsstring :=
  Some [Z.to_N (digitsValue 0 n mod 65536)].

Definition rt0 : Runtime :=
  {| toLowerCase := asciiLower;
     textDecode := textDecode0;
     charFromDecimal := charFromDecimal0 |}.

End Reference.

(** ** Notions used in the statements *)

(** Occurrences of a marker in a text. *)
Definition occursAt (p s : jsstring) (i : nat) : bool :=
  (i <=? length s) && startsWith p (drop i s).

Definition noneOf (p s : jsstring) (js : list nat) : bool :=
  forallb (fun j => negb (occursAt p s j)) js.

(** [i] is the first, the last, no index at which [p] occurs in [s]. *)
Definition firstAt (p s : jsstring) (i : nat) : bool :=
  occursAt p s i && noneOf p s (seq 0 i).
Definition lastAt (p s : jsstring) (i : nat) : bool :=
  occursAt p s i && noneOf p s (seq (S i) (length s - i)).
Definition absent (p s : jsstring) : bool :=
  noneOf p s (seq 0 (S (length s))).

(** The opening marker of the sniffer at [hs]: the first [<html], or
    without any the first [<!doctype html]. *)
Definition openingAt (lower : jsstring) (hs : nat) : bool :=
  firstAt (str "<html") lower hs
  || absent (str "<html") lower && firstAt (str "<!doctype html") lower hs.

(** An isolated run of exactly six digits: six digits that no digit
    precedes and no digit follows. *)
Definition headIs (p : N -> bool) (l : jsstring) : bool :=
  match l with c :: _ => p c | [] => false end.

Definition isolatedSix (bef aft : jsstring) : option jsstring :=
  if negb (headIs isDigit bef) && (6 <=? length aft)
     && forallb isDigit (take 6 aft) && negb (headIs isDigit (drop 6 aft))
  then Some (take 6 aft) else None.


(** What a header line holds: its name and its value, the two groups of
    the pattern of [parseHeaders]. *)
Definition headerLine (l : jsstring) : option (jsstring * jsstring) :=
  match Re.search re_headerLine l with
  | Some (_, m) => Some (Re.capture 1 m, Re.capture 2 m)
  | None => None
  end.

(** The key under which the loop of [parseHeaders] stores a line once a
    header has been seen: the lower-cased name of a line that does not
    start with white space and matches the pattern; [None] for a
    continuation line and for a line that the loop ignores. *)
Definition headerKey (rt : Runtime) (l : jsstring) : option jsstring :=
  if startsWithSpace l then None
  else match headerLine l with
       | Some (name, _) => Some (toLowerCase rt name)
       | None => None
       end.

(** [l] is no header line: it is a continuation line, or a line that the
    loop ignores. *)
Definition noHeader (rt : Runtime) (l : jsstring) : bool :=
  match headerKey rt l with Some _ => false | None => true end.

(** No line of [ls] is a header line of the key [k], and every header line
    has a key that is not empty. *)
Definition otherHeaders (rt : Runtime) (k : jsstring) (ls : list jsstring) : bool :=
  forallb (fun l => match headerKey rt l with
                    | Some k' => negb (str_eqb k' k) && truthy k'
                    | None => true
                    end) ls.

(** [ls] is empty or starts with a header line. *)
Definition startsWithHeader (rt : Runtime) (ls : list jsstring) : bool :=
  match ls with
  | [] => true
  | l :: _ => negb (noHeader rt l)
  end.

(** The quoted-printable decoder in the words of its description.

    A soft line break is an equals sign immediately followed by a line end
    (LF, or CR LF). *)
Fixpoint removeSoftBreaks (s : jsstring) : jsstring :=
  match s with
  | [] => []
  | c :: r =>
      if cu_eqb c 61 then
        match r with
        | d :: r' =>
            if cu_eqb d 10 then removeSoftBreaks r'
            else if cu_eqb d 13 then
              match r' with
              | e :: r'' =>
                  if cu_eqb e 10 then removeSoftBreaks r''
                  else c :: removeSoftBreaks r
              | [] => c :: removeSoftBreaks r
              end
            else c :: removeSoftBreaks r
        | [] => c :: removeSoftBreaks r
        end
      else c :: removeSoftBreaks r
  end.

(** [r] starts with two hexadecimal digits. *)
Definition twoHex (r : jsstring) : bool :=
  match r with
  | h1 :: h2 :: _ => isHex h1 && isHex h2
  | _ => false
  end.

(** The bytes a text decodes to: an equals sign followed by two hexadecimal
    digits is the byte they denote; every other code unit, an equals sign
    that no two hexadecimal digits follow included, is kept as it is. *)
Inductive qpDecodes : jsstring -> list N -> Prop :=
| qp_end : qpDecodes [] []
| qp_escape h1 h2 r bs :
    isHex h1 = true -> isHex h2 = true -> qpDecodes r bs ->
    qpDecodes (61%N :: h1 :: h2 :: r) ((16 * hexval h1 + hexval h2)%N :: bs)
| qp_literal c r bs :
    cu_eqb c 61 && twoHex r = false -> qpDecodes r bs ->
    qpDecodes (c :: r) (c :: bs).




(** ** Inputs of the examples *)

Module Examples.

Definition LF : jsstring := [10%N].




(** A multipart nested [k] levels deep around [inner]; the boundary of
    level [k] is the letter b followed by [k] letters x. *)
Definition boundaryOf (k : nat) : jsstring := str "b" ++ repeat 120%N k.

Fixpoint nested (k : nat) (inner : jsstring) : jsstring :=
  match k with
  | 0 => inner
  | S k' =>
      str "Content-Type: multipart/mixed; boundary=" ++ boundaryOf k ++ LF ++ LF
      ++ str "--" ++ boundaryOf k ++ LF
      ++ nested k' inner ++ LF
      ++ str "--" ++ boundaryOf k ++ str "--"
  end.




(** A header block in which the name [a] occurs twice; the second
    occurrence has two continuation lines with a line without colon
    between them, and headers of other names follow. *)
Definition interleaved : jsstring :=
  str "A: 1" ++ LF ++ str "a: 2" ++ LF ++ str " cont" ++ LF ++ str "noise" ++ LF
  ++ [9%N] ++ str "more" ++ LF ++ str "B: 3" ++ LF ++ str " x" ++ LF ++ str "C: 4".

(** A document with a doctype before its root element. *)
Definition withDoctype : jsstring :=
  str "<!DOCTYPE html><html><body>x</body></html>".

(** A document in capitals between other text. *)
Definition shouted : jsstring := str "xx<HTML><P>Hi</P></HTML>yy".



(** A code more than thirty code units after the keyword and followed by
    a word in small letters. *)
Definition farCode : jsstring :=
  str "code for your new account at our nice shop: 123456 is all you want".

(** A message whose plain text and HTML both carry digits. *)
Definition twoSources : ctx :=
  Ctx None (Some (str "1111 code")) (Some (str "<b>2222</b>")).

End Examples.

(** ** The helpers of the user interface: [ui-helpers.js] *)

Module Ui.

(** [s.replace(/c/g, by)] for a pattern that is one character. *)
Definition replaceChar (c : cu) (by_ : jsstring) (s : jsstring) : jsstring :=
  Re.replace_with (Re.chr c) by_ s.
Arguments replaceChar c%_N by_ s.

(** [escapeHtml]; [None] is [null] or [undefined]. *)
Definition escapeHtml (x : option jsstring) : jsstring :=
  match x with
  | None => []
  | Some s =>
      replaceChar 39 (str "&#39;")
        (replaceChar 34 (str "&quot;")
           (replaceChar 62 (str "&gt;")
              (replaceChar 60 (str "&lt;")
                 (replaceChar 38 (str "&amp;") s))))
  end.

(** [escapeAttr] *)
Definition escapeAttr (x : option jsstring) : jsstring :=
  match x with
  | None => []
  | Some s =>
      replaceChar 62 (str "&gt;")
        (replaceChar 60 (str "&lt;")
           (replaceChar 39 (str "&#39;")
              (replaceChar 34 (str "&quot;")
                 (replaceChar 38 (str "&amp;") s))))
  end.

End Ui.

(** ** The forwarding rules: [src/email/forwarder.js] *)

Module Forward.

(** A rule [{ prefix, email }]. *)
Record rule := Rule { prefix : jsstring; email : jsstring }.

(** An item given to [normalizeRules]: an object whose properties [prefix]
    and [email] are strings or missing. *)
Record item := Item { item_prefix : option jsstring; item_email : option jsstring }.

Definition wildcard : jsstring := str "*".

Section WithRuntime.

Variable rt : Runtime.

(** [normalizeRules]: the items without prefix or without address are
    skipped. *)
Fixpoint normalizeRules (items : list item) : list rule :=
  match items with
  | [] => []
  | it :: items' =>
      let p := toLowerCase rt (stringOr (item_prefix it)) in
      let e := trim (stringOr (item_email it)) in
      if negb (truthy p) || negb (truthy e) then normalizeRules items'
      else Rule p e :: normalizeRules items'
  end.

(** The loop of [resolveTargetEmail] over the rules. *)
Fixpoint firstPrefixRule (lp : jsstring) (rules : list rule) : option jsstring :=
  match rules with
  | [] => None
  | r :: rules' =>
      if str_eqb (prefix r) wildcard then firstPrefixRule lp rules'
      else if startsWith (prefix r) lp then Some (email r)
      else firstPrefixRule lp rules'
  end.

(** [resolveTargetEmail]; the result [None] is [null]. *)
Definition resolveTargetEmail (localPart : option jsstring) (rules : list rule)
    : option jsstring :=
  let lp := toLowerCase rt (stringOr localPart) in
  match firstPrefixRule lp rules with
  | Some e => Some e
  | None =>
      match List.find (fun r => str_eqb (prefix r) wildcard) rules with
      | Some w => Some (email w)
      | None => None
      end
  end.

End WithRuntime.

End Forward.

(** ** The message that the HTTP receiver stores: [src/email/receiver.js] *)

Module Receiver.

(** The line end of the stored message, and the double quote. *)
Definition lineEnd : jsstring := [13; 10]%N.
Definition quote : jsstring := [34%N].

(** The characters of the identifier that the runtime draws for the
    boundary, a UUID or a number in base 36: digits, lower-case letters and
    the hyphen. *)
Definition isIdChar (c : cu) : bool := isDigit c || isLower c || cu_eqb c 45.

(** [boundary] for the identifier [id]. *)
Definition boundaryFor (id : jsstring) : jsstring := str "mf-" ++ id.

(** The value of [eml] in [handleEmailReceive], for the addresses, the
    subject, the date and the boundary that it computes. *)
Definition buildEml (sender mailbox subject dateStr boundary text html : jsstring)
    : jsstring :=
  if truthy html then
    join lineEnd
      [str "From: <" ++ sender ++ str ">";
       str "To: <" ++ mailbox ++ str ">";
       str "Subject: " ++ subject;
       str "Date: " ++ dateStr;
       str "MIME-Version: 1.0";
       str "Content-Type: multipart/alternative; boundary=" ++ quote ++ boundary ++ quote;
       [];
       str "--" ++ boundary;
       str "Content-Type: text/plain; charset=" ++ quote ++ str "utf-8" ++ quote;
       str "Content-Transfer-Encoding: 8bit";
       [];
       text;
       str "--" ++ boundary;
       str "Content-Type: text/html; charset=" ++ quote ++ str "utf-8" ++ quote;
       str "Content-Transfer-Encoding: 8bit";
       [];
       html;
       str "--" ++ boundary ++ str "--";
       []]
  else
    join lineEnd
      [str "From: <" ++ sender ++ str ">";
       str "To: <" ++ mailbox ++ str ">";
       str "Subject: " ++ subject;
       str "Date: " ++ dateStr;
       str "MIME-Version: 1.0";
       str "Content-Type: text/plain; charset=" ++ quote ++ str "utf-8" ++ quote;
       str "Content-Transfer-Encoding: 8bit";
       [];
       text;
       []].

End Receiver.

(** ** The address of a sender or a recipient: [src/utils/common.js] *)

Module Common.

Definition notGreater (c : cu) : bool := negb (cu_eqb c 62).

(** The pattern of [extractEmail]: a less-than sign, group 1 (one or more
    characters other than the greater-than sign), a greater-than sign. *)
Definition re_angle : Re.regex :=
  Re.seqs [Re.chr 60; Re.Group 1 (Re.plus notGreater); Re.chr 62].

(** The first piece of a split at every white-space character. *)
Fixpoint firstPiece (s : jsstring) : jsstring :=
  match s with
  | [] => []
  | c :: s' => if isSpace c then [] else c :: firstPiece s'
  end.

(** [extractEmail]; the argument [None] is a missing address. *)
Definition extractEmail (addr : option jsstring) : jsstring :=
  let s := trim (stringOr addr) in
  match Re.search re_angle s with
  | Some (_, m) => trim (Re.capture 1 m)
  | None => orElse (firstPiece s) s
  end.

End Common.

(** ** Notions used in the further properties *)

(** The entity that replaces a code unit in escaped HTML. *)
Definition escapeUnit (c : cu) : jsstring :=
  if cu_eqb c 38 then str "&amp;"
  else if cu_eqb c 60 then str "&lt;"
  else if cu_eqb c 62 then str "&gt;"
  else if cu_eqb c 34 then str "&quot;"
  else if cu_eqb c 39 then str "&#39;"
  else [c].

(** The characters that open or close a tag or an attribute value. *)
Definition isMarkup (c : cu) : bool :=
  cu_eqb c 60 || cu_eqb c 62 || cu_eqb c 34 || cu_eqb c 39.

(** White space is normalised in [s]: every white-space code unit is a
    space, and no white space follows it. *)
Fixpoint spacesNormalised (s : jsstring) : bool :=
  match s with
  | [] => true
  | c :: s' =>
      (if isSpace c then cu_eqb c 32 && negb (headIs isSpace s') else true)
      && spacesNormalised s'
  end.

(** Four digits that read as a year from 2000 to 2099. *)
Definition isYear20xx (n : jsstring) : bool :=
  Nat.eqb (length n) 4 && forallb isDigit n
  && (2000 <=? digitsValue 0 n)%Z && (digitsValue 0 n <=? 2099)%Z.

(** A forwarding rule that applies to a lower-cased local part: it is no
    wildcard and its prefix starts the local part. *)
Definition applies (lp : jsstring) (r : Forward.rule) : bool :=
  negb (str_eqb (Forward.prefix r) Forward.wildcard)
  && startsWith (Forward.prefix r) lp.

(** A line that [splitMultipart] takes for the delimiter [d]. *)
Definition isDelimiterLine (d rawLine : jsstring) : bool :=
  str_eqb (trim (trimEnd rawLine)) d.

(** A line that is neither a delimiter nor the closing delimiter of the
    boundary. *)
Definition isContentLine (boundary rawLine : jsstring) : bool :=
  negb (isDelimiterLine (str "--" ++ boundary) rawLine)
  && negb (isDelimiterLine (str "--" ++ boundary ++ str "--") rawLine).

(** The lines of a group: a delimiter line and the lines after it. *)
Definition groupLines (g : jsstring * list jsstring) : list jsstring :=
  fst g :: snd g.

(** A group that is well formed for the boundary. *)
Definition isGroup (boundary : jsstring) (g : jsstring * list jsstring) : bool :=
  isDelimiterLine (str "--" ++ boundary) (fst g)
  && forallb (isContentLine boundary) (snd g).

(** The part that lines give: none when there is no line. *)
Definition nonEmptyPart (c : list jsstring) : list jsstring :=
  if negb (Nat.eqb (length c) 0) then [join [10%N] c] else [].

(** The parts of a list of groups: the content of each group that has
    some, joined with line feeds. *)
Definition partsOf (groups : list (jsstring * list jsstring)) : list jsstring :=
  map (fun g => join [10%N] (snd g))
      (List.filter (fun g => negb (Nat.eqb (length (snd g)) 0)) groups).

(** A quoted-printable encoder: a byte is written as it is when [literal]
    allows it, and as an equals sign and two upper-case hexadecimal digits
    otherwise. *)
Definition hexDigit (n : N) : cu := if (n <? 10)%N then (48 + n)%N else (55 + n)%N.

Definition qpEscape (b : N) : jsstring := [61%N; hexDigit (b / 16); hexDigit (b mod 16)].

Definition qpEncode (literal : N -> bool) (bytes : list N) : jsstring :=
  flat_map (fun b => if literal b then [b] else qpEscape b) bytes.

(** The base64 encoding of bytes: the character of a value below 64, the
    values of a byte string (six bits each), and the padding that fills
    the last group of four. *)
Definition b64char (v : N) : cu :=
  if (v <? 26)%N then (65 + v)%N
  else if (v <? 52)%N then (71 + v)%N
  else if (v <? 62)%N then (v - 4)%N
  else if (v =? 62)%N then 43%N
  else 47%N.

Fixpoint sextets (bytes : list N) : list N :=
  match bytes with
  | a :: b :: c :: rest =>
      (a / 4)%N :: ((a mod 4) * 16 + b / 16)%N :: ((b mod 16) * 4 + c / 64)%N
      :: (c mod 64)%N :: sextets rest
  | [a; b] => [(a / 4)%N; ((a mod 4) * 16 + b / 16)%N; ((b mod 16) * 4)%N]
  | [a] => [(a / 4)%N; ((a mod 4) * 16)%N]
  | [] => []
  end.

Fixpoint padding (bytes : list N) : jsstring :=
  match bytes with
  | _ :: _ :: _ :: rest => padding rest
  | [_; _] => [61%N]
  | [_] => [61; 61]%N
  | [] => []
  end.

Definition b64encode (bytes : list N) : jsstring :=
  map b64char (sextets bytes) ++ padding bytes.

Definition isByte (b : N) : bool := (b <? 256)%N.

(** What the list preview shows as a code: four to eight letters or digits
    of ASCII, one of them a digit. *)
Definition isPreviewCode (s : jsstring) : bool :=
  (4 <=? length s) && (length s <=? 8) && forallb isAlnum s && existsb isDigit s.

(** The class of the group of [getBoundary]. *)
Definition isBoundaryChar (c : cu) : bool :=
  negb (cu_eqb c 34 || cu_eqb c 59 || cu_eqb c 13 || cu_eqb c 10).

(** The class of the name of a header line. *)
Definition notColon (c : cu) : bool := negb (cu_eqb c 58).

(** A string without line feed, as every line of a text is, and one
    without carriage return. *)
Definition noLF (s : jsstring) : bool := forallb (fun c => negb (cu_eqb c 10)) s.
Definition noCR (s : jsstring) : bool := forallb (fun c => negb (cu_eqb c 13)) s.

(** A line that does not end with a carriage return. *)
Definition noFinalCR (l : jsstring) : bool := negb (headIs (cu_eqb 13) (rev l)).

Definition isAscii (c : cu) : bool := (c <? 128)%N.

(** The law of [toLowerCase] on ASCII strings, which every runtime obeys:
    the capital letters are lowered and nothing else changes. *)
Definition lowersAscii (rt : Runtime) : Prop :=
  forall s, forallb isAscii s = true -> toLowerCase rt s = map lowerAscii s.

(** The decoder of the runtime returns ASCII bytes as they are. *)
Definition decodesAscii (rt : Runtime) : Prop :=
  forall bytes, forallb isAscii bytes = true ->
    textDecode rt (str "utf-8") bytes = Some bytes.

(** No equals sign of [s] is followed by two hexadecimal digits. *)
Fixpoint noEscape (s : jsstring) : bool :=
  match s with
  | [] => true
  | c :: r => negb (cu_eqb c 61 && twoHex r) && noEscape r
  end.

(** The match that the runtime reports among the ways a pattern can match:
    the first. *)
Definition firstIs (l : list Re.mstate) (m : Re.mstate) : Prop := exists tl, l = m :: tl.

(** The pieces of a stored message. *)
Module Stored.

(** A line feed, and the two blank lines that end a header block. *)
Definition lineFeed : jsstring := [10%N].
Definition blankLine : jsstring := [10; 10]%N.
Definition blankLineCR : jsstring := [13; 10; 13; 10]%N.

(** The two properties of the header object that the parser reads. *)
Definition ctKey : jsstring := str "content-type".
Definition cteKey : jsstring := str "content-transfer-encoding".

(** The content types that [handleEmailReceive] writes. *)
Definition ctPlain : jsstring :=
  str "text/plain; charset=" ++ Receiver.quote ++ str "utf-8" ++ Receiver.quote.
Definition ctHtml : jsstring :=
  str "text/html; charset=" ++ Receiver.quote ++ str "utf-8" ++ Receiver.quote.
Definition ctAlternative (boundary : jsstring) : jsstring :=
  str "multipart/alternative; boundary=" ++ Receiver.quote ++ boundary ++ Receiver.quote.

Definition cteLine : jsstring := str "Content-Transfer-Encoding: 8bit".

(** The first five header lines: name, and what follows the colon. *)
Definition envelope (sender mailbox subject dateStr : jsstring)
    : list (jsstring * jsstring) :=
  [(str "From", str " <" ++ sender ++ str ">");
   (str "To", str " <" ++ mailbox ++ str ">");
   (str "Subject", str " " ++ subject);
   (str "Date", str " " ++ dateStr);
   (str "MIME-Version", str " 1.0")].

Definition headerLines (ls : list (jsstring * jsstring)) : list jsstring :=
  map (fun l => fst l ++ 58%N :: snd l) ls.

(** A leaf of a stored message: its two header lines, a blank line and
    its lines. *)
Definition leafBlock (ct : jsstring) : jsstring :=
  (str "Content-Type: " ++ ct) ++ lineFeed ++ str "Content-Transfer-Encoding: 8bit".

Definition leafPart (ct : jsstring) (lines : list jsstring) : jsstring :=
  join lineFeed
    ([str "Content-Type: " ++ ct; str "Content-Transfer-Encoding: 8bit"; []] ++ lines).

End Stored.

(** * Properties *)

(** ** The matcher *)

Module ReFacts.
Import Re.



Lemma flat_map_eq {A B} (f g : A -> list B) (l : list A) :
  (forall x, In x l -> f x = g x) -> flat_map f l = flat_map g l.
Proof.
  induction l as [|x l IH]; simpl; intros H; [reflexivity|].
  rewrite (H x) by now left. rewrite IH; [reflexivity|].
  intros y Hy. apply H. now right.
Qed.


Lemma rep_opt_done step g fuel st : rep_opt step g (Some 0) fuel st = [st].
Proof. destruct fuel; reflexivity. Qed.














(** The first match of the greedy repetition of a class takes the longest
    run of the class. *)
Lemma run_chr_cons p bef c rest cs :
  run (Chr p) (MState bef (c :: rest) cs)
  = if p c then [MState (c :: bef) rest cs] else [].
Proof. reflexivity. Qed.

Lemma rep_opt_chr_greedy p fuel bef aft cs :
  length aft <= fuel ->
  exists a1 a2 tl,
    aft = a1 ++ a2 /\ forallb p a1 = true /\
    match a2 with c :: _ => p c = false | [] => True end /\
    rep_opt (run (Chr p)) true None fuel (MState bef aft cs)
    = MState (rev a1 ++ bef) a2 cs :: tl.
Proof.
  revert bef aft. induction fuel as [|fuel IH]; intros bef aft Hlen.
  - destruct aft; [|simpl in Hlen; lia]. exists [], [], []. simpl. auto.
  - destruct aft as [|c aft].
    + exists [], [], []. simpl. auto.
    + cbn [rep_opt]. rewrite run_chr_cons. destruct (p c) eqn:Hc.
      * cbn [flat_map after length]. rewrite app_nil_r.
        replace (length aft <? S (length aft)) with true
          by (symmetry; apply Nat.ltb_lt; lia).
        simpl in Hlen.
        destruct (IH (c :: bef) aft ltac:(lia)) as (a1 & a2 & tl & -> & Hp & Hn & E).
        cbn [option_map]. rewrite E.
        exists (c :: a1), a2, (tl ++ [MState bef (c :: a1 ++ a2) cs]).
        simpl. rewrite Hc, Hp, <- app_assoc. auto.
      * exists [], (c :: aft), []. simpl. auto.
Qed.

Lemma run_seq r1 r2 st : run (Seq r1 r2) st = flat_map (run r2) (run r1 st).
Proof. reflexivity. Qed.

Lemma run_group n r st :
  run (Group n r) st
  = map (fun st' => MState (before st') (after st') ((n, consumed st st') :: caps st'))
        (run r st).
Proof. reflexivity. Qed.

Lemma run_notBehind p st :
  run (NotBehind p) st
  = match before st with
    | c :: _ => if p c then [] else [st]
    | [] => [st]
    end.
Proof. reflexivity. Qed.

Lemma run_rep g lo hi r st :
  run (Rep g lo hi r) st
  = flat_map (fun st' => rep_opt (run r) g (option_map (fun h => h - lo) hi)
                                 (length (after st')) st')
             (iter_step (run r) lo st).
Proof. reflexivity. Qed.

Lemma run_plus_first p bef aft cs :
  match aft with
  | c :: _ =>
      if p c then
        exists a1 a2 tl,
          aft = a1 ++ a2 /\ a1 <> [] /\ forallb p a1 = true /\
          match a2 with c :: _ => p c = false | [] => True end /\
          run (plus p) (MState bef aft cs) = MState (rev a1 ++ bef) a2 cs :: tl
      else run (plus p) (MState bef aft cs) = []
  | [] => run (plus p) (MState bef aft cs) = []
  end.
Proof.
  destruct aft as [|c aft]; [reflexivity|].
  unfold plus. rewrite run_rep. cbn [iter_step]. rewrite run_chr_cons.
  destruct (p c) eqn:Hc; [|reflexivity].
  destruct (rep_opt_chr_greedy p (length aft) (c :: bef) aft cs (le_n _))
    as (a1 & a2 & tl & -> & Hp & Hn & E).
  exists (c :: a1), a2, tl.
  cbn [flat_map option_map after app]. rewrite !app_nil_r, E.
  simpl. rewrite Hc, Hp, <- app_assoc. simpl. repeat split; auto.
Qed.

(** Deleting every run of a class leaves the code units outside it. *)
Lemma replace_plus_delete p fuel bef aft :
  length aft < fuel ->
  replace_from fuel (plus p) (fun _ _ => []) bef aft
  = filter (fun c => negb (p c)) aft.
Proof.
  revert bef aft. induction fuel as [|fuel IH]; intros bef aft Hlen; [lia|].
  cbn [replace_from].
  pose proof (run_plus_first p bef aft []) as H.
  destruct aft as [|c aft].
  - rewrite H. reflexivity.
  - destruct (p c) eqn:Hc.
    + destruct H as (a1 & a2 & tl & E & Hne & Hp & Hn & ->).
      cbn [after before]. rewrite E in *.
      assert (Hl : length a2 < length (a1 ++ a2)).
      { rewrite length_app. destruct a1; [congruence | simpl; lia]. }
      apply Nat.ltb_lt in Hl as Hl'. rewrite Hl'. simpl.
      rewrite IH by lia.
      rewrite filter_app.
      assert (Hf : filter (fun c => negb (p c)) a1 = []).
      { clear -Hp. induction a1 as [|x a1 IHa]; [reflexivity|].
        simpl in Hp. apply andb_prop in Hp as [Hx Hp].
        rewrite filter_cons. rewrite decide_False; [auto|]. rewrite Hx. simpl. auto. }
      now rewrite Hf.
    + rewrite H. simpl in Hlen. rewrite IH by lia.
      rewrite filter_cons. rewrite decide_True; [reflexivity|]. now rewrite Hc.
Qed.

Lemma replace_with_plus_delete p s :
  replace_with (plus p) [] s = filter (fun c => negb (p c)) s.
Proof. apply replace_plus_delete. lia. Qed.

End ReFacts.

Import ReFacts.

(** ** The extractor of the server *)

Section ExtractorFacts.

Variable rt : Runtime.

Lemma normalizeDigits_spec s :
  normalizeDigits s = [] \/
  (forallb isDigit (normalizeDigits s) = true /\
   4 <= length (normalizeDigits s) <= 8).
Proof.
  unfold normalizeDigits. rewrite replace_with_plus_delete.
  set (digits := filter _ s).
  destruct (minLen <=? length digits) eqn:Hlo; [|now left].
  destruct (length digits <=? maxLen) eqn:Hhi; [|now left].
  right. simpl. apply Nat.leb_le in Hlo, Hhi. unfold minLen, maxLen in *.
  split; [|lia].
  apply forallb_forall. intros c Hc. apply list_elem_of_In in Hc.
  apply list_elem_of_filter in Hc as [Hc _].
  destruct (isDigit c); [reflexivity | contradiction].
Qed.

Lemma firstCode_normalized rules source ok n :
  firstCode rules source ok = Some n -> exists x, n = normalizeDigits x.
Proof.
  induction rules as [|r rules IH]; simpl; [discriminate|].
  destruct (Re.search r source) as [[st m]|]; [|exact IH].
  destruct (truthy (Re.capture 1 m)); [|exact IH].
  destruct (truthy _ && ok _); [|exact IH].
  intros [= <-]. eauto.
Qed.

Lemma extractVerificationCode_cases arg :
  extractVerificationCode rt arg = [] \/
  exists x, extractVerificationCode rt arg = normalizeDigits x.
Proof.
  unfold extractVerificationCode, cascade.
  repeat match goal with
  | |- context [match firstCode ?r ?s ?k with _ => _ end] =>
      let E := fresh "E" in
      destruct (firstCode r s k) eqn:E;
      [right; eapply firstCode_normalized; exact E|]
  end.
  now left.
Qed.





End ExtractorFacts.

(** ** The extractor of the list preview *)

Module ClientFacts.
Import Re.

Lemma flat_map_single {A} (l : list A) : flat_map (fun x => [x]) l = l.
Proof. induction l as [|x l IH]; simpl; congruence. Qed.

Lemma run_exactly g n r st : run (Rep g n (Some n) r) st = iter_step (run r) n st.
Proof.
  rewrite run_rep. cbn [option_map]. rewrite Nat.sub_diag.
  rewrite <- (flat_map_single (iter_step (run r) n st)) at 2.
  apply flat_map_eq. intros x _. apply rep_opt_done.
Qed.

Lemma iter_chr p n bef aft cs :
  iter_step (run (Chr p)) n (MState bef aft cs)
  = if (n <=? length aft) && forallb p (take n aft)
    then [MState (rev (take n aft) ++ bef) (drop n aft) cs] else [].
Proof.
  revert bef aft. induction n as [|n IH]; intros bef aft.
  - reflexivity.
  - cbn [iter_step]. destruct aft as [|c aft]; [reflexivity|].
    rewrite run_chr_cons. destruct (p c) eqn:Hc.
    + cbn [flat_map]. rewrite app_nil_r, IH. simpl. rewrite Hc. simpl.
      destruct (_ && _); [|reflexivity]. now rewrite <- app_assoc.
    + simpl. rewrite Hc. now rewrite andb_false_r.
Qed.

Lemma consumed_take n bef aft cs cs' :
  n <= length aft ->
  consumed (MState bef aft cs) (MState (rev (take n aft) ++ bef) (drop n aft) cs')
  = take n aft.
Proof.
  intros H. unfold consumed. simpl.
  rewrite length_app, length_rev, length_take.
  replace (n `min` length aft + length bef - length bef) with (length (rev (take n aft)))
    by (rewrite length_rev, length_take; lia).
  rewrite take_app_length. apply rev_involutive.
Qed.

Lemma run_rule4 bef aft :
  run Client.rule4 (MState bef aft [])
  = match isolatedSix bef aft with
    | Some r => [MState (rev r ++ bef) (drop 6 aft) [(1, r)]]
    | None => []
    end.
Proof.
  change Client.rule4 with
    (Seq (NotBehind isDigit)
         (Seq (Group 1 (Rep true 6 (Some 6) (Chr isDigit)))
              (Ahead false (Chr isDigit)))).
  unfold isolatedSix.
  rewrite run_seq, run_notBehind. cbn [before].
  assert (Hnb : (match bef with
                 | [] => [MState bef aft []]
                 | c :: _ => if isDigit c then [] else [MState bef aft []]
                 end) = if negb (headIs isDigit bef) then [MState bef aft []] else []).
  { destruct bef as [|c ?]; [reflexivity|]. simpl. now destruct (isDigit c). }
  rewrite Hnb. destruct (negb (headIs isDigit bef)); [|reflexivity].
  cbn [flat_map andb]. rewrite app_nil_r.
  rewrite run_seq, run_group, run_exactly, iter_chr.
  destruct (6 <=? length aft) eqn:Hlen; [|reflexivity].
  apply Nat.leb_le in Hlen.
  destruct (forallb isDigit (take 6 aft)); [|reflexivity].
  cbn [andb map flat_map before after caps]. rewrite app_nil_r.
  rewrite (consumed_take 6 bef aft [] []) by exact Hlen.
  destruct (drop 6 aft) as [|d rest]; [reflexivity|]. simpl.
  destruct (isDigit d); reflexivity.
Qed.

Lemma capture_single n r bef aft : capture n (MState bef aft [(n, r)]) = r.
Proof. unfold capture. simpl. now rewrite Nat.eqb_refl. Qed.




End ClientFacts.

(** ** The HTML sniffer *)

Section SnifferFacts.

Lemma occursAt_beyond p s j : length s < j -> occursAt p s j = false.
Proof. intros H. unfold occursAt. apply Nat.leb_gt in H. now rewrite H. Qed.

Lemma occursAt_0 p s : occursAt p s 0 = startsWith p s.
Proof. reflexivity. Qed.

Lemma occursAt_S p c s j : occursAt p (c :: s) (S j) = occursAt p s j.
Proof. reflexivity. Qed.

Lemma noneOf_spec p s js :
  noneOf p s js = true <-> forall j, In j js -> occursAt p s j = false.
Proof.
  unfold noneOf. rewrite forallb_forall. split; intros H j Hj.
  - apply H in Hj. now apply negb_true_iff.
  - apply negb_true_iff. now apply H.
Qed.

Lemma firstAt_spec p s i :
  firstAt p s i = true <->
  occursAt p s i = true /\ forall j, j < i -> occursAt p s j = false.
Proof.
  unfold firstAt. rewrite andb_true_iff, noneOf_spec.
  split; intros [H1 H2]; split; auto; intros j Hj; apply H2.
  - apply in_seq. lia.
  - apply in_seq in Hj. lia.
Qed.

Lemma lastAt_spec p s i :
  lastAt p s i = true <->
  occursAt p s i = true /\ forall j, i < j -> occursAt p s j = false.
Proof.
  unfold lastAt. rewrite andb_true_iff, noneOf_spec.
  split; intros [H1 H2]; split; auto; intros j Hj.
  - destruct (Nat.le_gt_cases j (length s)).
    + apply H2, in_seq. lia.
    + now apply occursAt_beyond.
  - apply H2. apply in_seq in Hj. lia.
Qed.

Lemma absent_spec p s :
  absent p s = true <-> forall j, occursAt p s j = false.
Proof.
  unfold absent. rewrite noneOf_spec. split; intros H j; [|now intros _].
  destruct (Nat.le_gt_cases j (length s)).
  - apply H, in_seq. lia.
  - now apply occursAt_beyond.
Qed.

Lemma indexOf_first p s i : firstAt p s i = true -> indexOf p s = Some i.
Proof.
  rewrite firstAt_spec. revert i.
  induction s as [|c s IH]; intros i [Ho Hn].
  - destruct i; [|discriminate Ho]. rewrite occursAt_0 in Ho.
    simpl. destruct p; [reflexivity | discriminate Ho].
  - destruct i as [|i].
    + rewrite occursAt_0 in Ho. cbn [indexOf]. now rewrite Ho.
    + pose proof (Hn 0 ltac:(lia)) as H0. rewrite occursAt_0 in H0.
      cbn [indexOf]. rewrite H0. rewrite (IH i); [reflexivity|].
      split; [exact Ho|]. intros j Hj. apply (Hn (S j)). lia.
Qed.

Lemma indexOf_absent p s : absent p s = true -> indexOf p s = None.
Proof.
  rewrite absent_spec.
  induction s as [|c s IH]; intros Hn.
  - pose proof (Hn 0) as H0. rewrite occursAt_0 in H0. simpl.
    destruct p; [discriminate H0 | reflexivity].
  - pose proof (Hn 0) as H0. rewrite occursAt_0 in H0.
    cbn [indexOf]. rewrite H0, IH; [reflexivity|].
    intros j. apply (Hn (S j)).
Qed.

Lemma lastIndexOf_absent p s : absent p s = true -> lastIndexOf p s = None.
Proof.
  rewrite absent_spec.
  induction s as [|c s IH]; intros Hn.
  - pose proof (Hn 0) as H0. rewrite occursAt_0 in H0. simpl.
    destruct p; [discriminate H0 | reflexivity].
  - pose proof (Hn 0) as H0. rewrite occursAt_0 in H0.
    cbn [lastIndexOf]. rewrite IH, H0; [reflexivity|].
    intros j. apply (Hn (S j)).
Qed.

Lemma lastIndexOf_last p s i : lastAt p s i = true -> lastIndexOf p s = Some i.
Proof.
  rewrite lastAt_spec. revert i.
  induction s as [|c s IH]; intros i [Ho Hn].
  - destruct i; [|discriminate Ho]. rewrite occursAt_0 in Ho.
    simpl. destruct p; [reflexivity | discriminate Ho].
  - cbn [lastIndexOf]. destruct i as [|i].
    + rewrite lastIndexOf_absent.
      * rewrite occursAt_0 in Ho. now rewrite Ho.
      * apply absent_spec. intros j. apply (Hn (S j)). lia.
    + rewrite (IH i); [reflexivity|].
      split; [exact Ho|]. intros j Hj. apply (Hn (S j)). lia.
Qed.

Lemma startsWith_app p s : startsWith p s = true -> exists r, s = p ++ r.
Proof.
  revert s. induction p as [|a p IH]; intros s H; [now exists s|].
  destruct s as [|b s]; [discriminate|]. simpl in H.
  apply andb_prop in H as [Hab H]. apply N.eqb_eq in Hab as ->.
  destruct (IH _ H) as [r ->]. now exists r.
Qed.

Lemma occursAt_split p s i :
  occursAt p s i = true -> exists r, drop i s = p ++ r.
Proof.
  unfold occursAt. intros H. apply andb_prop in H as [_ H].
  now apply startsWith_app.
Qed.

(** An opening marker that starts after the start of a closing marker
    starts after its end: both begin with [<], which the closing marker
    contains once. *)
Lemma opening_after_closing o s hs he :
  occursAt (60%N :: o) s hs = true ->
  occursAt (str "</html>") s he = true ->
  he < hs -> he + 7 <= hs.
Proof.
  intros Ho Hc Hlt.
  destruct (occursAt_split _ _ _ Ho) as [r1 E1].
  destruct (occursAt_split _ _ _ Hc) as [r2 E2].
  destruct (Nat.le_gt_cases (he + 7) hs) as [|Hk]; [assumption|exfalso].
  replace hs with (he + (hs - he)) in E1 by lia.
  rewrite <- drop_drop, E2 in E1.
  remember (hs - he) as k eqn:Ek.
  assert (Hk' : 1 <= k <= 6) by lia. clear -E1 Hk'.
  destruct k as [|[|[|[|[|[|[|k]]]]]]]; try lia; discriminate E1.
Qed.

Variable rt : Runtime.

Lemma slice_crossed (s : jsstring) a b : b <= a -> slice s a b = [].
Proof. intros H. unfold slice. now replace (b - a) with 0 by lia. Qed.

Lemma guessHtmlFromRaw_found raw hs he :
  openingAt (toLowerCase rt raw) hs = true ->
  lastAt (str "</html>") (toLowerCase rt raw) he = true ->
  guessHtmlFromRaw rt raw = slice raw hs (he + 7).
Proof.
  intros Ho Hc. unfold guessHtmlFromRaw.
  destruct raw as [|c raw]; [unfold slice; now rewrite drop_nil, take_nil|].
  cbn [truthy negb].
  rewrite (lastIndexOf_last _ _ _ Hc).
  unfold openingAt in Ho. apply orb_prop in Ho as [Ho|Ho].
  - now rewrite (indexOf_first _ _ _ Ho).
  - apply andb_prop in Ho as [Ha Ho].
    now rewrite (indexOf_absent _ _ Ha), (indexOf_first _ _ _ Ho).
Qed.

Lemma guessHtmlFromRaw_crossed raw hs he :
  openingAt (toLowerCase rt raw) hs = true ->
  lastAt (str "</html>") (toLowerCase rt raw) he = true ->
  he < hs -> guessHtmlFromRaw rt raw = [].
Proof.
  intros Ho Hc Hlt. rewrite (guessHtmlFromRaw_found _ _ _ Ho Hc).
  apply slice_crossed.
  apply lastAt_spec in Hc as [Hc _].
  unfold openingAt in Ho. apply orb_prop in Ho as [Ho|Ho].
  - apply firstAt_spec in Ho as [Ho _].
    exact (opening_after_closing _ _ _ _ Ho Hc Hlt).
  - apply andb_prop in Ho as [_ Ho]. apply firstAt_spec in Ho as [Ho _].
    exact (opening_after_closing _ _ _ _ Ho Hc Hlt).
Qed.

Lemma guessHtmlFromRaw_missing raw :
  absent (str "<html") (toLowerCase rt raw)
  && absent (str "<!doctype html") (toLowerCase rt raw)
  || absent (str "</html>") (toLowerCase rt raw) = true ->
  guessHtmlFromRaw rt raw = [].
Proof.
  intros H. unfold guessHtmlFromRaw.
  destruct (negb (truthy raw)); [reflexivity|].
  apply orb_prop in H as [H|H].
  - apply andb_prop in H as [H1 H2].
    now rewrite (indexOf_absent _ _ H1), (indexOf_absent _ _ H2).
  - rewrite (lastIndexOf_absent _ _ H).
    now destruct (match indexOf _ _ with Some _ => _ | None => _ end).
Qed.

End SnifferFacts.

(** ** The header parser *)

Section HeaderFacts.

Variable rt : Runtime.

Lemma getHeader_setHeader (k v : jsstring) (h : gmap (list N) (list N)) :
  k <> protoKey -> getHeader k (setHeader k v h) = v.
Proof.
  intros Hk. unfold getHeader, setHeader, str_eqb.
  rewrite bool_decide_eq_false_2 by exact Hk.
  now rewrite lookup_insert_eq.
Qed.

(** A header line replaces whatever the object held under its name. *)
Lemma parseHeaders_step_header (h : gmap (list N) (list N)) (lastKey l : jsstring) m0 m :
  startsWithSpace l = false ->
  Re.search re_headerLine l = Some (m0, m) ->
  parseHeaders_step rt (h, lastKey) l
  = (setHeader (toLowerCase rt (Re.capture 1 m)) (Re.capture 2 m) h,
     toLowerCase rt (Re.capture 1 m)).
Proof.
  intros Hs Hm. unfold parseHeaders_step. now rewrite Hs, Hm.
Qed.

Lemma parseHeaders_step_key (h : gmap (list N) (list N)) (lastKey l : jsstring) :
  truthy lastKey = true ->
  parseHeaders_step rt (h, lastKey) l
  = if startsWithSpace l
    then (setHeader lastKey (getHeader lastKey h ++ str " " ++ trim l) h, lastKey)
    else match headerLine l with
         | Some (name, value) =>
             (setHeader (toLowerCase rt name) value h, toLowerCase rt name)
         | None => (h, lastKey)
         end.
Proof.
  intros Hk. unfold parseHeaders_step, headerLine. rewrite Hk, andb_true_r.
  destruct (startsWithSpace l); [reflexivity|].
  now destruct (Re.search re_headerLine l) as [[m0 m]|].
Qed.

Lemma getHeader_setHeader_ne (key k v : jsstring) (h : gmap (list N) (list N)) :
  key <> k -> getHeader key (setHeader k v h) = getHeader key h.
Proof.
  intros Hk. unfold getHeader, setHeader. destruct (str_eqb k protoKey); [reflexivity|].
  now rewrite lookup_insert_ne.
Qed.

(** Up to the next header line, the lines that start with white space are
    appended and the others are ignored. *)
Lemma parseHeaders_follow follow : forall (h : gmap (list N) (list N)) (k : jsstring),
  forallb (noHeader rt) follow = true -> truthy k = true -> k <> protoKey ->
  exists h',
    fold_left (parseHeaders_step rt) follow (h, k) = (h', k) /\
    getHeader k h'
    = getHeader k h
      ++ concat (map (fun c => str " " ++ trim c) (List.filter startsWithSpace follow)).
Proof.
  induction follow as [|c follow IH]; intros h k Hc Hk Hp.
  - exists h. simpl. now rewrite app_nil_r.
  - cbn [forallb] in Hc. apply andb_prop in Hc as [Hc Hcs].
    cbn [fold_left List.filter]. rewrite (parseHeaders_step_key _ _ _ Hk).
    unfold noHeader, headerKey in Hc.
    destruct (startsWithSpace c).
    + destruct (IH (setHeader k (getHeader k h ++ str " " ++ trim c) h) k Hcs Hk Hp)
        as (h' & E & Hv).
      exists h'. split; [exact E|].
      rewrite Hv, getHeader_setHeader by exact Hp.
      cbn [map concat]. now rewrite <- !app_assoc.
    + destruct (headerLine c) as [[n v]|]; [discriminate Hc|]. now apply IH.
Qed.

(** Header lines of other names, their continuation lines and the lines
    that are ignored leave the value of a key as it is. *)
Lemma parseHeaders_others k others : forall (h : gmap (list N) (list N)) (lastKey : jsstring),
  otherHeaders rt k others = true -> truthy lastKey = true -> lastKey <> k ->
  getHeader k (fst (fold_left (parseHeaders_step rt) others (h, lastKey)))
  = getHeader k h.
Proof.
  induction others as [|o others IH]; intros h lastKey Ho Hk Hne; [reflexivity|].
  unfold otherHeaders in Ho. cbn [forallb] in Ho. apply andb_prop in Ho as [Ho Hos].
  cbn [fold_left]. rewrite (parseHeaders_step_key _ _ _ Hk).
  unfold headerKey in Ho. destruct (startsWithSpace o).
  - rewrite (IH _ _ Hos Hk Hne). apply getHeader_setHeader_ne. congruence.
  - destruct (headerLine o) as [[n v]|]; [|now apply IH].
    apply andb_prop in Ho as [Hn Ht]. apply negb_true_iff in Hn.
    unfold str_eqb in Hn. apply bool_decide_eq_false in Hn.
    rewrite (IH _ _ Hos Ht Hn). apply getHeader_setHeader_ne. congruence.
Qed.

End HeaderFacts.

(** ** Quoted-printable *)

Section QuotedPrintableFacts.

Import Re.

Lemma run_opt_chr p bef aft cs :
  run (opt (Chr p)) (MState bef aft cs)
  = match aft with
    | c :: r => if p c then [MState (c :: bef) r cs; MState bef aft cs]
                else [MState bef aft cs]
    | [] => [MState bef aft cs]
    end.
Proof.
  unfold opt. rewrite run_rep. cbn [iter_step flat_map option_map after].
  rewrite app_nil_r. destruct aft as [|c r]; [reflexivity|].
  cbn [length rep_opt Nat.sub]. rewrite run_chr_cons.
  destruct (p c); [|reflexivity].
  cbn [flat_map after length option_map Nat.pred].
  replace (length r <? S (length r)) with true by (symmetry; apply Nat.ltb_lt; lia).
  now rewrite rep_opt_done.
Qed.

(** What the pattern of a soft line break matches at a position. *)
Lemma run_softBreak bef aft :
  run re_softBreak (MState bef aft [])
  = match aft with
    | c :: d :: r =>
        if cu_eqb c 61 then
          if cu_eqb d 10 then [MState (d :: c :: bef) r []]
          else if cu_eqb d 13 then
            match r with
            | e :: r' => if cu_eqb e 10 then [MState (e :: d :: c :: bef) r' []] else []
            | [] => []
            end
          else []
        else []
    | _ => []
    end.
Proof.
  change re_softBreak with
    (Seq (Chr (cu_eqb 61)) (Seq (opt (Chr (cu_eqb 13))) (Chr (cu_eqb 10)))).
  destruct aft as [|c aft]; [reflexivity|].
  rewrite run_seq, run_chr_cons. unfold cu_eqb.
  rewrite (N.eqb_sym 61 c).
  destruct (N.eqb c 61); [|destruct aft; reflexivity].
  cbn [flat_map]. rewrite app_nil_r, run_seq, run_opt_chr.
  destruct aft as [|d r]; [reflexivity|].
  rewrite (N.eqb_sym 13 d).
  destruct (N.eqb_spec d 10) as [->|Hd10]; [reflexivity|].
  destruct (N.eqb_spec d 13) as [->|Hd13].
  - cbn [flat_map]. rewrite !run_chr_cons. change (10 =? 13)%N with false.
    rewrite !app_nil_r.
    destruct r as [|e r']; [reflexivity|].
    rewrite run_chr_cons, (N.eqb_sym 10 e). destruct (N.eqb e 10); reflexivity.
  - cbn [flat_map]. rewrite run_chr_cons, (N.eqb_sym 10 d).
    now rewrite (proj2 (N.eqb_neq d 10) Hd10).
Qed.

Lemma removeSoftBreaks_cons c r :
  removeSoftBreaks (c :: r)
  = if cu_eqb c 61 then
      match r with
      | d :: r' =>
          if cu_eqb d 10 then removeSoftBreaks r'
          else if cu_eqb d 13 then
            match r' with
            | e :: r'' =>
                if cu_eqb e 10 then removeSoftBreaks r''
                else c :: removeSoftBreaks r
            | [] => c :: removeSoftBreaks r
            end
          else c :: removeSoftBreaks r
      | [] => c :: removeSoftBreaks r
      end
    else c :: removeSoftBreaks r.
Proof. reflexivity. Qed.

Lemma replace_softBreaks fuel bef aft :
  length aft < fuel ->
  replace_from fuel re_softBreak (fun _ _ => []) bef aft = removeSoftBreaks aft.
Proof.
  revert bef aft. induction fuel as [|fuel IH]; intros bef aft Hlen; [lia|].
  cbn [replace_from]. rewrite run_softBreak.
  destruct aft as [|c [|d r]].
  - reflexivity.
  - simpl. destruct fuel; [simpl in Hlen; lia|]. simpl.
    now destruct (cu_eqb c 61).
  - rewrite (removeSoftBreaks_cons c). simpl in Hlen.
    destruct (cu_eqb c 61).
    + destruct (cu_eqb d 10).
      * cbn [after before length].
        replace (length r <? S (S (length r))) with true
          by (symmetry; apply Nat.ltb_lt; lia).
        simpl. apply IH. lia.
      * destruct (cu_eqb d 13).
        -- destruct r as [|e r'].
           ++ f_equal. apply IH. simpl. lia.
           ++ destruct (cu_eqb e 10).
              ** cbn [after before length].
                 replace (length r' <? S (S (S (length r')))) with true
                   by (symmetry; apply Nat.ltb_lt; lia).
                 simpl. apply IH. simpl in Hlen. lia.
              ** f_equal. apply IH. simpl in *. lia.
        -- f_equal. apply IH. simpl. lia.
    + f_equal. apply IH. simpl. lia.
Qed.

Lemma qpBytes_decodes s : qpDecodes s (qpBytes s).
Proof.
  assert (H : forall n s, length s <= n -> qpDecodes s (qpBytes s)).
  { clear s. induction n as [|n IH]; intros s Hn.
    - destruct s; [constructor | simpl in Hn; lia].
    - destruct s as [|c r]; [constructor|]. simpl in Hn.
      cbn [qpBytes]. destruct (N.eqb_spec c 61) as [->|Hc].
      + cbn [cu_eqb N.eqb Pos.eqb].
        destruct r as [|h1 [|h2 r']];
          try (apply qp_literal; [reflexivity | apply IH; simpl in *; lia]).
        destruct (isHex h1 && isHex h2) eqn:Hh.
        * apply andb_prop in Hh as [H1 H2].
          apply qp_escape; auto. apply IH. simpl in *. lia.
        * apply qp_literal; [simpl; now rewrite Hh | apply IH; simpl in *; lia].
      + unfold cu_eqb. rewrite (proj2 (N.eqb_neq c 61) Hc).
        apply qp_literal; [unfold cu_eqb; now rewrite (proj2 (N.eqb_neq c 61) Hc)|].
        apply IH. lia. }
  apply (H (length s)). lia.
Qed.

Variable rt : Runtime.

Lemma decodeQuotedPrintable_result input :
  decodeQuotedPrintable rt input
  = Ret (match textDecode rt (str "utf-8")
                 (toUint8Array (qpBytes (removeSoftBreaks input))) with
         | Some t => t
         | None => removeSoftBreaks input
         end).
Proof.
  unfold decodeQuotedPrintable, replace_with, replace_all.
  rewrite replace_softBreaks by lia.
  now destruct (textDecode rt _ _).
Qed.

End QuotedPrintableFacts.

(** ** Termination of the entity resolver *)

Section SizeFacts.









End SizeFacts.

Section Totality.

Variable rt : Runtime.








End Totality.

(** ** The merge of the parts *)

Section MergeFacts.

Variable part : jsstring -> outcome (option parsed).








End MergeFacts.

Section EntityFacts.

Variable rt : Runtime.

Lemma finishEntity_text body acc : text (finishEntity rt body acc) = text acc.
Proof. reflexivity. Qed.



End EntityFacts.

(** * The properties of the specification *)

Import Reference.

Section Claims.

Variable rt : Runtime.


(** C3 (amended).  The extractor searches the subject on its own and first:
    a code found in the subject is the result whatever the body holds.  The
    body it searches is the plain text, a single space, then the stripped
    HTML, trimmed: the plain text comes before the stripped HTML. *)
Theorem corpus_text_then_html :
  (forall c,
      sourcesBody rt c
      = trim (stringOr (ctx_text c) ++ str " " ++ stripHtml rt (ctx_html c)))
  /\ (forall c,
        extractVerificationCode rt (Some c)
        = cascade rt (stringOr (subject c)) (sourcesBody rt c))
  /\ (forall subj body n,
        firstCode subjectOrdereds subj (fun _ => true) = Some n ->
        cascade rt subj body = n).
Proof.
  split; [reflexivity|]. split; [reflexivity|].
  intros subj body n H. unfold cascade. now rewrite H.
Qed.


(** C6 (amended).  The value kept under a name is that of its last header
    line.  Let [l] be a header line [name: value], after the lines
    [earlier], whatever they are; let the lines [follow] up to the next
    header line be continuation lines or lines that the parser ignores, and
    let no header line of [others] have the same lower-cased name.  Then
    the parser leaves under the lower-cased name the value of [l] with the
    trimmed continuation lines of [follow] appended, each after a space:
    the earlier lines of the same name are replaced, and the later lines of
    other names change nothing. *)
Theorem parseHeaders_later_replaces
    (raw : jsstring) (earlier : list jsstring) (l : jsstring)
    (follow others : list jsstring) (name value : jsstring) :
  splitLines raw = earlier ++ l :: follow ++ others ->
  startsWithSpace l = false ->
  headerLine l = Some (name, value) ->
  truthy (toLowerCase rt name) = true ->
  toLowerCase rt name <> protoKey ->
  forallb (noHeader rt) follow = true ->
  startsWithHeader rt others = true ->
  otherHeaders rt (toLowerCase rt name) others = true ->
  getHeader (toLowerCase rt name) (parseHeaders rt raw)
  = value ++ concat (map (fun c => str " " ++ trim c)
                         (List.filter startsWithSpace follow)).
Proof.
  intros Hl Hs Hh Hk Hp Hf Hst Ho. unfold parseHeaders.
  rewrite Hl, fold_left_app.
  destruct (fold_left (parseHeaders_step rt) earlier (∅, [])) as [h lastKey].
  cbn [fold_left]. rewrite fold_left_app.
  assert (E1 : parseHeaders_step rt (h, lastKey) l
               = (setHeader (toLowerCase rt name) value h, toLowerCase rt name)).
  { unfold headerLine in Hh.
    destruct (Re.search re_headerLine l) as [[m0 m]|] eqn:Hm; [|discriminate].
    injection Hh as <- <-. now apply (parseHeaders_step_header rt h lastKey l m0 m). }
  rewrite E1.
  destruct (parseHeaders_follow rt follow (setHeader (toLowerCase rt name) value h) _ Hf Hk Hp)
    as (h' & E2 & Hv).
  rewrite E2. rewrite getHeader_setHeader in Hv by exact Hp.
  destruct others as [|o others]; [exact Hv|].
  cbn [startsWithHeader] in Hst. unfold otherHeaders in Ho. cbn [forallb] in Ho.
  apply andb_prop in Ho as [Ho Hos].
  cbn [fold_left]. rewrite (parseHeaders_step_key rt _ _ _ Hk).
  unfold noHeader in Hst. unfold headerKey in Ho, Hst.
  destruct (startsWithSpace o); [discriminate Hst|].
  destruct (headerLine o) as [[n v]|]; [|discriminate Hst].
  apply andb_prop in Ho as [Hn Ht]. apply negb_true_iff in Hn.
  unfold str_eqb in Hn. apply bool_decide_eq_false in Hn.
  rewrite (parseHeaders_others rt _ _ _ _ Hos Ht Hn).
  rewrite getHeader_setHeader_ne by congruence. exact Hv.
Qed.

(** C7 (amended).  The sniffer looks in the lower-cased copy of the text
    for the first [<html], or only when there is none for the first
    [<!doctype html], and for the last [</html>].  When it finds both it
    returns the code units of the original text from the index of the
    opening marker to the end of the closing one, which are none when the
    closing marker comes first; when one of them is missing it returns the
    empty string. *)
Theorem guessHtmlFromRaw_spec (raw : jsstring) :
  let lower := toLowerCase rt raw in
  (forall hs he,
      openingAt lower hs = true -> lastAt (str "</html>") lower he = true ->
      guessHtmlFromRaw rt raw = slice raw hs (he + 7)
      /\ (he < hs -> guessHtmlFromRaw rt raw = []))
  /\ (absent (str "<html") lower && absent (str "<!doctype html") lower
      || absent (str "</html>") lower = true ->
      guessHtmlFromRaw rt raw = []).
Proof.
  intros lower. split.
  - intros hs he Ho Hc. split.
    + now apply guessHtmlFromRaw_found.
    + now apply guessHtmlFromRaw_crossed with (hs := hs) (he := he).
  - apply guessHtmlFromRaw_missing.
Qed.

(** C8.  [extractVerificationCode] returns the empty string or four to
    eight ASCII digits. *)
Theorem extractVerificationCode_digits (arg : option ctx) :
  extractVerificationCode rt arg = []
  \/ (forallb isDigit (extractVerificationCode rt arg) = true
      /\ 4 <= length (extractVerificationCode rt arg) <= 8).
Proof.
  destruct (extractVerificationCode_cases rt arg) as [H|[x H]]; [now left|].
  rewrite H. apply normalizeDigits_spec.
Qed.

End Claims.

(** ** Witnesses and counterexamples *)


(** C3 as stated fails at [Examples.twoSources]: the body searched is the
    text followed by the stripped HTML, not the reverse, and the two
    orders give different codes. *)
Lemma corpus_order_counterexample :
  sourcesBody rt0 Examples.twoSources = str "1111 code 2222"
  /\ trim (stripHtml rt0 (ctx_html Examples.twoSources) ++ str " "
           ++ stringOr (ctx_text Examples.twoSources)) = str "2222 1111 code"
  /\ extractVerificationCode rt0 (Some Examples.twoSources) = str "2222"
  /\ cascade rt0 [] (str "2222 1111 code") = str "22221111".
Proof. repeat split; vm_compute; reflexivity. Qed.



(** C5 fails in the code at [Examples.farCode]: the loose pattern finds the
    code, the filter flags it although the word after it is in small
    letters, and the extractor returns nothing. *)
Lemma address_filter_ignores_case :
  firstCode bodyOrdereds Examples.farCode (fun _ => true) = None
  /\ firstCode looseBodyOrdereds Examples.farCode (fun _ => true) = Some (str "123456")
  /\ isLikelyNonVerificationCode rt0 (str "123456") Examples.farCode = true
  /\ isLikelyNonVerificationCode rt0 (str "123456") (str "123456 is") = true
  /\ extractVerificationCode rt0 (Some (Ctx None (Some Examples.farCode) None)) = [].
Proof. repeat split; vm_compute; reflexivity. Qed.

(** C6 as stated fails at a block with the lines [A: 1] and [a: 2]: the
    second value is kept, not the first. *)
Lemma duplicate_header_counterexample :
  getHeader (str "a") (parseHeaders rt0 (str "A: 1" ++ [10%N] ++ str "a: 2"))
  = str "2"
  /\ getHeader (str "a") (parseHeaders rt0 (str "A: 1" ++ [10%N] ++ str "a: 2"))
     <> str "1".
Proof. split; vm_compute; [reflexivity | discriminate]. Qed.

(** C6 (amended) at the lines [A: 1], [a: 2], [B: 3] and at
    [Examples.interleaved]. *)
Lemma parseHeaders_later_replaces_witness :
  getHeader (str "a")
    (parseHeaders rt0 (str "A: 1" ++ [10%N] ++ str "a: 2" ++ [10%N] ++ str "B: 3"))
  = str "2"
  /\ getHeader (str "a") (parseHeaders rt0 Examples.interleaved) = str "2 cont more".
Proof.
  split.
  - refine (eq_trans (eq_trans _
              (parseHeaders_later_replaces rt0
                 (str "A: 1" ++ [10%N] ++ str "a: 2" ++ [10%N] ++ str "B: 3")
                 [str "A: 1"] (str "a: 2") [] [str "B: 3"] (str "a") (str "2")
                 _ _ _ _ _ _ _ _)) _);
      try (vm_compute; reflexivity).
    vm_compute. discriminate.
  - refine (eq_trans (eq_trans _
              (parseHeaders_later_replaces rt0 Examples.interleaved
                 [str "A: 1"] (str "a: 2")
                 [str " cont"; str "noise"; 9%N :: str "more"]
                 [str "B: 3"; str " x"; str "C: 4"] (str "a") (str "2")
                 _ _ _ _ _ _ _ _)) _);
      try (vm_compute; reflexivity).
    vm_compute. discriminate.
Defined.

(** C7 as stated fails at [Examples.withDoctype]: the doctype comes first
    in the text, and the result starts at the root element. *)
Lemma sniffer_prefers_html_counterexample :
  firstAt (str "<!doctype html") (toLowerCase rt0 Examples.withDoctype) 0 = true
  /\ firstAt (str "<html") (toLowerCase rt0 Examples.withDoctype) 15 = true
  /\ lastAt (str "</html>") (toLowerCase rt0 Examples.withDoctype) 35 = true
  /\ guessHtmlFromRaw rt0 Examples.withDoctype = slice Examples.withDoctype 15 42
  /\ slice Examples.withDoctype 15 42 <> slice Examples.withDoctype 0 42.
Proof. repeat split; try (vm_compute; reflexivity). vm_compute. discriminate. Qed.

(** C7 (amended) at [Examples.shouted]: the case of the original is kept. *)
Lemma guessHtmlFromRaw_spec_witness :
  guessHtmlFromRaw rt0 Examples.shouted = str "<HTML><P>Hi</P></HTML>".
Proof.
  refine (eq_trans
            (proj1 (proj1 (guessHtmlFromRaw_spec rt0 Examples.shouted) 2 17 _ _)) _);
    vm_compute; reflexivity.
Defined.

(** * Further properties of the code *)

Import Re.
Import Stored.

(** ** The escapers *)

Module EscapeFacts.
Import Re.

Lemma consumed_one bef c aft cs cs' :
  consumed (MState bef (c :: aft) cs) (MState (c :: bef) aft cs') = [c].
Proof.
  unfold consumed. cbn [before length].
  replace (S (length bef) - length bef) with 1 by lia. reflexivity.
Qed.

(** Replacing every match of a one-character class rewrites the code units
    one by one. *)
Lemma replace_chr p f (g : cu -> jsstring) fuel bef aft :
  (forall bef c aft, f (MState bef (c :: aft) []) (MState (c :: bef) aft []) = g c) ->
  length aft < fuel ->
  replace_from fuel (Chr p) f bef aft
  = flat_map (fun c => if p c then g c else [c]) aft.
Proof.
  intros Hf. revert bef aft.
  induction fuel as [|fuel IH]; intros bef aft Hlen; [lia|].
  destruct aft as [|c aft]; [reflexivity|].
  cbn [replace_from flat_map]. rewrite run_chr_cons.
  simpl in Hlen. destruct (p c).
  - cbn [after before length].
    replace (length aft <? S (length aft)) with true
      by (symmetry; apply Nat.ltb_lt; lia).
    rewrite Hf, IH by lia. reflexivity.
  - rewrite IH by lia. reflexivity.
Qed.

Lemma replaceChar_flat_map c by_ s :
  Ui.replaceChar c by_ s = flat_map (fun x => if cu_eqb c x then by_ else [x]) s.
Proof.
  unfold Ui.replaceChar, replace_with, replace_all, chr.
  apply (replace_chr _ _ (fun _ => by_)); [reflexivity | lia].
Qed.

Lemma replaceChar_app c by_ a b :
  Ui.replaceChar c by_ (a ++ b) = Ui.replaceChar c by_ a ++ Ui.replaceChar c by_ b.
Proof. rewrite !replaceChar_flat_map. apply flat_map_app. Qed.

(** A function of strings that goes through concatenation works on the
    code units one by one. *)
Lemma pointwise_flat_map (F : jsstring -> jsstring) :
  F [] = [] -> (forall a b, F (a ++ b) = F a ++ F b) ->
  forall s, F s = flat_map (fun c => F [c]) s.
Proof.
  intros H0 Happ s. induction s as [|c s IH]; [exact H0|].
  change (c :: s) with ([c] ++ s). rewrite Happ, IH. reflexivity.
Qed.

Ltac bits n p :=
  lazymatch n with
  | 0 => idtac
  | S ?k => first [reflexivity | congruence | destruct p as [p|p|]; bits k p]
  end.

Lemma escapeHtml_units s : escapeHtml s = flat_map escapeUnit s.
Proof.
  unfold escapeHtml, replace_all, re_htmlSpecial.
  rewrite (replace_chr _ _ escapeUnit); [|intros bef c aft|lia].
  - apply flat_map_eq. intros c _. unfold escapeUnit.
    destruct (cu_eqb c 38); [reflexivity|].
    destruct (cu_eqb c 60); [reflexivity|].
    destruct (cu_eqb c 62); [reflexivity|].
    destruct (cu_eqb c 34); [reflexivity|].
    destruct (cu_eqb c 39); reflexivity.
  - rewrite consumed_one. destruct c as [|p]; [reflexivity|]. bits 8 p.
Qed.

Ltac chain_unit c :=
  unfold escapeUnit, cu_eqb;
  destruct (N.eqb_spec c 38) as [->|H1]; [reflexivity|];
  destruct (N.eqb_spec c 60) as [->|H2]; [reflexivity|];
  destruct (N.eqb_spec c 62) as [->|H3]; [reflexivity|];
  destruct (N.eqb_spec c 34) as [->|H4]; [reflexivity|];
  destruct (N.eqb_spec c 39) as [->|H5]; [reflexivity|];
  rewrite (proj2 (N.eqb_neq 38 c)) by congruence; cbn [flat_map app];
  repeat first
    [ rewrite (proj2 (N.eqb_neq 60 c)) by congruence
    | rewrite (proj2 (N.eqb_neq 62 c)) by congruence
    | rewrite (proj2 (N.eqb_neq 34 c)) by congruence
    | rewrite (proj2 (N.eqb_neq 39 c)) by congruence
    | progress cbn [flat_map app] ];
  reflexivity.

Lemma ui_chain_unit (c : cu) : Ui.escapeHtml (Some [c]) = escapeUnit c.
Proof.
  unfold Ui.escapeHtml. rewrite !replaceChar_flat_map. cbn [flat_map].
  rewrite !app_nil_r. chain_unit c.
Qed.

Lemma attr_chain_unit (c : cu) : Ui.escapeAttr (Some [c]) = escapeUnit c.
Proof.
  unfold Ui.escapeAttr. rewrite !replaceChar_flat_map. cbn [flat_map].
  rewrite !app_nil_r. chain_unit c.
Qed.

Lemma escapeUnit_markup_free c : forallb (fun x => negb (isMarkup x)) (escapeUnit c) = true.
Proof.
  unfold escapeUnit, cu_eqb.
  destruct (N.eqb_spec c 38); [reflexivity|].
  destruct (N.eqb_spec c 60); [reflexivity|].
  destruct (N.eqb_spec c 62); [reflexivity|].
  destruct (N.eqb_spec c 34); [reflexivity|].
  destruct (N.eqb_spec c 39); [reflexivity|].
  cbn [forallb]. unfold isMarkup, cu_eqb.
  rewrite (proj2 (N.eqb_neq c 60)), (proj2 (N.eqb_neq c 62)),
    (proj2 (N.eqb_neq c 34)), (proj2 (N.eqb_neq c 39)) by assumption.
  reflexivity.
Qed.

Lemma forallb_flat_map {A B} (q : B -> bool) (f : A -> list B) (l : list A) :
  (forall x, forallb q (f x) = true) -> forallb q (flat_map f l) = true.
Proof.
  intros H. induction l as [|x l IH]; [reflexivity|].
  simpl. now rewrite forallb_app, H, IH.
Qed.

End EscapeFacts.

Import EscapeFacts.

(** X1.  The HTML that [textToHtml] makes of a text is the wrapper around
    the escaped text, and the escaped text has no character that opens or
    closes a tag or an attribute value: each code unit of the text is
    replaced on its own, the five special ones by their entities. *)
Theorem textToHtml_markup_free (t : jsstring) :
  escapeHtml t = flat_map escapeUnit t
  /\ forallb (fun c => negb (isMarkup c)) (escapeHtml t) = true
  /\ textToHtml t
     = str "<div style=" ++ [34%N] ++ str "white-space:pre-wrap" ++ [34%N] ++ str ">"
       ++ escapeHtml t ++ str "</div>".
Proof.
  split; [apply EscapeFacts.escapeHtml_units|]. split; [|reflexivity].
  rewrite EscapeFacts.escapeHtml_units.
  apply EscapeFacts.forallb_flat_map, EscapeFacts.escapeUnit_markup_free.
Qed.

(** X2.  The two escapers of the user interface and the one of the parser
    are the same function of a string: the order in which [escapeHtml] and
    [escapeAttr] replace the five characters does not matter, since both
    replace the ampersand first. *)
Theorem ui_escapers_agree (s : jsstring) :
  Ui.escapeHtml (Some s) = escapeHtml s /\ Ui.escapeAttr (Some s) = escapeHtml s.
Proof.
  rewrite EscapeFacts.escapeHtml_units. split.
  - rewrite (EscapeFacts.pointwise_flat_map (fun s => Ui.escapeHtml (Some s))).
    + apply ReFacts.flat_map_eq. intros c _. apply EscapeFacts.ui_chain_unit.
    + reflexivity.
    + intros a b. unfold Ui.escapeHtml. now rewrite !EscapeFacts.replaceChar_app.
  - rewrite (EscapeFacts.pointwise_flat_map (fun s => Ui.escapeAttr (Some s))).
    + apply ReFacts.flat_map_eq. intros c _. apply EscapeFacts.attr_chain_unit.
    + reflexivity.
    + intros a b. unfold Ui.escapeAttr. now rewrite !EscapeFacts.replaceChar_app.
Qed.

(** ** Digits, white space and years *)

Module TextFacts.
Import Re.

Lemma filter_bool (p : cu -> bool) (s : jsstring) :
  filter (fun c => p c) s = List.filter p s.
Proof.
  induction s as [|c s IH]; [reflexivity|].
  cbn [List.filter]. destruct (p c) eqn:Hc.
  - rewrite filter_cons_True by (now rewrite Hc). now rewrite IH.
  - rewrite filter_cons_False by (now rewrite Hc). exact IH.
Qed.

Lemma normalizeDigits_filter s :
  normalizeDigits s
  = if (4 <=? length (List.filter isDigit s)) && (length (List.filter isDigit s) <=? 8)
    then List.filter isDigit s else [].
Proof.
  unfold normalizeDigits. rewrite replace_with_plus_delete.
  rewrite (filter_bool (fun c => negb (negb (isDigit c)))).
  rewrite (List.filter_ext (fun c => negb (negb (isDigit c))) isDigit)
    by (intros c; apply negb_involutive).
  reflexivity.
Qed.

Lemma filter_idem (p : cu -> bool) s : List.filter p (List.filter p s) = List.filter p s.
Proof.
  induction s as [|c s IH]; [reflexivity|]. simpl.
  destruct (p c) eqn:Hc; [simpl; now rewrite Hc, IH | exact IH].
Qed.

(** The head of what a replacement of white-space runs leaves. *)
Lemma squeeze_head fuel bef aft :
  length aft < fuel ->
  headIs isSpace aft = false ->
  headIs isSpace (replace_from fuel (plus isSpace) (fun _ _ => [32%N]) bef aft) = false.
Proof.
  intros Hlen Hh. destruct fuel as [|fuel]; [lia|].
  cbn [replace_from]. pose proof (run_plus_first isSpace bef aft []) as H.
  destruct aft as [|c aft]; [now rewrite H|].
  simpl in Hh. rewrite Hh in H. rewrite H. simpl. exact Hh.
Qed.

Lemma squeeze_normalised fuel bef aft :
  length aft < fuel ->
  spacesNormalised (replace_from fuel (plus isSpace) (fun _ _ => [32%N]) bef aft) = true.
Proof.
  revert bef aft. induction fuel as [|fuel IH]; intros bef aft Hlen; [lia|].
  cbn [replace_from]. pose proof (run_plus_first isSpace bef aft []) as H.
  destruct aft as [|c aft]; [now rewrite H|].
  destruct (isSpace c) eqn:Hc.
  - destruct H as (a1 & a2 & tl & E & Hne & Hp & Hn & ->).
    cbn [after before]. rewrite E in *.
    assert (Hl : length a2 < length (a1 ++ a2)).
    { rewrite length_app. destruct a1; [congruence | simpl; lia]. }
    apply Nat.ltb_lt in Hl as Hl'. rewrite Hl'.
    cbn [app spacesNormalised]. change (isSpace 32) with true.
    change (cu_eqb 32 32) with true. cbn [andb].
    rewrite IH by lia. rewrite andb_true_r.
    rewrite squeeze_head; [reflexivity | lia |].
    destruct a2 as [|d a2]; [reflexivity | exact Hn].
  - rewrite H. cbn [spacesNormalised]. rewrite Hc. simpl in Hlen.
    apply IH. lia.
Qed.

Lemma spacesNormalised_app a b :
  spacesNormalised (a ++ b) = true -> spacesNormalised a = true /\ spacesNormalised b = true.
Proof.
  induction a as [|c a IH]; [now split|]. cbn [app spacesNormalised].
  intros H. apply andb_prop in H as [Hc H]. destruct (IH H) as [Ha Hb].
  split; [|exact Hb]. rewrite Ha, andb_true_r.
  destruct (isSpace c); [|reflexivity].
  apply andb_prop in Hc as [H32 Hh]. rewrite H32. cbn [andb].
  destruct a as [|d a]; [reflexivity | exact Hh].
Qed.

Lemma trimStart_suffix s : exists w, s = w ++ trimStart s.
Proof.
  induction s as [|c s [w IH]]; [now exists []|]. simpl.
  destruct (isSpace c); [exists (c :: w); simpl; now f_equal | now exists []].
Qed.

Lemma trimStart_head s : headIs isSpace (trimStart s) = false.
Proof.
  induction s as [|c s IH]; [reflexivity|]. simpl.
  destruct (isSpace c) eqn:Hc; [exact IH | simpl; exact Hc].
Qed.

Lemma trimEnd_prefix s : exists w, s = trimEnd s ++ w.
Proof.
  unfold trimEnd. destruct (trimStart_suffix (rev s)) as [w Hw].
  exists (rev w). rewrite <- rev_app_distr, <- Hw. now rewrite rev_involutive.
Qed.

Lemma trimEnd_last s : headIs isSpace (rev (trimEnd s)) = false.
Proof. unfold trimEnd. rewrite rev_involutive. apply trimStart_head. Qed.

Lemma trimEnd_head s : headIs isSpace s = false -> headIs isSpace (trimEnd s) = false.
Proof.
  intros H. destruct (trimEnd_prefix s) as [w Hw].
  destruct (trimEnd s) as [|c t]; [reflexivity|].
  rewrite Hw in H. exact H.
Qed.

Lemma trim_normalised s :
  spacesNormalised s = true ->
  spacesNormalised (trim s) = true
  /\ headIs isSpace (trim s) = false
  /\ headIs isSpace (rev (trim s)) = false.
Proof.
  intros H. unfold trim. split; [|split].
  - destruct (trimStart_suffix s) as [w Hw]. rewrite Hw in H.
    apply spacesNormalised_app in H as [_ H].
    destruct (trimEnd_prefix (trimStart s)) as [w' Hw']. rewrite Hw' in H.
    now apply spacesNormalised_app in H as [H _].
  - apply trimEnd_head, trimStart_head.
  - apply trimEnd_last.
Qed.

Lemma firstCode_ok rules source ok n :
  firstCode rules source ok = Some n -> ok n = true.
Proof.
  induction rules as [|r rules IH]; simpl; [discriminate|].
  destruct (Re.search r source) as [[st m]|]; [|exact IH].
  destruct (truthy (Re.capture 1 m)); [|exact IH].
  destruct (truthy _ && ok _) eqn:Hb; [|exact IH].
  intros [= <-]. now apply andb_prop in Hb as [_ Hb].
Qed.

Lemma parseInt10_digits n :
  headIs isDigit n = true -> parseInt10 n = Some (digitsValue 0 n).
Proof.
  destruct n as [|c n]; [discriminate|]. simpl. intros Hc.
  unfold parseInt10.
  assert (Hs : isSpace c = false).
  { unfold isDigit, isSpace, in_range, cu_eqb in *.
    apply andb_prop in Hc as [H1 H2]. apply N.leb_le in H1, H2.
    repeat match goal with
    | |- context [(?a <=? ?b)%N] => destruct (N.leb_spec a b); try lia
    | |- context [(?a =? ?b)%N] => destruct (N.eqb_spec a b); try lia
    end; reflexivity. }
  cbn [trimStart]. rewrite Hs.
  assert (H45 : c <> 45%N /\ c <> 43%N).
  { unfold isDigit, in_range in Hc. apply andb_prop in Hc as [H1 H2].
    apply N.leb_le in H1, H2. lia. }
  destruct H45 as [H45 H43].
  destruct c as [|p]; [discriminate Hc|].
  do 7 (try (destruct p as [p|p|]; try discriminate Hc; try congruence));
    simpl; try rewrite Hc; try reflexivity.
Qed.

End TextFacts.

Section TextProperties.

Variable rt : Runtime.

(** X3.  [normalizeDigits] looks at the digits of its argument only: it
    returns them when they number four to eight and the empty string
    otherwise, whatever separates them, and normalising twice is
    normalising once. *)
Theorem normalizeDigits_digits_only (s : jsstring) :
  normalizeDigits s
  = (if (4 <=? length (List.filter isDigit s))
        && (length (List.filter isDigit s) <=? 8)
     then List.filter isDigit s else [])
  /\ normalizeDigits (normalizeDigits s) = normalizeDigits s.
Proof.
  split; [apply TextFacts.normalizeDigits_filter|].
  rewrite (TextFacts.normalizeDigits_filter s).
  destruct ((4 <=? _) && _) eqn:Hb.
  - rewrite TextFacts.normalizeDigits_filter, TextFacts.filter_idem. now rewrite Hb.
  - reflexivity.
Qed.

(** X4.  What [stripHtml] returns has its white space normalised: it
    neither starts nor ends with white space, every white-space character
    in it is a single space, and this also holds for white space that
    character references decode to. *)
Theorem stripHtml_normalised (h : option jsstring) :
  spacesNormalised (stripHtml rt h) = true
  /\ headIs isSpace (stripHtml rt h) = false
  /\ headIs isSpace (rev (stripHtml rt h)) = false.
Proof.
  unfold stripHtml. apply TextFacts.trim_normalised.
  unfold Re.replace_with at 1. unfold Re.replace_all.
  apply TextFacts.squeeze_normalised. lia.
Qed.

(** X5.  The loose patterns never yield a year: when the extractor returns
    four digits that read as a year from 2000 to 2099, the code was found
    by a pattern of the subject or by a tight pattern of the body. *)
Theorem year_only_from_tight_match (arg : option ctx) :
  isYear20xx (extractVerificationCode rt arg) = true ->
  firstCode subjectOrdereds (stringOr (subject (default (Ctx None None None) arg)))
            (fun _ => true)
  = Some (extractVerificationCode rt arg)
  \/ firstCode bodyOrdereds (sourcesBody rt (default (Ctx None None None) arg))
               (fun _ => true)
     = Some (extractVerificationCode rt arg).
Proof.
  unfold extractVerificationCode, cascade.
  set (c := default (Ctx None None None) arg).
  destruct (firstCode subjectOrdereds _ _) as [n1|] eqn:E1; [now left|].
  destruct (firstCode bodyOrdereds _ _) as [n2|] eqn:E2; [now right|].
  intros Hy. exfalso.
  destruct (firstCode looseBodyOrdereds _ _) as [n3|] eqn:E3; [|discriminate Hy].
  apply TextFacts.firstCode_ok in E3. apply negb_true_iff in E3.
  unfold isYear20xx in Hy.
  apply andb_prop in Hy as [Hy Hhi]. apply andb_prop in Hy as [Hy Hlo].
  apply andb_prop in Hy as [Hlen Hd].
  unfold isLikelyNonVerificationCode in E3.
  destruct n3 as [|d n3]; [discriminate Hlen|]. cbn [truthy negb] in E3.
  rewrite Hlen in E3.
  rewrite TextFacts.parseInt10_digits in E3
    by (simpl in Hd; now apply andb_prop in Hd as [Hd _]).
  rewrite Hlo, Hhi in E3. discriminate E3.
Qed.

End TextProperties.

(** ** The forwarding rules *)

Module ForwardFacts.
Import Forward.

Section WithRuntime.

Variable rt : Runtime.

Lemma firstPrefixRule_find lp rules :
  firstPrefixRule lp rules = option_map email (List.find (applies lp) rules).
Proof.
  induction rules as [|r rules IH]; [reflexivity|]. simpl. unfold applies at 1.
  destruct (str_eqb (prefix r) wildcard); [exact IH|]. simpl.
  destruct (startsWith (prefix r) lp); [reflexivity | exact IH].
Qed.

Lemma find_insert_irrelevant {A} (f : A -> bool) (l1 l2 : list A) (w : A) :
  f w = false -> List.find f (l1 ++ w :: l2) = List.find f (l1 ++ l2).
Proof.
  intros Hw. induction l1 as [|x l1 IH]; simpl; [now rewrite Hw|].
  destruct (f x); [reflexivity | exact IH].
Qed.

Lemma find_some_exists {A} (f : A -> bool) (l : list A) (x : A) :
  In x l -> f x = true -> exists y, List.find f l = Some y.
Proof.
  intros Hin Hx. destruct (List.find f l) eqn:E; [eauto|].
  now rewrite (List.find_none f l E x Hin) in Hx.
Qed.

Lemma trim_idem s : trim (trim s) = trim s.
Proof.
  pose proof (TextFacts.trimEnd_last (trimStart s)) as Hl.
  pose proof (TextFacts.trimEnd_head (trimStart s) (TextFacts.trimStart_head s)) as Hh.
  fold (trim s) in Hl, Hh. unfold trim at 1.
  assert (E1 : trimStart (trim s) = trim s).
  { destruct (trim s) as [|c t]; [reflexivity|]. simpl in *. now rewrite Hh. }
  rewrite E1. unfold trimEnd.
  assert (E2 : trimStart (rev (trim s)) = rev (trim s)).
  { destruct (rev (trim s)) as [|c t]; [reflexivity|]. simpl in *. now rewrite Hl. }
  rewrite E2. apply rev_involutive.
Qed.

Lemma normalizeRules_sound items r :
  In r (normalizeRules rt items) ->
  truthy (prefix r) = true /\ truthy (email r) = true /\ trim (email r) = email r
  /\ exists it, In it items
       /\ prefix r = toLowerCase rt (stringOr (item_prefix it))
       /\ email r = trim (stringOr (item_email it)).
Proof.
  induction items as [|it items IH]; simpl; [intros []|].
  destruct (negb (truthy _) || negb (truthy _)) eqn:Hb.
  - intros H. destruct (IH H) as (H1 & H2 & H3 & it' & Hin & H4 & H5).
    repeat split; auto. exists it'. auto.
  - apply orb_false_elim in Hb as [Hp He].
    apply negb_false_iff in Hp, He.
    intros [<-|H].
    + cbn [prefix email]. repeat split; auto using trim_idem.
      exists it. auto.
    + destruct (IH H) as (H1 & H2 & H3 & it' & Hin & H4 & H5).
      repeat split; auto. exists it'. auto.
Qed.

Lemma resolve_member localPart rules e :
  resolveTargetEmail rt localPart rules = Some e ->
  exists r, In r rules /\ email r = e.
Proof.
  unfold resolveTargetEmail. rewrite firstPrefixRule_find.
  set (lp := toLowerCase rt (stringOr localPart)).
  destruct (List.find (applies lp) rules) as [r|] eqn:E1; simpl.
  - intros [= <-]. exists r. split; [|reflexivity].
    now apply List.find_some in E1 as [H _].
  - destruct (List.find (fun r => str_eqb (prefix r) wildcard) rules) as [w|] eqn:E2;
      [|discriminate].
    intros [= <-]. exists w. split; [|reflexivity].
    now apply List.find_some in E2 as [H _].
Qed.

End WithRuntime.

End ForwardFacts.

Section ForwardProperties.

Import Forward.

Variable rt : Runtime.

(** X6.  The wildcard rule is a fallback only: when some rule that is no
    wildcard has a prefix that starts the lower-cased local part, a
    wildcard rule changes nothing wherever it stands in the list, before
    that rule included. *)
Theorem wildcard_is_fallback
    (localPart : option jsstring) (rules1 rules2 : list rule) (w r : rule) :
  prefix w = wildcard ->
  In r (rules1 ++ rules2) ->
  prefix r <> wildcard ->
  startsWith (prefix r) (toLowerCase rt (stringOr localPart)) = true ->
  resolveTargetEmail rt localPart (rules1 ++ w :: rules2)
  = resolveTargetEmail rt localPart (rules1 ++ rules2)
  /\ exists r', In r' (rules1 ++ rules2) /\ prefix r' <> wildcard
       /\ resolveTargetEmail rt localPart (rules1 ++ w :: rules2) = Some (email r').
Proof.
  intros Hw Hin Hr Hs. unfold resolveTargetEmail.
  rewrite !ForwardFacts.firstPrefixRule_find.
  set (lp := toLowerCase rt (stringOr localPart)) in *.
  assert (Hfw : applies lp w = false).
  { unfold applies, str_eqb. rewrite Hw.
    now rewrite bool_decide_eq_true_2. }
  rewrite (ForwardFacts.find_insert_irrelevant _ _ _ _ Hfw).
  assert (Hfr : applies lp r = true).
  { unfold applies, str_eqb.
    rewrite bool_decide_eq_false_2 by exact Hr. now rewrite Hs. }
  destruct (ForwardFacts.find_some_exists _ _ _ Hin Hfr) as [y Hy].
  rewrite Hy. simpl. split; [reflexivity|].
  exists y. apply List.find_some in Hy as [Hy1 Hy2].
  split; [exact Hy1|]. split; [|reflexivity].
  unfold applies in Hy2. apply andb_prop in Hy2 as [Hy2 _].
  apply negb_true_iff in Hy2. unfold str_eqb in Hy2.
  now apply bool_decide_eq_false in Hy2.
Qed.

(** X7.  [normalizeRules] keeps an item exactly as the rule of its
    lower-cased prefix and its trimmed address, and only when both are
    non-empty; so an item without prefix, which would match every local
    part, gives no rule, and resolving over normalised rules yields [null]
    or a non-empty address without surrounding white space. *)
Theorem normalizeRules_resolve_nonempty
    (localPart : option jsstring) (items : list item) (e : jsstring) :
  resolveTargetEmail rt localPart (normalizeRules rt items) = Some e ->
  truthy e = true /\ trim e = e
  /\ exists it, In it items /\ e = trim (stringOr (item_email it))
       /\ truthy (toLowerCase rt (stringOr (item_prefix it))) = true.
Proof.
  intros H. apply ForwardFacts.resolve_member in H as (r & Hin & <-).
  apply ForwardFacts.normalizeRules_sound in Hin
    as (H1 & H2 & H3 & it & Hit & H4 & H5).
  repeat split; auto. exists it. repeat split; auto. now rewrite <- H4.
Qed.

End ForwardProperties.

(** ** The two splitters *)

Module SplitFacts.

Lemma indexOf_some p s i : indexOf p s = Some i -> firstAt p s i = true.
Proof.
  revert i. induction s as [|c s IH]; intros i; cbn [indexOf].
  - destruct (startsWith p []) eqn:E; [|discriminate].
    intros [= <-]. apply firstAt_spec. split; [exact E | intros j Hj; lia].
  - destruct (startsWith p (c :: s)) eqn:E.
    + intros [= <-]. apply firstAt_spec. split; [exact E | intros j Hj; lia].
    + destruct (indexOf p s) as [k|] eqn:Ek; [|discriminate].
      intros [= <-]. specialize (IH k eq_refl).
      apply firstAt_spec in IH as [Ho Hn]. apply firstAt_spec. split.
      * exact Ho.
      * intros [|j] Hj; [exact E | apply Hn; lia].
Qed.

Lemma indexOf_none p s : indexOf p s = None -> absent p s = true.
Proof.
  induction s as [|c s IH]; cbn [indexOf].
  - destruct (startsWith p []) eqn:E; [discriminate|]. intros _.
    apply absent_spec. intros [|j]; [exact E|]. now apply occursAt_beyond; simpl; lia.
  - destruct (startsWith p (c :: s)) eqn:E; [discriminate|].
    destruct (indexOf p s) as [k|] eqn:Ek; [discriminate|]. intros _.
    specialize (IH eq_refl). pose proof (proj1 (absent_spec _ _) IH) as Hn.
    apply absent_spec. intros [|j]; [exact E | apply Hn].
Qed.

Lemma split_at_occurrence p (s : jsstring) i :
  occursAt p s i = true -> s = take i s ++ p ++ drop (i + length p) s.
Proof.
  intros H. destruct (occursAt_split _ _ _ H) as [r Hr].
  rewrite <- (take_drop i s) at 1. f_equal.
  rewrite <- drop_drop, Hr. now rewrite drop_app_length.
Qed.

Section Loop.

Variable boundary : jsstring.

Let delim := str "--" ++ boundary.
Let endDelim := (str "--" ++ boundary) ++ str "--".

Lemma endDelim_assoc : endDelim = str "--" ++ boundary ++ str "--".
Proof. unfold endDelim. now rewrite <- app_assoc. Qed.

Lemma loop_content ls rest ps cur :
  forallb (isContentLine boundary) ls = true ->
  splitMultipart_loop delim endDelim (ls ++ rest) (SplitState ps cur true)
  = splitMultipart_loop delim endDelim rest (SplitState ps (cur ++ ls) true).
Proof.
  revert cur. induction ls as [|l ls IH]; intros cur H.
  - now rewrite app_nil_r.
  - simpl in H. apply andb_prop in H as [Hl H].
    unfold isContentLine, isDelimiterLine in Hl. rewrite <- endDelim_assoc in Hl.
    fold delim in Hl. apply andb_prop in Hl as [H1 H2].
    apply negb_true_iff in H1, H2.
    cbn [app splitMultipart_loop]. rewrite H1, H2. cbn [inPart parts current].
    rewrite IH by exact H. now rewrite <- app_assoc.
Qed.

Lemma loop_preamble ls rest ps cur :
  forallb (isContentLine boundary) ls = true ->
  splitMultipart_loop delim endDelim (ls ++ rest) (SplitState ps cur false)
  = splitMultipart_loop delim endDelim rest (SplitState ps cur false).
Proof.
  induction ls as [|l ls IH]; intros H; [reflexivity|].
  simpl in H. apply andb_prop in H as [Hl H].
  unfold isContentLine, isDelimiterLine in Hl. rewrite <- endDelim_assoc in Hl.
  fold delim in Hl. apply andb_prop in Hl as [H1 H2].
  apply negb_true_iff in H1, H2.
  cbn [app splitMultipart_loop]. rewrite H1, H2. cbn [inPart].
  now apply IH.
Qed.

Lemma loop_delimiter l rest st :
  isDelimiterLine delim l = true ->
  splitMultipart_loop delim endDelim (l :: rest) st
  = splitMultipart_loop delim endDelim rest (SplitState (flush st) [] true).
Proof.
  intros H. unfold isDelimiterLine in H. cbn [splitMultipart_loop]. now rewrite H.
Qed.

Lemma delim_not_end l :
  isDelimiterLine endDelim l = true -> isDelimiterLine delim l = false.
Proof.
  unfold isDelimiterLine, str_eqb. intros H.
  apply bool_decide_eq_true in H. apply bool_decide_eq_false.
  rewrite H. unfold endDelim, delim. intros E.
  apply (f_equal (@length N)) in E. rewrite !length_app in E. simpl in E. lia.
Qed.

Lemma loop_close l rest st :
  isDelimiterLine endDelim l = true ->
  splitMultipart_loop delim endDelim (l :: rest) st = flush st.
Proof.
  intros H. pose proof (delim_not_end l H) as Hd.
  unfold isDelimiterLine in H, Hd. cbn [splitMultipart_loop]. now rewrite Hd, H.
Qed.

Lemma flush_open ps cur : flush (SplitState ps cur true) = ps ++ nonEmptyPart cur.
Proof.
  unfold flush, nonEmptyPart. cbn [inPart current parts andb].
  destruct (negb _); [reflexivity | now rewrite app_nil_r].
Qed.

Lemma partsOf_cons g gs : partsOf (g :: gs) = nonEmptyPart (snd g) ++ partsOf gs.
Proof.
  unfold partsOf, nonEmptyPart. cbn [List.filter].
  destruct (negb _); reflexivity.
Qed.

(** The groups after an open part, up to the closing delimiter. *)
Lemma loop_groups_closed groups : forall close post ps cur,
  forallb (isGroup boundary) groups = true ->
  isDelimiterLine endDelim close = true ->
  splitMultipart_loop delim endDelim
    (concat (map groupLines groups) ++ close :: post) (SplitState ps cur true)
  = ps ++ nonEmptyPart cur ++ partsOf groups.
Proof.
  induction groups as [|[d c] gs IH]; intros close post ps cur Hg Hc.
  - cbn [map concat app]. rewrite (loop_close _ _ _ Hc), flush_open.
    unfold partsOf. simpl. now rewrite app_nil_r.
  - simpl in Hg. apply andb_prop in Hg as [Hg Hgs].
    unfold isGroup in Hg. cbn [fst snd] in Hg. apply andb_prop in Hg as [Hd Hcl].
    cbn [map concat]. change (groupLines (d, c)) with (d :: c).
    rewrite <- ?app_comm_cons.
    fold delim in Hd. rewrite (loop_delimiter _ _ _ Hd), flush_open.
    rewrite <- (app_assoc c), (loop_content _ _ _ _ Hcl). cbn [app].
    rewrite (IH close post _ _ Hgs Hc), partsOf_cons. cbn [snd].
    now rewrite <- !app_assoc.
Qed.

(** The groups after an open part, when the lines end without closing
    delimiter: the open part is kept only if a group follows. *)
Lemma loop_groups_open groups : forall ps cur,
  forallb (isGroup boundary) groups = true ->
  splitMultipart_loop delim endDelim
    (concat (map groupLines groups)) (SplitState ps cur true)
  = match groups with
    | [] => ps
    | _ :: _ => ps ++ nonEmptyPart cur ++ partsOf (removelast groups)
    end.
Proof.
  induction groups as [|[d c] gs IH]; intros ps cur Hg; [reflexivity|].
  simpl in Hg. apply andb_prop in Hg as [Hg Hgs].
  unfold isGroup in Hg. cbn [fst snd] in Hg. apply andb_prop in Hg as [Hd Hcl].
  cbn [map concat]. change (groupLines (d, c)) with (d :: c).
    rewrite <- ?app_comm_cons.
  fold delim in Hd. rewrite (loop_delimiter _ _ _ Hd), flush_open.
  rewrite (loop_content _ _ _ _ Hcl). cbn [app].
  rewrite (IH _ _ Hgs).
  destruct gs as [|g gs].
  - unfold partsOf. simpl. now rewrite app_nil_r.
  - change (removelast ((d, c) :: g :: gs)) with ((d, c) :: removelast (g :: gs)).
    rewrite partsOf_cons. cbn [snd]. now rewrite <- !app_assoc.
Qed.

End Loop.

End SplitFacts.

Section SplitProperties.

Variable rt : Runtime.

(** X8.  [splitHeadersAndBody] loses nothing: without a blank line the
    whole input is the body and there is no header; otherwise the input is
    the header block, the separator and the body, where the separator is
    the first CR LF CR LF if there is one, even after an LF LF, and the
    first LF LF otherwise. *)
Theorem splitHeadersAndBody_lossless (input : jsstring) :
  (absent [13; 10; 13; 10]%N input = true /\ absent [10; 10]%N input = true
   /\ splitHeadersAndBody rt input = (∅, input))
  \/ exists block sep body,
       input = block ++ sep ++ body
       /\ firstAt sep input (length block) = true
       /\ (sep = [13; 10; 13; 10]%N
           \/ sep = [10; 10]%N /\ absent [13; 10; 13; 10]%N input = true)
       /\ splitHeadersAndBody rt input = (parseHeaders rt block, body).
Proof.
  unfold splitHeadersAndBody, slice, sliceFrom.
  destruct (indexOf [13; 10; 13; 10]%N input) as [i|] eqn:E1.
  - right. apply SplitFacts.indexOf_some in E1 as F1.
    pose proof (proj1 (firstAt_spec _ _ _) F1) as [Ho _].
    pose proof (SplitFacts.split_at_occurrence _ _ _ Ho) as Hs.
    assert (Hi : i <= length input).
    { unfold occursAt in Ho. apply andb_prop in Ho as [Ho _]. now apply Nat.leb_le in Ho. }
    exists (take i input), [13; 10; 13; 10]%N, (drop (i + 4) input).
    rewrite length_take, Nat.min_l by exact Hi.
    rewrite Nat.sub_0_r, drop_0. repeat split; auto.
  - apply SplitFacts.indexOf_none in E1 as A1.
    destruct (indexOf [10; 10]%N input) as [i|] eqn:E2.
    + right. apply SplitFacts.indexOf_some in E2 as F2.
      pose proof (proj1 (firstAt_spec _ _ _) F2) as [Ho _].
      pose proof (SplitFacts.split_at_occurrence _ _ _ Ho) as Hs.
      assert (Hi : i <= length input).
      { unfold occursAt in Ho. apply andb_prop in Ho as [Ho _]. now apply Nat.leb_le in Ho. }
      exists (take i input), [10; 10]%N, (drop (i + 2) input).
      rewrite length_take, Nat.min_l by exact Hi.
      rewrite Nat.sub_0_r, drop_0. repeat split; auto.
    + left. apply SplitFacts.indexOf_none in E2. auto.
Qed.

(** X9.  On a body whose lines are a preamble, groups that each start with
    a delimiter line, and a closing delimiter line, [splitMultipart] returns
    the content of the groups that have some, joined with line feeds; the
    preamble and what follows the closing delimiter are dropped. *)
Theorem splitMultipart_groups
    (body boundary : jsstring) (pre : list jsstring)
    (groups : list (jsstring * list jsstring)) (close : jsstring)
    (post : list jsstring) :
  splitLines body = pre ++ concat (map groupLines groups) ++ close :: post ->
  forallb (isContentLine boundary) pre = true ->
  forallb (isGroup boundary) groups = true ->
  isDelimiterLine (str "--" ++ boundary ++ str "--") close = true ->
  splitMultipart body boundary = partsOf groups.
Proof.
  intros Hl Hpre Hg Hc. unfold splitMultipart. rewrite Hl.
  rewrite (SplitFacts.loop_preamble boundary _ _ _ _ Hpre).
  rewrite <- SplitFacts.endDelim_assoc in Hc.
  destruct groups as [|[d c] gs].
  - cbn [map concat app]. rewrite (SplitFacts.loop_close boundary _ _ _ Hc).
    reflexivity.
  - simpl in Hg. apply andb_prop in Hg as [Hg Hgs].
    unfold isGroup in Hg. cbn [fst snd] in Hg. apply andb_prop in Hg as [Hd Hcl].
    cbn [map concat]. change (groupLines (d, c)) with (d :: c).
    rewrite <- ?app_comm_cons.
    rewrite (SplitFacts.loop_delimiter boundary _ _ _ Hd).
    cbn [flush inPart parts andb].
    rewrite <- (app_assoc c), (SplitFacts.loop_content boundary _ _ _ _ Hcl). cbn [app].
    rewrite (SplitFacts.loop_groups_closed boundary gs close post _ _ Hgs Hc).
    now rewrite SplitFacts.partsOf_cons.
Qed.

(** X10.  A multipart that ends without closing delimiter loses its last
    part: the parts are those of all groups but the last one. *)
Theorem splitMultipart_truncated
    (body boundary : jsstring) (pre : list jsstring)
    (groups : list (jsstring * list jsstring)) :
  splitLines body = pre ++ concat (map groupLines groups) ->
  forallb (isContentLine boundary) pre = true ->
  forallb (isGroup boundary) groups = true ->
  splitMultipart body boundary = partsOf (removelast groups).
Proof.
  intros Hl Hpre Hg. unfold splitMultipart. rewrite Hl.
  rewrite (SplitFacts.loop_preamble boundary _ _ _ _ Hpre).
  destruct groups as [|[d c] gs]; [reflexivity|].
  simpl in Hg. apply andb_prop in Hg as [Hg Hgs].
  unfold isGroup in Hg. cbn [fst snd] in Hg. apply andb_prop in Hg as [Hd Hcl].
  cbn [map concat]. change (groupLines (d, c)) with (d :: c).
    rewrite <- ?app_comm_cons.
  rewrite (SplitFacts.loop_delimiter boundary _ _ _ Hd).
  cbn [flush inPart parts andb].
  rewrite (SplitFacts.loop_content boundary _ _ _ _ Hcl). cbn [app].
  rewrite (SplitFacts.loop_groups_open boundary gs _ _ Hgs).
  destruct gs as [|g gs]; [reflexivity|].
  change (removelast ((d, c) :: g :: gs)) with ((d, c) :: removelast (g :: gs)).
  now rewrite SplitFacts.partsOf_cons.
Qed.

End SplitProperties.

(** ** The decoders and the boundary *)

Module DecodeFacts.
Import Re.

Lemma stripPadding_cases s :
  exists pad, s = stripPadding s ++ pad /\ forallb (cu_eqb 61) pad = true.
Proof.
  unfold stripPadding.
  destruct (Nat.eqb _ 0); [|exists []; now rewrite app_nil_r].
  remember (rev s) as t eqn:Et.
  assert (Es : s = rev t) by (now rewrite Et, rev_involutive).
  clear Et. destruct t as [|x l]; [exists []; now rewrite app_nil_r|].
  destruct (N.eq_dec x 61%N) as [->|Hx].
  - destruct l as [|y l]; [exists [61%N]; split; [exact Es | reflexivity]|].
    destruct (N.eq_dec y 61%N) as [->|Hy].
    + exists [61; 61]%N. split; [|reflexivity]. rewrite Es. simpl.
      now rewrite <- !app_assoc.
    + exists [61%N]. split; [|reflexivity].
      replace (match y with 61%N => rev l | _ => rev (y :: l) end) with (rev (y :: l));
        [exact Es|].
      destruct y as [|p]; [reflexivity|]. bits 8 p.
  - exists []. split; [|reflexivity]. rewrite app_nil_r.
    destruct x as [|p]; [reflexivity|]. bits 8 p.
Qed.

Lemma stripPadding_keeps c s : In c s -> c <> 61%N -> In c (stripPadding s).
Proof.
  intros Hin Hc. destruct (stripPadding_cases s) as (pad & E & Hp).
  rewrite E in Hin. apply in_app_or in Hin as [H|H]; [exact H|].
  rewrite forallb_forall in Hp. specialize (Hp _ H).
  apply N.eqb_eq in Hp. congruence.
Qed.

Lemma b64vals_illegal c s : In c s -> b64val c = None -> b64vals s = None.
Proof.
  induction s as [|x s IH]; [intros []|].
  intros [->|H] Hc; cbn [b64vals].
  - now rewrite Hc.
  - rewrite (IH H Hc). now destruct (b64val x).
Qed.

Lemma asciiWhitespace_space c : isAsciiWhitespace c = true -> isSpace c = true.
Proof.
  unfold isAsciiWhitespace, isSpace, in_range, cu_eqb.
  rewrite !orb_true_iff, !andb_true_iff, !N.eqb_eq, !N.leb_le. lia.
Qed.

Lemma atob_illegal c s :
  In c s -> isSpace c = false -> c <> 61%N -> b64val c = None -> atob s = Throw.
Proof.
  intros Hin Hs H61 Hv. unfold atob.
  rewrite (TextFacts.filter_bool (fun c => negb (isAsciiWhitespace c))).
  assert (Hd : In c (stripPadding (List.filter (fun c => negb (isAsciiWhitespace c)) s))).
  { apply stripPadding_keeps; [|exact H61]. apply filter_In. split; [exact Hin|].
    destruct (isAsciiWhitespace c) eqn:E; [|reflexivity].
    apply asciiWhitespace_space in E. congruence. }
  rewrite (b64vals_illegal _ _ Hd Hv). now destruct (Nat.eqb _ 1).
Qed.

(** Quoted-printable. *)

Lemma hexDigit_cases n :
  (n < 16)%N ->
  isHex (hexDigit n) = true /\ hexval (hexDigit n) = n
  /\ hexDigit n <> 10%N /\ hexDigit n <> 13%N /\ hexDigit n <> 61%N.
Proof.
  intros H.
  assert (E : In n [0;1;2;3;4;5;6;7;8;9;10;11;12;13;14;15]%N).
  { destruct n as [|p]; [now left|].
    do 4 (destruct p as [p|p|]; try (simpl; tauto)); exfalso; lia. }
  simpl in E.
  repeat (destruct E as [<-|E]; [repeat split; (reflexivity || discriminate)|]).
  destruct E.
Qed.

Lemma removeSoftBreaks_literal c r :
  c <> 61%N -> removeSoftBreaks (c :: r) = c :: removeSoftBreaks r.
Proof.
  intros H. cbn [removeSoftBreaks].
  destruct (cu_eqb c 61) eqn:E; [apply N.eqb_eq in E; congruence | reflexivity].
Qed.

Lemma removeSoftBreaks_escape h r :
  h <> 10%N -> h <> 13%N -> h <> 61%N ->
  removeSoftBreaks (61%N :: h :: r) = 61%N :: h :: removeSoftBreaks r.
Proof.
  intros H10 H13 H61. cbn [removeSoftBreaks].
  change (cu_eqb 61 61) with true. cbv iota.
  destruct (cu_eqb h 10) eqn:E1; [apply N.eqb_eq in E1; congruence|].
  destruct (cu_eqb h 13) eqn:E2; [apply N.eqb_eq in E2; congruence|].
  destruct (cu_eqb h 61) eqn:E3; [apply N.eqb_eq in E3; congruence|].
  reflexivity.
Qed.

Lemma qpBytes_literal c r : c <> 61%N -> qpBytes (c :: r) = c :: qpBytes r.
Proof.
  intros H. cbn [qpBytes].
  destruct (cu_eqb c 61) eqn:E; [apply N.eqb_eq in E; congruence | reflexivity].
Qed.

Section Encode.

Variable literal : N -> bool.
Hypothesis literal_equals : literal 61%N = false.

Lemma literal_not_equals b : literal b = true -> b <> 61%N.
Proof. intros H ->. congruence. Qed.

Lemma qpEncode_no_soft_break bs :
  forallb (fun b => b <? 256)%N bs = true ->
  removeSoftBreaks (qpEncode literal bs) = qpEncode literal bs.
Proof.
  induction bs as [|b bs IH]; [reflexivity|]. intros H.
  simpl in H. apply andb_prop in H as [Hb H]. apply N.ltb_lt in Hb.
  unfold qpEncode. cbn [flat_map]. fold (qpEncode literal bs).
  destruct (literal b) eqn:El.
  - cbn [app]. rewrite removeSoftBreaks_literal by now apply literal_not_equals.
    now rewrite IH.
  - unfold qpEscape. cbn [app].
    destruct (hexDigit_cases (b / 16)) as (_ & _ & A1 & A2 & A3).
    { apply N.Div0.div_lt_upper_bound. lia. }
    destruct (hexDigit_cases (b mod 16)) as (_ & _ & B1 & B2 & B3).
    { apply N.mod_lt. lia. }
    rewrite removeSoftBreaks_escape by assumption.
    rewrite removeSoftBreaks_literal by assumption.
    now rewrite IH.
Qed.

Lemma qpBytes_encode bs :
  forallb (fun b => b <? 256)%N bs = true ->
  qpBytes (qpEncode literal bs) = bs.
Proof.
  induction bs as [|b bs IH]; [reflexivity|]. intros H.
  simpl in H. apply andb_prop in H as [Hb H]. apply N.ltb_lt in Hb.
  unfold qpEncode. cbn [flat_map]. fold (qpEncode literal bs).
  destruct (literal b) eqn:El.
  - cbn [app]. rewrite qpBytes_literal by now apply literal_not_equals.
    now rewrite IH.
  - unfold qpEscape. cbn [app qpBytes].
    destruct (hexDigit_cases (b / 16)) as (A0 & A1 & _).
    { apply N.Div0.div_lt_upper_bound. lia. }
    destruct (hexDigit_cases (b mod 16)) as (B0 & B1 & _).
    { apply N.mod_lt. lia. }
    change (cu_eqb 61 61) with true. cbv iota.
    rewrite A0, B0, A1, B1. cbn [andb]. rewrite (IH H). f_equal.
    pose proof (N.div_mod b 16 ltac:(lia)). lia.
Qed.

Lemma toUint8Array_bytes bs :
  forallb (fun b => b <? 256)%N bs = true -> toUint8Array bs = bs.
Proof.
  induction bs as [|b bs IH]; [reflexivity|]. intros H.
  simpl in H. apply andb_prop in H as [Hb H]. apply N.ltb_lt in Hb.
  unfold toUint8Array. cbn [map]. fold (toUint8Array bs).
  now rewrite N.mod_small, IH.
Qed.

End Encode.

(** The results of a repetition of a class: a run of the class has been
    passed. *)
Lemma rep_opt_chr_shape p g fuel : forall budget bef aft cs m,
  In m (rep_opt (run (Chr p)) g budget fuel (MState bef aft cs)) ->
  exists a1 a2, aft = a1 ++ a2 /\ forallb p a1 = true
                /\ m = MState (rev a1 ++ bef) a2 cs.
Proof.
  induction fuel as [|fuel IH]; intros budget bef aft cs m Hin.
  - destruct Hin as [<-|[]]. now exists [], aft.
  - cbn [rep_opt] in Hin.
    assert (Hst : m = MState bef aft cs ->
                  exists a1 a2, aft = a1 ++ a2 /\ forallb p a1 = true
                                /\ m = MState (rev a1 ++ bef) a2 cs).
    { intros ->. now exists [], aft. }
    assert (Hmore : forall b',
      In m (flat_map
              (fun st' => if length (after st') <? length (after (MState bef aft cs))
                          then rep_opt (run (Chr p)) g b' fuel st' else [])
              (run (Chr p) (MState bef aft cs))) ->
      exists a1 a2, aft = a1 ++ a2 /\ forallb p a1 = true
                    /\ m = MState (rev a1 ++ bef) a2 cs).
    { intros b' H. destruct aft as [|c rest]; [destruct H|].
      rewrite run_chr_cons in H. destruct (p c) eqn:Hc; [|destruct H].
      cbn [flat_map] in H. rewrite app_nil_r in H.
      destruct (_ <? _); [|destruct H].
      destruct (IH _ _ _ _ _ H) as (a1 & a2 & -> & Hp & ->).
      exists (c :: a1), a2. simpl. rewrite Hc, Hp, <- app_assoc. auto. }
    destruct budget as [[|b]|].
    + destruct Hin as [<-|[]]. now apply Hst.
    + destruct g.
      * apply in_app_or in Hin as [H|[<-|[]]]; [now apply (Hmore _ H) | now apply Hst].
      * destruct Hin as [<-|H]; [now apply Hst | now apply (Hmore _ H)].
    + destruct g.
      * apply in_app_or in Hin as [H|[<-|[]]]; [now apply (Hmore _ H) | now apply Hst].
      * destruct Hin as [<-|H]; [now apply Hst | now apply (Hmore _ H)].
Qed.

Lemma run_plus_shape p bef aft cs m :
  In m (run (plus p) (MState bef aft cs)) ->
  exists a1 a2, aft = a1 ++ a2 /\ a1 <> [] /\ forallb p a1 = true
                /\ m = MState (rev a1 ++ bef) a2 cs.
Proof.
  unfold plus. rewrite run_rep. cbn [iter_step]. intros H.
  apply in_flat_map in H as (s1 & H1 & H).
  apply in_flat_map in H1 as (s0 & H0 & H1).
  destruct H1 as [<-|[]].
  destruct aft as [|c rest]; [destruct H0|].
  rewrite run_chr_cons in H0. destruct (p c) eqn:Hc; [|destruct H0].
  destruct H0 as [<-|[]].
  apply rep_opt_chr_shape in H as (a1 & a2 & -> & Hp & ->).
  exists (c :: a1), a2. simpl. rewrite Hc, Hp, <- app_assoc.
  repeat split; auto.
Qed.

Lemma consumed_run a bef aft aft' cs cs' :
  consumed (MState bef aft cs) (MState (rev a ++ bef) aft' cs') = a.
Proof.
  unfold consumed. cbn [before]. rewrite length_app, length_rev.
  replace (length a + length bef - length bef) with (length (rev a))
    by (rewrite length_rev; lia).
  now rewrite take_app_length, rev_involutive.
Qed.

Lemma search_from_some r : forall aft bef s m,
  search_from r bef aft = Some (s, m) -> In m (run r s).
Proof.
  induction aft as [|c aft IH]; intros bef s m; cbn [search_from].
  - destruct (run r (MState bef [] [])) as [|x l] eqn:E; [discriminate|].
    intros [= <- <-]. rewrite E. now left.
  - destruct (run r (MState bef (c :: aft) [])) as [|x l] eqn:E.
    + apply IH.
    + intros [= <- <-]. rewrite E. now left.
Qed.

Lemma in_run_seq r1 r2 s m :
  In m (run (Seq r1 r2) s) -> exists s1, In s1 (run r1 s) /\ In m (run r2 s1).
Proof. rewrite run_seq. intros H. apply in_flat_map in H. exact H. Qed.

Lemma forallb_trimStart p s : forallb p s = true -> forallb p (trimStart s) = true.
Proof.
  induction s as [|c s IH]; [auto|]. intros H. cbn [trimStart].
  destruct (isSpace c); [|exact H].
  simpl in H. apply andb_prop in H as [_ H]. now apply IH.
Qed.

Lemma forallb_rev p (s : jsstring) : forallb p (rev s) = forallb p s.
Proof.
  induction s as [|c s IH]; [reflexivity|].
  simpl. rewrite forallb_app, IH. simpl. rewrite andb_true_r. apply andb_comm.
Qed.

Lemma forallb_trim p s : forallb p s = true -> forallb p (trim s) = true.
Proof.
  intros H. unfold trim, trimEnd. rewrite forallb_rev.
  apply forallb_trimStart. rewrite forallb_rev. now apply forallb_trimStart.
Qed.

Lemma getBoundary_group ct :
  getBoundary ct = [] \/
  exists b, b <> [] /\ forallb isBoundaryChar b = true /\ getBoundary ct = trim b.
Proof.
  unfold getBoundary. destruct (negb (truthy ct)); [now left|].
  destruct (search re_boundary ct) as [[s m]|] eqn:E; [|now left]. right.
  apply search_from_some in E.
  change re_boundary with
    (Seq (liti (str "boundary")) (Seq (star isSpace) (Seq (chr 61) (Seq (star isSpace)
       (Seq (opt (chr 34)) (Seq (Group 1 (plus isBoundaryChar)) (opt (chr 34)))))))) in E.
  apply in_run_seq in E as (t1 & _ & E).
  apply in_run_seq in E as (t2 & _ & E).
  apply in_run_seq in E as (t3 & _ & E).
  apply in_run_seq in E as (t4 & _ & E).
  apply in_run_seq in E as (t5 & _ & E).
  apply in_run_seq in E as (s6 & H6 & E).
  rewrite run_group in H6. apply in_map_iff in H6 as (s' & <- & H').
  destruct t5 as [bef aft cs].
  apply run_plus_shape in H' as (a1 & a2 & -> & Hne & Hp & ->).
  rewrite consumed_run in E. cbn [before after caps] in E.
  unfold chr in E. rewrite run_opt_chr in E.
  exists a1. repeat split; auto. f_equal.
  destruct a2 as [|c r].
  - destruct E as [<-|[]]. reflexivity.
  - destruct (cu_eqb 34 c); [destruct E as [<-|[<-|[]]] | destruct E as [<-|[]]];
      reflexivity.
Qed.

End DecodeFacts.

Section DecodeProperties.

Variable rt : Runtime.

(** X11.  A body marked base64 that holds a character outside the base64
    alphabet, other than white space and the equals sign, is returned as
    it is: nothing of it is decoded. *)
Theorem decodeBody_base64_illegal (body enc : jsstring) (c : cu) :
  trim enc = str "base64" ->
  In c body -> isSpace c = false -> c <> 61%N -> b64val c = None ->
  decodeBody rt body enc = Ret body.
Proof.
  intros He Hin Hs H61 Hv. unfold decodeBody.
  destruct body as [|x body']; [destruct Hin|]. cbn [truthy negb].
  rewrite He. change (str_eqb (str "base64") (str "base64")) with true. cbv iota.
  rewrite replace_with_plus_delete.
  rewrite (TextFacts.filter_bool (fun c => negb (isSpace c))).
  rewrite (DecodeFacts.atob_illegal c); auto.
  apply filter_In. split; [exact Hin | now rewrite Hs].
Qed.

(** X12.  Quoted-printable round trip: when bytes are encoded with no soft
    line break, each either literally (never the equals sign) or as an
    equals sign and two hexadecimal digits, the decoder hands exactly these
    bytes to the decoder of the runtime. *)
Theorem quotedPrintable_round_trip (literal : N -> bool) (bytes : list N) :
  literal 61%N = false ->
  forallb (fun b => b <? 256)%N bytes = true ->
  qpBytes (qpEncode literal bytes) = bytes
  /\ decodeQuotedPrintable rt (qpEncode literal bytes)
     = Ret (default (qpEncode literal bytes) (textDecode rt (str "utf-8") bytes)).
Proof.
  intros Hl Hb. split; [now apply DecodeFacts.qpBytes_encode|].
  rewrite decodeQuotedPrintable_result.
  rewrite (DecodeFacts.qpEncode_no_soft_break literal Hl bytes Hb).
  rewrite (DecodeFacts.qpBytes_encode literal Hl bytes Hb).
  rewrite (DecodeFacts.toUint8Array_bytes bytes Hb).
  now destruct (textDecode rt _ _).
Qed.

End DecodeProperties.

(** X13.  The boundary that [getBoundary] returns holds no double quote, no
    semicolon and no line end, and no white space surrounds it. *)
Theorem getBoundary_clean (contentType : jsstring) :
  forallb isBoundaryChar (getBoundary contentType) = true
  /\ trim (getBoundary contentType) = getBoundary contentType.
Proof.
  destruct (DecodeFacts.getBoundary_group contentType) as [->|(b & _ & Hb & ->)].
  - split; reflexivity.
  - split; [now apply DecodeFacts.forallb_trim | apply ForwardFacts.trim_idem].
Qed.

(** ** The stored message read back *)

Module MatchFacts.
Import Re.

(** *** First results *)

Lemma firstIs_seq r1 r2 st s1 m :
  firstIs (run r1 st) s1 -> firstIs (run r2 s1) m -> firstIs (run (Seq r1 r2) st) m.
Proof.
  intros [t1 E1] [t2 E2]. rewrite run_seq, E1. cbn [flat_map]. rewrite E2.
  now eexists.
Qed.

Lemma firstIs_one m : firstIs [m] m.
Proof. now exists []. Qed.

Lemma split_unique p (a1 a2 b1 b2 : jsstring) :
  a1 ++ a2 = b1 ++ b2 ->
  forallb p a1 = true -> forallb p b1 = true ->
  headIs p a2 = false -> headIs p b2 = false ->
  a1 = b1 /\ a2 = b2.
Proof.
  revert b1. induction a1 as [|x a1 IH]; intros [|y b1] E Ha Hb Ha2 Hb2.
  - auto.
  - simpl in E. subst a2. simpl in Ha2, Hb. apply andb_prop in Hb as [Hy _]. congruence.
  - simpl in E. subst b2. simpl in Hb2, Ha. apply andb_prop in Ha as [Hx _]. congruence.
  - simpl in E. injection E as -> E. simpl in Ha, Hb.
    apply andb_prop in Ha as [_ Ha]. apply andb_prop in Hb as [_ Hb].
    destruct (IH b1 E Ha Hb Ha2 Hb2) as [-> ->]. auto.
Qed.

Lemma headIs_match p (a2 : jsstring) :
  match a2 with c :: _ => p c = false | [] => True end -> headIs p a2 = false.
Proof. destruct a2; simpl; auto. Qed.

Lemma run_star_first p a rest bef cs :
  forallb p a = true -> headIs p rest = false ->
  firstIs (run (star p) (MState bef (a ++ rest) cs)) (MState (rev a ++ bef) rest cs).
Proof.
  intros Ha Hr. unfold star. rewrite run_rep. cbn [iter_step flat_map option_map after].
  rewrite app_nil_r.
  destruct (rep_opt_chr_greedy p (length (a ++ rest)) bef (a ++ rest) cs (le_n _))
    as (a1 & a2 & tl & E & Hp & Hn & ->).
  destruct (split_unique p a rest a1 a2 E Ha Hp Hr (headIs_match _ _ Hn)) as [<- <-].
  now exists tl.
Qed.

Lemma run_plus_longest p a rest bef cs :
  a <> [] -> forallb p a = true -> headIs p rest = false ->
  firstIs (run (plus p) (MState bef (a ++ rest) cs)) (MState (rev a ++ bef) rest cs).
Proof.
  intros Hne Ha Hr. pose proof (run_plus_first p bef (a ++ rest) cs) as H.
  destruct a as [|c a]; [congruence|]. cbn [app] in H |- *.
  simpl in Ha. apply andb_prop in Ha as [Hc Ha]. rewrite Hc in H.
  destruct H as (a1 & a2 & tl & E & _ & Hp & Hn & ->).
  destruct (split_unique p (c :: a) rest a1 a2 E) as [<- <-]; auto.
  - simpl. now rewrite Hc, Ha.
  - now apply headIs_match.
  - now exists tl.
Qed.

Lemma run_group_first n r st s' :
  firstIs (run r st) s' ->
  firstIs (run (Group n r) st)
          (MState (before s') (after s') ((n, consumed st s') :: caps s')).
Proof. intros [tl E]. rewrite run_group, E. now eexists. Qed.

Lemma run_chr_first c bef rest cs :
  firstIs (run (chr c) (MState bef (c :: rest) cs)) (MState (c :: bef) rest cs).
Proof.
  unfold chr. rewrite run_chr_cons. unfold cu_eqb. rewrite N.eqb_refl. apply firstIs_one.
Qed.

Lemma search_first r s m :
  firstIs (run r (MState [] s [])) m -> search r s = Some (MState [] s [], m).
Proof.
  intros [tl E]. unfold search. destruct s; cbn [search_from]; now rewrite E.
Qed.

Lemma search_from_skip r bef c aft :
  run r (MState bef (c :: aft) []) = [] ->
  search_from r bef (c :: aft) = search_from r (c :: bef) aft.
Proof. intros E. cbn [search_from]. now rewrite E. Qed.

Lemma search_from_first r bef aft m :
  firstIs (run r (MState bef aft [])) m ->
  search_from r bef aft = Some (MState bef aft [], m).
Proof. intros [tl E]. destruct aft; cbn [search_from]; now rewrite E. Qed.

(** Where a search can start. *)
Lemma search_from_start r : forall aft bef s m,
  search_from r bef aft = Some (s, m) ->
  In m (run r s) /\ exists k, s = MState (rev (take k aft) ++ bef) (drop k aft) [].
Proof.
  induction aft as [|c aft IH]; intros bef s m; cbn [search_from].
  - destruct (run r (MState bef [] [])) as [|x l] eqn:E; [discriminate|].
    intros [= <- <-]. rewrite E. split; [now left | now exists 0].
  - destruct (run r (MState bef (c :: aft) [])) as [|x l] eqn:E.
    + intros H. destruct (IH _ _ _ H) as [Hin [k ->]]. split; [exact Hin|].
      exists (S k). simpl. now rewrite <- app_assoc.
    + intros [= <- <-]. rewrite E. split; [now left | now exists 0].
Qed.

(** *** Header lines *)

Lemma headerLine_pattern :
  re_headerLine
  = Seq Bol (Seq (Group 1 (plus notColon))
       (Seq (chr 58) (Seq (star isSpace) (Seq (Group 2 (star dot)) Eol)))).
Proof. reflexivity. Qed.

(** A line that matches: its name is what precedes the first colon, its
    value what follows the white space after it. *)
Lemma headerLine_match name ws value :
  name <> [] -> forallb notColon name = true ->
  forallb isSpace ws = true -> headIs isSpace value = false ->
  forallb dot value = true ->
  exists m, search re_headerLine (name ++ 58%N :: ws ++ value)
            = Some (MState [] (name ++ 58%N :: ws ++ value) [], m)
            /\ capture 1 m = name /\ capture 2 m = value.
Proof.
  intros Hne Hn Hw Hv Hd.
  eexists. split.
  - apply search_first. rewrite headerLine_pattern.
    eapply firstIs_seq; [apply firstIs_one|].
    eapply firstIs_seq.
    { apply run_group_first. apply run_plus_longest; [exact Hne | exact Hn | reflexivity]. }
    cbn [before after caps]. rewrite DecodeFacts.consumed_run.
    eapply firstIs_seq; [apply run_chr_first|].
    eapply firstIs_seq; [apply run_star_first; [exact Hw | exact Hv]|].
    eapply firstIs_seq.
    { apply run_group_first. rewrite <- (app_nil_r value) at 1.
      apply run_star_first; [exact Hd | reflexivity]. }
    cbn [before after caps]. apply firstIs_one.
  - split; [reflexivity|]. cbn [capture caps find fst snd Nat.eqb].
    apply DecodeFacts.consumed_run.
Qed.

End MatchFacts.

Import MatchFacts.

Module HeaderLineFacts.
Import Re.

Lemma run_star_shape p bef aft cs m :
  In m (run (star p) (MState bef aft cs)) ->
  exists a1 a2, aft = a1 ++ a2 /\ forallb p a1 = true
                /\ m = MState (rev a1 ++ bef) a2 cs.
Proof.
  unfold star. rewrite run_rep. cbn [iter_step flat_map]. rewrite app_nil_r.
  apply DecodeFacts.rep_opt_chr_shape.
Qed.

Lemma take_nil_drop {A} k (l : list A) : take k l = [] -> drop k l = l.
Proof. destruct k, l; simpl; congruence. Qed.

(** Whatever a header line matches, its name is what precedes its first
    colon. *)
Lemma headerLine_name name rest s m :
  forallb notColon name = true ->
  search re_headerLine (name ++ 58%N :: rest) = Some (s, m) ->
  capture 1 m = name.
Proof.
  intros Hn H. apply search_from_start in H as [Hin [k ->]].
  rewrite headerLine_pattern in Hin.
  apply DecodeFacts.in_run_seq in Hin as (s1 & H1 & Hin).
  cbn [run before] in H1. rewrite app_nil_r in H1.
  destruct (rev (take k (name ++ 58%N :: rest))) as [|x l] eqn:Ek; [|destruct H1].
  destruct H1 as [<-|[]].
  assert (Et : take k (name ++ 58%N :: rest) = []).
  { rewrite <- (rev_involutive (take k _)), Ek. reflexivity. }
  rewrite (take_nil_drop _ _ Et) in Hin. clear Ek Et k.
  apply DecodeFacts.in_run_seq in Hin as (s2 & H2 & Hin).
  rewrite run_group in H2. apply in_map_iff in H2 as (s' & <- & H').
  apply DecodeFacts.run_plus_shape in H' as (a1 & a2 & E & _ & Hp & ->).
  rewrite DecodeFacts.consumed_run in Hin. cbn [before after caps] in Hin.
  apply DecodeFacts.in_run_seq in Hin as (s3 & H3 & Hin).
  destruct a2 as [|c a3]; [destruct H3|].
  unfold chr in H3. rewrite run_chr_cons in H3.
  destruct (cu_eqb 58 c) eqn:Ec; [|destruct H3]. destruct H3 as [<-|[]].
  apply N.eqb_eq in Ec. subst c.
  apply DecodeFacts.in_run_seq in Hin as (s4 & H4 & Hin).
  apply run_star_shape in H4 as (w1 & w2 & -> & _ & ->).
  apply DecodeFacts.in_run_seq in Hin as (s5 & H5 & Hin).
  rewrite run_group in H5. apply in_map_iff in H5 as (s'' & <- & H'').
  apply run_star_shape in H'' as (v1 & v2 & -> & _ & ->).
  cbn [before after caps run] in Hin.
  destruct v2; [|destruct Hin]. destruct Hin as [<-|[]].
  cbn [capture caps find fst snd Nat.eqb].
  symmetry. eapply (split_unique notColon name (58%N :: rest) a1); eauto.
Qed.

Section WithRuntime.

Variable rt : Runtime.

(** A header line leaves the other properties as they are. *)
Lemma step_other (h : gmap (list N) (list N)) (k name rest : jsstring) :
  startsWithSpace (name ++ 58%N :: rest) = false ->
  forallb notColon name = true ->
  exists h' k',
    parseHeaders_step rt (h, k) (name ++ 58%N :: rest) = (h', k')
    /\ forall key, key <> toLowerCase rt name -> getHeader key h' = getHeader key h.
Proof.
  intros Hs Hn. unfold parseHeaders_step. rewrite Hs. cbn [andb].
  destruct (search re_headerLine (name ++ 58%N :: rest)) as [[s m]|] eqn:E.
  - rewrite (headerLine_name _ _ _ _ Hn E). do 2 eexists. split; [reflexivity|].
    intros key Hk. now apply getHeader_setHeader_ne.
  - do 2 eexists. split; [reflexivity | auto].
Qed.

(** A header line that matches sets the property of its name. *)
Lemma step_match (h : gmap (list N) (list N)) (k name ws value : jsstring) :
  startsWithSpace name = false ->
  name <> [] -> forallb notColon name = true ->
  forallb isSpace ws = true -> headIs isSpace value = false ->
  forallb dot value = true ->
  parseHeaders_step rt (h, k) (name ++ 58%N :: ws ++ value)
  = (setHeader (toLowerCase rt name) value h, toLowerCase rt name).
Proof.
  intros Hs Hne Hn Hw Hv Hd.
  destruct (headerLine_match name ws value Hne Hn Hw Hv Hd) as (m & E & E1 & E2).
  assert (Hl : startsWithSpace (name ++ 58%N :: ws ++ value) = false).
  { destruct name; [congruence | exact Hs]. }
  rewrite (parseHeaders_step_header rt h k _ _ m Hl E). now rewrite E1, E2.
Qed.

End WithRuntime.

End HeaderLineFacts.

Import HeaderLineFacts.

Module LineFacts.

Import Receiver.

Lemma cu_eqb_false (c d : cu) : c <> d -> cu_eqb c d = false.
Proof. intros H. now apply N.eqb_neq. Qed.

Lemma noLF_cons c s : noLF (c :: s) = true -> c <> 10%N /\ noLF s = true.
Proof.
  unfold noLF. simpl. intros H. apply andb_prop in H as [Hc H]. split; [|exact H].
  intros ->. discriminate.
Qed.

(** *** [join] *)

Lemma join_cons sep x (l : list jsstring) :
  l <> [] -> join sep (x :: l) = x ++ sep ++ join sep l.
Proof. destruct l; [congruence | reflexivity]. Qed.

Lemma join_app sep (a b : list jsstring) :
  a <> [] -> b <> [] -> join sep (a ++ b) = join sep a ++ sep ++ join sep b.
Proof.
  intros Ha Hb. induction a as [|x a IH]; [congruence|].
  destruct a as [|y a].
  - cbn [app]. now rewrite join_cons.
  - rewrite <- app_comm_cons, join_cons by discriminate.
    rewrite IH by discriminate. rewrite (join_cons sep x (y :: a)) by discriminate.
    now rewrite <- !app_assoc.
Qed.

(** *** [splitLines] *)

Lemma splitLines_aux_crlf n : forall s cur rest, length s <= n ->
  splitLines_aux cur (s ++ lineEnd ++ rest) = splitLines_aux cur s ++ splitLines rest.
Proof.
  induction n as [|n IH]; intros s cur rest Hn.
  - destruct s; [reflexivity | simpl in Hn; lia].
  - destruct s as [|c s]; [reflexivity|]. simpl in Hn.
    cbn [app splitLines_aux].
    destruct (cu_eqb c 10); [rewrite IH by lia; reflexivity|].
    destruct (cu_eqb c 13); [|apply IH; lia].
    destruct s as [|d s].
    + reflexivity.
    + cbn [app]. simpl in Hn. destruct (cu_eqb d 10).
      * rewrite IH by lia. reflexivity.
      * change (d :: s ++ lineEnd ++ rest) with ((d :: s) ++ lineEnd ++ rest).
        apply IH. simpl. lia.
Qed.

Lemma splitLines_crlf s rest :
  splitLines (s ++ lineEnd ++ rest) = splitLines s ++ splitLines rest.
Proof. apply (splitLines_aux_crlf (length s)). lia. Qed.

Lemma splitLines_aux_line l : forall cur,
  noLF l = true -> splitLines_aux cur l = [rev cur ++ l].
Proof.
  induction l as [|c l IH]; intros cur H.
  - cbn. now rewrite app_nil_r.
  - apply noLF_cons in H as [Hc H]. cbn [splitLines_aux].
    rewrite (cu_eqb_false _ _ Hc).
    assert (E : splitLines_aux (c :: cur) l = [rev cur ++ c :: l]).
    { rewrite IH by exact H. simpl. now rewrite <- app_assoc. }
    destruct (cu_eqb c 13); [|exact E].
    destruct l as [|d l]; [exact E|].
    apply noLF_cons in H as [Hd _]. now rewrite (cu_eqb_false _ _ Hd).
Qed.

Lemma splitLines_line l : noLF l = true -> splitLines l = [l].
Proof. intros H. unfold splitLines. now rewrite splitLines_aux_line. Qed.

Lemma splitLines_join (ls : list jsstring) :
  ls <> [] -> splitLines (join lineEnd ls) = concat (map splitLines ls).
Proof.
  induction ls as [|x ls IH]; [congruence|]. intros _.
  destruct ls as [|y ls].
  - cbn. now rewrite app_nil_r.
  - rewrite join_cons by discriminate. rewrite splitLines_crlf, IH by discriminate.
    reflexivity.
Qed.

Lemma splitLines_aux_nonempty s : forall cur, splitLines_aux cur s <> [].
Proof.
  induction s as [|c s IH]; intros cur; cbn [splitLines_aux]; [discriminate|].
  destruct (cu_eqb c 10); [discriminate|].
  destruct (cu_eqb c 13); [|apply IH].
  destruct s as [|d s]; [apply IH|].
  destruct (cu_eqb d 10); [discriminate | apply IH].
Qed.

Lemma splitLines_nonempty s : splitLines s <> [].
Proof. apply splitLines_aux_nonempty. Qed.

Lemma noLF_rev_cons c cur : c <> 10%N -> noLF (rev cur) = true -> noLF (rev (c :: cur)) = true.
Proof.
  intros Hc H. unfold noLF in *. simpl. rewrite forallb_app, H. simpl.
  now rewrite (cu_eqb_false _ _ Hc).
Qed.

Lemma splitLines_aux_noLF n : forall s cur, length s <= n ->
  noLF (rev cur) = true -> forallb noLF (splitLines_aux cur s) = true.
Proof.
  induction n as [|n IH]; intros s cur Hn Hcur.
  - destruct s; [|simpl in Hn; lia]. simpl. now rewrite Hcur.
  - destruct s as [|c s]; [simpl; now rewrite Hcur|]. simpl in Hn.
    cbn [splitLines_aux].
    destruct (cu_eqb c 10) eqn:E10.
    { simpl. rewrite Hcur. apply IH; [lia | reflexivity]. }
    assert (Hc : c <> 10%N) by (now apply N.eqb_neq).
    destruct (cu_eqb c 13); [|apply IH; [lia | now apply noLF_rev_cons]].
    destruct s as [|d s]; [apply IH; [simpl; lia | now apply noLF_rev_cons]|].
    destruct (cu_eqb d 10).
    + simpl. rewrite Hcur. apply IH; [simpl in Hn; lia | reflexivity].
    + apply IH; [simpl in *; lia | now apply noLF_rev_cons].
Qed.

Lemma splitLines_noLF s : forallb noLF (splitLines s) = true.
Proof. apply (splitLines_aux_noLF (length s)); [lia | reflexivity]. Qed.

(** A text of one line or more is not empty once its lines are joined,
    unless it is empty. *)
Lemma join_splitLines_truthy s : truthy s = true -> truthy (join [10%N] (splitLines s)) = true.
Proof.
  intros Hs. pose proof (splitLines_nonempty s) as Hne.
  destruct (splitLines s) as [|l ls] eqn:E; [congruence|].
  destruct ls as [|l2 ls].
  - destruct l as [|c l]; [|reflexivity].
    (* a single empty line: the text is empty *)
    exfalso. destruct s as [|c s]; [discriminate|].
    assert (H : forall t cur, splitLines_aux cur t = [[]] -> rev cur ++ t = []).
    { clear. intros t. remember (length t) as n eqn:Hn.
      assert (Hle : length t <= n) by lia. clear Hn. revert t Hle.
      induction n as [|n IH]; intros t Hle cur H.
      - destruct t; [|simpl in Hle; lia]. cbn in H. injection H as H.
        now rewrite H.
      - destruct t as [|c t]; [cbn in H; injection H as H; now rewrite H|].
        simpl in Hle. cbn [splitLines_aux] in H.
        destruct (cu_eqb c 10).
        { injection H as _ H. now apply splitLines_aux_nonempty in H. }
        assert (G : splitLines_aux (c :: cur) t = [[]] -> rev cur ++ c :: t = []).
        { intros G. apply IH in G; [|lia]. simpl in G. now rewrite <- app_assoc in G. }
        destruct (cu_eqb c 13); [|now apply G].
        destruct t as [|d t]; [now apply G|].
        destruct (cu_eqb d 10); [|now apply G].
        injection H as _ H. now apply splitLines_aux_nonempty in H. }
    specialize (H (c :: s) [] E). discriminate.
  - rewrite join_cons by discriminate. now destruct l.
Qed.

(** *** [indexOf] *)

Lemma indexOf_crlf2_line l rest :
  noLF l = true ->
  indexOf blankLineCR (l ++ lineEnd ++ rest)
  = if startsWith lineEnd rest then Some (length l)
    else option_map (fun i => length l + 2 + i) (indexOf blankLineCR rest).
Proof.
  induction l as [|c l IH]; intros H.
  - change (indexOf blankLineCR ([] ++ lineEnd ++ rest))
      with (if startsWith lineEnd rest then Some 0
            else option_map S (option_map S (indexOf blankLineCR rest))).
    destruct (startsWith lineEnd rest); [reflexivity|].
    destruct (indexOf blankLineCR rest); reflexivity.
  - apply noLF_cons in H as [Hc H]. cbn [app length].
    unfold blankLineCR at 1. cbn [indexOf].
    assert (Hs : startsWith [13; 10; 13; 10]%N (c :: l ++ lineEnd ++ rest) = false).
    { cbn [startsWith]. destruct (cu_eqb 13 c); [|reflexivity]. cbn [andb].
      destruct l as [|d l]; [reflexivity|].
      apply noLF_cons in H as [Hd _]. cbn [app startsWith].
      unfold cu_eqb. rewrite (proj2 (N.eqb_neq 10 d)) by congruence. reflexivity. }
    rewrite Hs. fold blankLineCR. rewrite (IH H).
    destruct (startsWith lineEnd rest); [reflexivity|].
    destruct (indexOf blankLineCR rest); reflexivity.
Qed.

End LineFacts.

Import LineFacts.

Module BlockFacts.

Import Receiver.

Lemma startsWith_crlf_line l rest :
  truthy l = true -> noLF l = true -> startsWith lineEnd (l ++ 13%N :: rest) = false.
Proof.
  intros Ht H. destruct l as [|c l]; [discriminate|].
  apply noLF_cons in H as [Hc H]. unfold lineEnd. cbn [app startsWith].
  destruct (cu_eqb 13 c); [|reflexivity]. cbn [andb].
  destruct l as [|d l]; [reflexivity|].
  apply noLF_cons in H as [Hd _]. cbn [app].
  unfold cu_eqb. rewrite (proj2 (N.eqb_neq 10 d)) by congruence. reflexivity.
Qed.

(** The header block ends at the first blank line. *)
Lemma indexOf_block (lines : list jsstring) body :
  lines <> [] ->
  forallb (fun l => truthy l && noLF l) lines = true ->
  indexOf blankLineCR (join lineEnd lines ++ lineEnd ++ lineEnd ++ body)
  = Some (length (join lineEnd lines)).
Proof.
  induction lines as [|l ls IH]; [congruence|]. intros _ H.
  simpl in H. apply andb_prop in H as [Hl H]. apply andb_prop in Hl as [Ht Hl].
  destruct ls as [|l2 ls].
  - cbn [join]. rewrite indexOf_crlf2_line by exact Hl. reflexivity.
  - rewrite join_cons by discriminate. rewrite <- !app_assoc.
    rewrite indexOf_crlf2_line by exact Hl.
    assert (Hs : startsWith lineEnd
                   (join lineEnd (l2 :: ls) ++ lineEnd ++ lineEnd ++ body) = false).
    { simpl in H. apply andb_prop in H as [H2 _]. apply andb_prop in H2 as [T2 N2].
      destruct ls as [|l3 ls].
      - cbn [join]. now apply startsWith_crlf_line.
      - rewrite join_cons by discriminate. rewrite <- app_assoc.
        now apply startsWith_crlf_line. }
    rewrite Hs, IH by (discriminate || exact H). cbn [option_map].
    f_equal. rewrite !length_app. simpl. lia.
Qed.

Lemma splitHeadersAndBody_block rt (lines : list jsstring) body :
  lines <> [] ->
  forallb (fun l => truthy l && noLF l) lines = true ->
  splitHeadersAndBody rt (join lineEnd lines ++ lineEnd ++ lineEnd ++ body)
  = (fst (fold_left (parseHeaders_step rt) lines (∅, [])), body).
Proof.
  intros Hne H. unfold splitHeadersAndBody.
  fold blankLineCR. rewrite (indexOf_block lines body Hne H).
  unfold slice, sliceFrom. rewrite Nat.sub_0_r, drop_0, take_app_length.
  replace (drop (length (join lineEnd lines) + 4)
                (join lineEnd lines ++ lineEnd ++ lineEnd ++ body)) with body.
  2:{ replace (join lineEnd lines ++ lineEnd ++ lineEnd ++ body)
        with ((join lineEnd lines ++ lineEnd ++ lineEnd) ++ body)
        by (now rewrite <- !app_assoc).
      replace (length (join lineEnd lines) + 4)
        with (length (join lineEnd lines ++ lineEnd ++ lineEnd))
        by (rewrite !length_app; simpl; lia).
      now rewrite drop_app_length. }
  f_equal.
  unfold parseHeaders. rewrite splitLines_join by exact Hne.
  assert (E : concat (map splitLines lines) = lines).
  { clear Hne. induction lines as [|l ls IH]; [reflexivity|].
    simpl in H. apply andb_prop in H as [Hl H]. apply andb_prop in Hl as [_ Hl].
    cbn [map concat]. rewrite (splitLines_line _ Hl), IH by exact H. reflexivity. }
  now rewrite E.
Qed.

(** No blank line with carriage returns in lines joined by line feeds. *)

Lemma indexOf_crlf2_noCR pre s :
  noCR pre = true -> indexOf blankLineCR s = None -> indexOf blankLineCR (pre ++ s) = None.
Proof.
  intros Hp Hs. induction pre as [|c pre IH]; [exact Hs|].
  unfold noCR in Hp. simpl in Hp. apply andb_prop in Hp as [Hc Hp].
  cbn [app]. unfold blankLineCR at 1. cbn [indexOf startsWith].
  unfold cu_eqb in *. rewrite N.eqb_sym. apply negb_true_iff in Hc. rewrite Hc.
  cbn [andb]. fold blankLineCR. now rewrite (IH Hp).
Qed.

Lemma indexOf_crlf2_noLF s : noLF s = true -> indexOf blankLineCR s = None.
Proof.
  induction s as [|c s IH]; [reflexivity|]. intros H.
  apply noLF_cons in H as [Hc H]. unfold blankLineCR at 1. cbn [indexOf].
  assert (Hs : startsWith [13; 10; 13; 10]%N (c :: s) = false).
  { cbn [startsWith]. destruct (cu_eqb 13 c); [|reflexivity]. cbn [andb].
    destruct s as [|d s]; [reflexivity|].
    apply noLF_cons in H as [Hd _]. cbn [startsWith].
    unfold cu_eqb. rewrite (proj2 (N.eqb_neq 10 d)) by congruence. reflexivity. }
  rewrite Hs. fold blankLineCR. now rewrite (IH H).
Qed.

Lemma noFinalCR_tail c d (l : jsstring) :
  noFinalCR (c :: d :: l) = true -> noFinalCR (d :: l) = true.
Proof.
  unfold noFinalCR. cbn [rev]. destruct (rev l ++ [d]) eqn:E.
  - destruct (rev l); discriminate.
  - auto.
Qed.

Lemma indexOf_crlf2_lf_line l rest :
  noLF l = true -> noFinalCR l = true ->
  indexOf blankLineCR rest = None -> indexOf blankLineCR (l ++ 10%N :: rest) = None.
Proof.
  intros Hl Hf Hr. induction l as [|c l IH].
  - cbn [app]. unfold blankLineCR at 1. cbn [indexOf startsWith].
    change (cu_eqb 13 10) with false. cbn [andb]. fold blankLineCR. now rewrite Hr.
  - apply noLF_cons in Hl as [Hc Hl]. cbn [app]. unfold blankLineCR at 1. cbn [indexOf].
    assert (Hs : startsWith [13; 10; 13; 10]%N (c :: l ++ 10%N :: rest) = false).
    { cbn [startsWith]. destruct (cu_eqb 13 c) eqn:Ec; [|reflexivity]. cbn [andb].
      destruct l as [|d l].
      - apply N.eqb_eq in Ec. subst c. discriminate.
      - apply noLF_cons in Hl as [Hd _]. cbn [app startsWith].
        unfold cu_eqb. rewrite (proj2 (N.eqb_neq 10 d)) by congruence. reflexivity. }
    rewrite Hs. fold blankLineCR. rewrite IH; auto.
    destruct l as [|d l]; [reflexivity | now apply noFinalCR_tail in Hf].
Qed.

Lemma indexOf_crlf2_lines (ls : list jsstring) :
  forallb noLF ls = true -> forallb noFinalCR ls = true ->
  indexOf blankLineCR (join [10%N] ls) = None.
Proof.
  induction ls as [|l ls IH]; [reflexivity|]. intros Hn Hf.
  simpl in Hn, Hf. apply andb_prop in Hn as [Hl Hn]. apply andb_prop in Hf as [Hc Hf].
  destruct ls as [|l2 ls].
  - cbn [join]. now apply indexOf_crlf2_noLF.
  - rewrite join_cons by discriminate. cbn [app].
    apply indexOf_crlf2_lf_line; auto.
Qed.

End BlockFacts.

Import BlockFacts.

Module LeafFacts.

Import Receiver.

Section WithRuntime.

Variable rt : Runtime.
Hypothesis lowers : lowersAscii rt.

Lemma decodeBody_8bit body : decodeBody rt body (str "8bit") = Ret body.
Proof.
  destruct body as [|c body]; [reflexivity|].
  unfold decodeBody. cbn [truthy negb].
  change (str_eqb (trim (str "8bit")) (str "base64")) with false.
  change (str_eqb (trim (str "8bit")) (str "quoted-printable")) with false.
  reflexivity.
Qed.

Lemma charset_utf8 ct body :
  match search re_charset ct with
  | Some (_, m) => trim (capture 1 m) = str "utf-8"
  | None => True
  end ->
  decodeBodyWithCharset rt body (str "8bit") ct = Ret body.
Proof.
  intros H. unfold decodeBodyWithCharset. rewrite decodeBody_8bit. cbn [bind].
  destruct body as [|c body]; [reflexivity|]. cbn [truthy negb].
  destruct (search re_charset ct) as [[m0 m]|].
  - rewrite H, (lowers (str "utf-8")) by reflexivity.
    change (map lowerAscii (str "utf-8")) with (str "utf-8"). reflexivity.
  - reflexivity.
Qed.

Lemma parseEntity_plain (fuel : nat) (hs : gmap (list N) (list N)) (body : jsstring) :
  getHeader (str "content-type") hs = ctPlain ->
  getHeader (str "content-transfer-encoding") hs = str "8bit" ->
  parseEntity rt (S fuel) hs body = Ret (Parsed body []).
Proof.
  intros H1 H2. cbn [parseEntity]. rewrite H1, H2.
  rewrite (lowers ctPlain), (lowers (str "8bit")) by reflexivity.
  change (map lowerAscii ctPlain) with ctPlain.
  change (map lowerAscii (str "8bit")) with (str "8bit").
  change (startsWith (str "multipart/") ctPlain) with false. cbn [negb].
  unfold parseLeaf. rewrite charset_utf8; [reflexivity|].
  vm_compute. reflexivity.
Qed.

Lemma parseEntity_html (fuel : nat) (hs : gmap (list N) (list N)) (body : jsstring) :
  getHeader (str "content-type") hs = ctHtml ->
  getHeader (str "content-transfer-encoding") hs = str "8bit" ->
  parseEntity rt (S fuel) hs body = Ret (Parsed [] body).
Proof.
  intros H1 H2. cbn [parseEntity]. rewrite H1, H2.
  rewrite (lowers ctHtml), (lowers (str "8bit")) by reflexivity.
  change (map lowerAscii ctHtml) with ctHtml.
  change (map lowerAscii (str "8bit")) with (str "8bit").
  change (startsWith (str "multipart/") ctHtml) with false. cbn [negb].
  unfold parseLeaf. rewrite charset_utf8; [reflexivity|].
  vm_compute. reflexivity.
Qed.

(** The two header lines of a leaf. *)
Lemma leaf_headers (h : gmap (list N) (list N)) (k ct : jsstring) :
  headIs isSpace ct = false -> forallb dot ct = true ->
  exists h',
    fold_left (parseHeaders_step rt)
      [str "Content-Type: " ++ ct; str "Content-Transfer-Encoding: 8bit"] (h, k)
    = (h', cteKey)
    /\ getHeader ctKey h' = ct /\ getHeader cteKey h' = str "8bit".
Proof.
  intros Hh Hd. cbn [fold_left].
  change (str "Content-Type: " ++ ct)
    with (str "Content-Type" ++ 58%N :: [32%N] ++ ct).
  rewrite step_match; [|reflexivity|discriminate|reflexivity|reflexivity|exact Hh|exact Hd].
  change (str "Content-Transfer-Encoding: 8bit")
    with (str "Content-Transfer-Encoding" ++ 58%N :: [32%N] ++ str "8bit").
  rewrite step_match;
    [|reflexivity|discriminate|reflexivity|reflexivity|reflexivity|reflexivity].
  rewrite (lowers (str "Content-Type")), (lowers (str "Content-Transfer-Encoding"))
    by reflexivity.
  change (map lowerAscii (str "Content-Type")) with ctKey.
  change (map lowerAscii (str "Content-Transfer-Encoding")) with cteKey.
  eexists. split; [reflexivity|]. split.
  - rewrite getHeader_setHeader_ne by discriminate.
    apply getHeader_setHeader. discriminate.
  - apply getHeader_setHeader. discriminate.
Qed.

(** The header lines that carry nothing the parser looks at. *)
Lemma other_headers (lines : list (jsstring * jsstring)) :
  forall (h : gmap (list N) (list N)) (k : jsstring),
  forallb (fun l => negb (startsWithSpace (fst l)) && truthy (fst l)
                    && forallb notColon (fst l) && forallb isAscii (fst l)
                    && negb (str_eqb (map lowerAscii (fst l)) ctKey)
                    && negb (str_eqb (map lowerAscii (fst l)) cteKey)) lines = true ->
  exists h' k',
    fold_left (parseHeaders_step rt)
      (map (fun l => fst l ++ 58%N :: snd l) lines) (h, k) = (h', k')
    /\ getHeader ctKey h' = getHeader ctKey h
    /\ getHeader cteKey h' = getHeader cteKey h.
Proof.
  induction lines as [|[name rest] ls IH]; intros h k H.
  - now exists h, k.
  - simpl in H. apply andb_prop in H as [Hl H].
    repeat (apply andb_prop in Hl as [Hl ?]).
    cbn [map fold_left fst snd].
    destruct (step_other rt h k name rest) as (h1 & k1 & -> & Hk); auto.
    { destruct name as [|c name]; [discriminate|]. cbn [app startsWithSpace].
      cbn [startsWithSpace] in Hl. now apply negb_true_iff in Hl. }
    destruct (IH h1 k1 H) as (h' & k' & -> & E1 & E2).
    exists h', k'. split; [reflexivity|].
    rewrite (lowers name) in Hk by assumption.
    rewrite E1, E2. split; apply Hk; intros E; unfold str_eqb in *.
    + rewrite <- E in *. rewrite bool_decide_eq_true_2 in * by reflexivity. discriminate.
    + rewrite <- E in *. rewrite bool_decide_eq_true_2 in * by reflexivity. discriminate.
Qed.

End WithRuntime.

End LeafFacts.

Import LeafFacts.

Module EmlFacts.

Import Receiver.

Lemma noLF_app a b : noLF (a ++ b) = noLF a && noLF b.
Proof. apply forallb_app. Qed.

Lemma truthy_app a b : truthy a = true -> truthy (a ++ b) = true.
Proof. now destruct a. Qed.

Lemma envelope_lines sender mailbox subject dateStr :
  noLF sender = true -> noLF mailbox = true ->
  noLF subject = true -> noLF dateStr = true ->
  forallb (fun l => truthy l && noLF l)
          (headerLines (envelope sender mailbox subject dateStr)) = true.
Proof.
  intros H1 H2 H3 H4. unfold envelope, headerLines. cbn [map forallb fst snd].
  rewrite !noLF_app. change (noLF (58%N :: ?x)) with (noLF x).
  rewrite !noLF_app, H1, H2, H3, H4. reflexivity.
Qed.

Lemma envelope_other sender mailbox subject dateStr :
  forallb (fun l => negb (startsWithSpace (fst l)) && truthy (fst l)
                    && forallb notColon (fst l) && forallb isAscii (fst l)
                    && negb (str_eqb (map lowerAscii (fst l)) ctKey)
                    && negb (str_eqb (map lowerAscii (fst l)) cteKey))
          (envelope sender mailbox subject dateStr) = true.
Proof. reflexivity. Qed.

Lemma buildEml_text sender mailbox subject dateStr boundary text :
  buildEml sender mailbox subject dateStr boundary text []
  = join lineEnd (headerLines (envelope sender mailbox subject dateStr)
               ++ [str "Content-Type: " ++ ctPlain;
                   str "Content-Transfer-Encoding: 8bit"])
    ++ lineEnd ++ lineEnd ++ (text ++ lineEnd).
Proof.
  transitivity
    (join lineEnd ((headerLines (envelope sender mailbox subject dateStr)
                 ++ [str "Content-Type: " ++ ctPlain;
                     str "Content-Transfer-Encoding: 8bit"])
                ++ [[]; text; []])).
  - reflexivity.
  - rewrite join_app by discriminate.
    change (join lineEnd [[]; text; []]) with (lineEnd ++ text ++ lineEnd ++ []).
    now rewrite app_nil_r.
Qed.

End EmlFacts.

Section ReceiverProperties.

Variable rt : Runtime.

(** X14.  A message received without HTML is stored so that the parser
    reads its text back, followed by the line end that ends the stored
    message, and no HTML, whatever the text holds. *)
Theorem stored_text_read_back
    (sender mailbox subject dateStr boundary text : jsstring) (fuel : nat) :
  lowersAscii rt ->
  noLF sender = true -> noLF mailbox = true ->
  noLF subject = true -> noLF dateStr = true ->
  parseEmailBody rt (S fuel)
    (Receiver.buildEml sender mailbox subject dateStr boundary text [])
  = Ret (Parsed (text ++ Receiver.lineEnd) []).
Proof.
  intros Hrt H1 H2 H3 H4. rewrite EmlFacts.buildEml_text.
  unfold parseEmailBody, parseEmailBodyWith.
  rewrite EmlFacts.truthy_app by reflexivity. cbn [negb].
  rewrite splitHeadersAndBody_block; [|discriminate|].
  2:{ rewrite forallb_app, EmlFacts.envelope_lines by assumption. reflexivity. }
  rewrite fold_left_app.
  destruct (other_headers rt Hrt _ ∅ [] (EmlFacts.envelope_other sender mailbox subject dateStr))
    as (h1 & k1 & E & _).
  unfold headerLines. rewrite E.
  destruct (leaf_headers rt Hrt h1 k1 ctPlain eq_refl eq_refl) as (h2 & -> & Hct & Hcte).
  cbn [fst]. now apply parseEntity_plain.
Qed.

End ReceiverProperties.

Module BoundaryFacts.

Import Receiver.

Lemma idChar_range c : isIdChar c = true -> (45 <= c <= 122)%N /\ c <> 58%N /\ c <> 59%N.
Proof.
  unfold isIdChar, isDigit, isLower, in_range, cu_eqb.
  rewrite !orb_true_iff, !andb_true_iff, !N.leb_le, N.eqb_eq. lia.
Qed.

Lemma forallb_impl (p q : cu -> bool) (s : jsstring) :
  (forall c, p c = true -> q c = true) -> forallb p s = true -> forallb q s = true.
Proof.
  intros H. induction s as [|c s IH]; [auto|]. simpl. intros Hs.
  apply andb_prop in Hs as [Hc Hs]. now rewrite (H c Hc), IH.
Qed.

Lemma idChar_boundaryChar c : isIdChar c = true -> isBoundaryChar c = true.
Proof.
  intros H. apply idChar_range in H. unfold isBoundaryChar, cu_eqb.
  rewrite negb_true_iff, !orb_false_iff, !N.eqb_neq. lia.
Qed.

Lemma idChar_noSpace c : isIdChar c = true -> negb (isSpace c) = true.
Proof.
  intros H. apply idChar_range in H. unfold isSpace, in_range, cu_eqb.
  rewrite negb_true_iff, !orb_false_iff, !andb_false_iff, !N.leb_gt, !N.eqb_neq. lia.
Qed.

Lemma idChar_ascii c : isIdChar c = true -> isAscii c = true.
Proof. intros H. apply idChar_range in H. unfold isAscii. apply N.ltb_lt. lia. Qed.

Lemma idChar_dot c : isIdChar c = true -> dot c = true.
Proof.
  intros H. apply idChar_range in H. unfold dot, isLineTerminator, cu_eqb.
  rewrite negb_true_iff, !orb_false_iff, !N.eqb_neq. lia.
Qed.

Lemma idChar_noLF c : isIdChar c = true -> negb (cu_eqb c 10) = true.
Proof.
  intros H. apply idChar_range in H. unfold cu_eqb.
  rewrite negb_true_iff, N.eqb_neq. lia.
Qed.

Section Boundary.

Variable id : jsstring.
Hypothesis id_chars : forallb isIdChar id = true.

Let b := boundaryFor id.

Lemma boundary_forall (p : cu -> bool) :
  (forall c, isIdChar c = true -> p c = true) ->
  forallb p (str "mf-") = true -> forallb p b = true.
Proof.
  intros H H0. unfold b, boundaryFor. rewrite forallb_app, H0.
  apply (forallb_impl isIdChar p); assumption.
Qed.

Lemma boundary_chars : forallb isBoundaryChar b = true.
Proof. apply boundary_forall; [apply idChar_boundaryChar | reflexivity]. Qed.

Lemma boundary_noSpace : forallb (fun c => negb (isSpace c)) b = true.
Proof. apply boundary_forall; [apply idChar_noSpace | reflexivity]. Qed.

Lemma boundary_ascii : forallb isAscii b = true.
Proof. apply boundary_forall; [apply idChar_ascii | reflexivity]. Qed.

Lemma boundary_dot : forallb dot b = true.
Proof. apply boundary_forall; [apply idChar_dot | reflexivity]. Qed.

Lemma boundary_noLF : noLF b = true.
Proof. apply boundary_forall; [apply idChar_noLF | reflexivity]. Qed.

End Boundary.

(** A string without white space is its own trimmed form. *)
Lemma trimStart_noSpace s : headIs isSpace s = false -> trimStart s = s.
Proof. destruct s as [|c s]; [reflexivity|]. simpl. now intros ->. Qed.

Lemma noSpace_head s :
  forallb (fun c => negb (isSpace c)) s = true -> headIs isSpace s = false.
Proof.
  destruct s as [|c s]; [reflexivity|]. simpl. intros H.
  apply andb_prop in H as [H _]. now apply negb_true_iff in H.
Qed.

Lemma trimEnd_noSpace s :
  forallb (fun c => negb (isSpace c)) s = true -> trimEnd s = s.
Proof.
  intros H. unfold trimEnd. rewrite trimStart_noSpace, rev_involutive; [reflexivity|].
  apply noSpace_head. now rewrite DecodeFacts.forallb_rev.
Qed.

Lemma trim_noSpace s :
  forallb (fun c => negb (isSpace c)) s = true -> trim s = s.
Proof.
  intros H. unfold trim. rewrite trimStart_noSpace by now apply noSpace_head.
  now apply trimEnd_noSpace.
Qed.

(** The pattern of [getBoundary] fails where no letter b stands. *)
Lemma boundary_pattern :
  re_boundary
  = Seq (liti (str "boundary")) (Seq (star isSpace) (Seq (chr 61) (Seq (star isSpace)
      (Seq (opt (chr 34)) (Seq (Group 1 (plus isBoundaryChar)) (opt (chr 34))))))).
Proof. reflexivity. Qed.

Lemma run_boundary_other bef c aft cs :
  cu_eqb_ci 98 c = false -> run re_boundary (MState bef (c :: aft) cs) = [].
Proof.
  intros H. rewrite boundary_pattern.
  change (liti (str "boundary"))
    with (Seq (Chr (cu_eqb_ci 98)) (liti (str "oundary"))).
  rewrite !run_seq, run_chr_cons, H. reflexivity.
Qed.

Lemma search_boundary_skip pre : forall bef rest,
  forallb (fun c => negb (cu_eqb_ci 98 c)) pre = true ->
  search_from re_boundary bef (pre ++ rest)
  = search_from re_boundary (rev pre ++ bef) rest.
Proof.
  induction pre as [|c pre IH]; intros bef rest H; [reflexivity|].
  simpl in H. apply andb_prop in H as [Hc H]. apply negb_true_iff in Hc.
  cbn [app]. rewrite search_from_skip by now apply run_boundary_other.
  rewrite IH by exact H. simpl. now rewrite <- app_assoc.
Qed.

Lemma run_liti_boundary bef rest cs :
  run (liti (str "boundary")) (MState bef (str "boundary" ++ rest) cs)
  = [MState (rev (str "boundary") ++ bef) rest cs].
Proof. reflexivity. Qed.

Lemma getBoundary_alternative boundary :
  boundary <> [] -> forallb isBoundaryChar boundary = true ->
  forallb (fun c => negb (isSpace c)) boundary = true ->
  getBoundary (ctAlternative boundary) = boundary.
Proof.
  intros Hne Hb Hs. unfold getBoundary. cbn [truthy ctAlternative negb].
  assert (E : exists m0 m, search re_boundary (ctAlternative boundary) = Some (m0, m)
                           /\ capture 1 m = boundary).
  { unfold search, ctAlternative.
    change (str "multipart/alternative; boundary=" ++ quote ++ boundary ++ quote)
      with (str "multipart/alternative; " ++ (str "boundary" ++ 61%N :: 34%N :: boundary ++ quote)).
    rewrite search_boundary_skip by reflexivity.
    do 2 eexists. split.
    - apply search_from_first. rewrite boundary_pattern.
      eapply firstIs_seq; [rewrite run_liti_boundary; apply firstIs_one|].
      eapply firstIs_seq; [apply (run_star_first isSpace []); reflexivity|].
      eapply firstIs_seq; [apply run_chr_first|].
      eapply firstIs_seq; [apply (run_star_first isSpace []); reflexivity|].
      eapply firstIs_seq.
      { unfold chr. rewrite run_opt_chr. change (cu_eqb 34 34) with true.
        eexists. reflexivity. }
      eapply firstIs_seq.
      { apply run_group_first. apply run_plus_longest; [exact Hne | exact Hb | reflexivity]. }
      cbn [before after caps]. unfold chr, quote. rewrite run_opt_chr.
      change (cu_eqb 34 34) with true. eexists. reflexivity.
    - cbn [capture caps find fst snd Nat.eqb]. apply DecodeFacts.consumed_run. }
  destruct E as (m0 & m & -> & ->). now apply trim_noSpace.
Qed.

(** Delimiter lines and content lines. *)

Lemma delimiter_self d :
  forallb (fun c => negb (isSpace c)) d = true -> isDelimiterLine d d = true.
Proof.
  intros H. unfold isDelimiterLine. rewrite trimEnd_noSpace, trim_noSpace by exact H.
  unfold str_eqb. now apply bool_decide_eq_true_2.
Qed.

Lemma contentLine_head boundary (l : jsstring) :
  headIs (cu_eqb 45) (trim (trimEnd l)) = false -> isContentLine boundary l = true.
Proof.
  intros H. unfold isContentLine, isDelimiterLine, str_eqb.
  rewrite !bool_decide_eq_false_2; [reflexivity| |]; intros E; rewrite E in H; discriminate.
Qed.

End BoundaryFacts.

Import BoundaryFacts.

Module PartFacts.

Import Receiver.

Lemma startsWith_longer p : forall (s t : jsstring),
  length p <= length s -> startsWith p (s ++ t) = startsWith p s.
Proof.
  induction p as [|a p IH]; intros s t H; [reflexivity|].
  destruct s as [|c s]; [simpl in H; lia|]. cbn [startsWith app].
  simpl in H. rewrite IH by lia. reflexivity.
Qed.

Lemma indexOf_length p : forall (s : jsstring) i,
  indexOf p s = Some i -> length p <= length s.
Proof.
  induction s as [|c s IH]; intros i; cbn [indexOf].
  - destruct p; [simpl; lia | discriminate].
  - destruct (startsWith p (c :: s)) eqn:E.
    + intros _. clear IH. revert E. generalize (c :: s). clear.
      induction p as [|a p IH]; intros s E; [simpl; lia|].
      destruct s as [|c s]; [discriminate|]. cbn [startsWith] in E.
      apply andb_prop in E as [_ E]. apply IH in E. simpl. lia.
    + destruct (indexOf p s) as [k|]; [|discriminate]. intros _.
      specialize (IH k eq_refl). simpl. lia.
Qed.

(** The first occurrence in a prefix is the first occurrence. *)
Lemma indexOf_prefix p : forall (s t : jsstring) i,
  indexOf p s = Some i -> indexOf p (s ++ t) = Some i.
Proof.
  induction s as [|c s IH]; intros t i H.
  - pose proof (indexOf_length _ _ _ H) as Hl. destruct p; [|simpl in Hl; lia].
    cbn in H. injection H as <-. now destruct t.
  - pose proof (indexOf_length _ _ _ H) as Hl.
    cbn [indexOf app] in *. change (c :: s ++ t) with ((c :: s) ++ t).
    rewrite startsWith_longer by exact Hl.
    destruct (startsWith p (c :: s)); [exact H|].
    destruct (indexOf p s) as [k|]; [|discriminate].
    now rewrite (IH t k eq_refl).
Qed.

Section WithRuntime.

Variable rt : Runtime.
Hypothesis lowers : lowersAscii rt.

(** A part whose header block has no carriage return, and whose body has
    no blank line with carriage returns. *)
Lemma splitHeadersAndBody_lf (block body : jsstring) :
  noCR (block ++ blankLine) = true ->
  indexOf blankLine (block ++ blankLine) = Some (length block) ->
  indexOf blankLineCR body = None ->
  splitHeadersAndBody rt (block ++ blankLine ++ body) = (parseHeaders rt block, body).
Proof.
  intros Hc Hi Hb. unfold splitHeadersAndBody. fold blankLineCR blankLine.
  rewrite (app_assoc block blankLine body).
  rewrite (indexOf_crlf2_noCR _ _ Hc Hb), (indexOf_prefix _ _ body _ Hi).
  unfold slice, sliceFrom. rewrite Nat.sub_0_r, drop_0.
  rewrite <- (app_assoc block blankLine body), take_app_length.
  replace (length block + 2) with (length (block ++ blankLine))
    by (rewrite length_app; simpl; lia).
  now rewrite (app_assoc block blankLine body), drop_app_length.
Qed.

Lemma leafPart_split ct lines :
  lines <> [] -> leafPart ct lines = leafBlock ct ++ blankLine ++ join lineFeed lines.
Proof.
  intros H. unfold leafPart, leafBlock. rewrite join_app by (discriminate || exact H).
  cbn [join]. rewrite app_nil_r, <- !app_assoc. reflexivity.
Qed.

Lemma leaf_split ct lines :
  ct = ctPlain \/ ct = ctHtml ->
  lines <> [] -> forallb noLF lines = true -> forallb noFinalCR lines = true ->
  exists h,
    splitHeadersAndBody rt (leafPart ct lines) = (h, join lineFeed lines)
    /\ getHeader ctKey h = ct /\ getHeader cteKey h = str "8bit".
Proof.
  intros Hct Hne Hn Hf. rewrite leafPart_split by exact Hne.
  rewrite splitHeadersAndBody_lf.
  - unfold parseHeaders.
    assert (E : splitLines (leafBlock ct)
                = [str "Content-Type: " ++ ct; str "Content-Transfer-Encoding: 8bit"]).
    { destruct Hct as [->| ->]; reflexivity. }
    rewrite E.
    destruct (leaf_headers rt lowers ∅ [] ct) as (h & -> & H1 & H2).
    + destruct Hct as [->| ->]; reflexivity.
    + destruct Hct as [->| ->]; reflexivity.
    + exists h. auto.
  - destruct Hct as [->| ->]; reflexivity.
  - destruct Hct as [->| ->]; reflexivity.
  - now apply indexOf_crlf2_lines.
Qed.

Lemma parsePart_plain fuel email (lines : list jsstring) :
  lines <> [] -> forallb noLF lines = true -> forallb noFinalCR lines = true ->
  parsePart rt (parseEntity rt (S fuel)) email (leafPart ctPlain lines)
  = Ret (Some (Parsed (join lineFeed lines) [])).
Proof.
  intros Hne Hn Hf.
  destruct (leaf_split ctPlain lines (or_introl eq_refl) Hne Hn Hf) as (h & E & H1 & H2).
  unfold parsePart. rewrite E. fold ctKey. rewrite H1.
  rewrite (lowers ctPlain) by reflexivity.
  change (map lowerAscii ctPlain) with ctPlain.
  change (startsWith (str "multipart/") ctPlain) with false.
  change (startsWith (str "message/rfc822") ctPlain) with false.
  change (includes (str "rfc822-headers") ctPlain) with false. cbv iota.
  now rewrite (parseEntity_plain rt lowers fuel h _ H1 H2).
Qed.

Lemma parsePart_html fuel email (lines : list jsstring) :
  lines <> [] -> forallb noLF lines = true -> forallb noFinalCR lines = true ->
  parsePart rt (parseEntity rt (S fuel)) email (leafPart ctHtml lines)
  = Ret (Some (Parsed [] (join lineFeed lines))).
Proof.
  intros Hne Hn Hf.
  destruct (leaf_split ctHtml lines (or_intror eq_refl) Hne Hn Hf) as (h & E & H1 & H2).
  unfold parsePart. rewrite E. fold ctKey. rewrite H1.
  rewrite (lowers ctHtml) by reflexivity.
  change (map lowerAscii ctHtml) with ctHtml.
  change (startsWith (str "multipart/") ctHtml) with false.
  change (startsWith (str "message/rfc822") ctHtml) with false.
  change (includes (str "rfc822-headers") ctHtml) with false. cbv iota.
  now rewrite (parseEntity_html rt lowers fuel h _ H1 H2).
Qed.

End WithRuntime.

End PartFacts.

Import PartFacts.

Module AlternativeFacts.

Import Receiver EmlFacts.

Lemma buildEml_html sender mailbox subject dateStr boundary text html :
  truthy html = true ->
  buildEml sender mailbox subject dateStr boundary text html
  = join lineEnd (headerLines (envelope sender mailbox subject dateStr)
               ++ [str "Content-Type: " ++ ctAlternative boundary])
    ++ lineEnd ++ lineEnd
    ++ join lineEnd [str "--" ++ boundary; str "Content-Type: " ++ ctPlain; cteLine; [];
                  text;
                  str "--" ++ boundary; str "Content-Type: " ++ ctHtml; cteLine; [];
                  html;
                  str "--" ++ boundary ++ str "--"; []].
Proof.
  intros Hh. unfold buildEml. rewrite Hh.
  transitivity
    (join lineEnd ((headerLines (envelope sender mailbox subject dateStr)
                 ++ [str "Content-Type: " ++ ctAlternative boundary])
                ++ [] :: [str "--" ++ boundary; str "Content-Type: " ++ ctPlain; cteLine; [];
                          text;
                          str "--" ++ boundary; str "Content-Type: " ++ ctHtml; cteLine; [];
                          html;
                          str "--" ++ boundary ++ str "--"; []])).
  - reflexivity.
  - rewrite join_app by discriminate. rewrite (join_cons lineEnd []) by discriminate.
    reflexivity.
Qed.

Section WithRuntime.

Variable rt : Runtime.
Hypothesis lowers : lowersAscii rt.

Variable id : jsstring.
Hypothesis id_chars : forallb isIdChar id = true.

Let b := boundaryFor id.

Lemma delimiter_noSpace : forallb (fun c => negb (isSpace c)) (str "--" ++ b) = true.
Proof. rewrite forallb_app. unfold b. now rewrite (boundary_noSpace id id_chars). Qed.

Lemma closing_noSpace :
  forallb (fun c => negb (isSpace c)) (str "--" ++ b ++ str "--") = true.
Proof. rewrite !forallb_app. unfold b. now rewrite (boundary_noSpace id id_chars). Qed.

Lemma noSpace_noLF s : forallb (fun c => negb (isSpace c)) s = true -> noLF s = true.
Proof.
  apply forallb_impl. intros c H. apply negb_true_iff in H. apply negb_true_iff.
  unfold cu_eqb. destruct (N.eqb_spec c 10) as [->|]; [discriminate | reflexivity].
Qed.

(** The parts of the body of a stored message. *)
Lemma stored_parts text html :
  forallb (isContentLine b) (splitLines text) = true ->
  forallb (isContentLine b) (splitLines html) = true ->
  splitMultipart
    (join lineEnd [str "--" ++ b; str "Content-Type: " ++ ctPlain; cteLine; [];
                text;
                str "--" ++ b; str "Content-Type: " ++ ctHtml; cteLine; [];
                html;
                str "--" ++ b ++ str "--"; []]) b
  = [leafPart ctPlain (splitLines text); leafPart ctHtml (splitLines html)].
Proof.
  intros Ht Hh. unfold splitMultipart.
  rewrite splitLines_join by discriminate. cbn [map concat].
  rewrite !(splitLines_line (str "--" ++ b)) by (apply noSpace_noLF, delimiter_noSpace).
  rewrite (splitLines_line (str "--" ++ b ++ str "--"))
    by (apply noSpace_noLF, closing_noSpace).
  change (splitLines (str "Content-Type: " ++ ctPlain))
    with [str "Content-Type: " ++ ctPlain].
  change (splitLines (str "Content-Type: " ++ ctHtml))
    with [str "Content-Type: " ++ ctHtml].
  change (splitLines cteLine) with [cteLine].
  change (splitLines []) with [@nil N].
  cbn [app].
  pose proof (delimiter_self _ delimiter_noSpace) as Hd.
  pose proof (delimiter_self _ closing_noSpace) as Hc.
  rewrite (SplitFacts.loop_delimiter b _ _ _ Hd). cbn [flush inPart parts andb].
  assert (E : (str "Content-Type: " ++ ctPlain) :: cteLine :: [] :: splitLines text
                ++ (str "--" ++ b) :: (str "Content-Type: " ++ ctHtml) :: cteLine :: []
                   :: splitLines html ++ [str "--" ++ b ++ str "--"; []]
              = ([str "Content-Type: " ++ ctPlain; cteLine; []] ++ splitLines text)
                ++ concat (map groupLines
                             [(str "--" ++ b,
                               [str "Content-Type: " ++ ctHtml; cteLine; []]
                               ++ splitLines html)])
                ++ (str "--" ++ b ++ str "--") :: [[]]).
  { cbn [map concat]. unfold groupLines. cbn [fst snd app].
    rewrite app_nil_r, <- ?app_assoc. reflexivity. }
  rewrite E. clear E.
  rewrite (SplitFacts.loop_content b).
  2:{ rewrite forallb_app, Ht.
      cbn [forallb]. rewrite !contentLine_head by reflexivity. reflexivity. }
  rewrite (SplitFacts.loop_groups_closed b).
  - reflexivity.
  - cbn [forallb]. unfold isGroup. cbn [fst snd]. rewrite Hd, forallb_app, Hh.
    cbn [forallb]. rewrite !contentLine_head by reflexivity. reflexivity.
  - rewrite <- app_assoc. exact Hc.
Qed.

Lemma parseEntity_alternative (fuel : nat) (hs : gmap (list N) (list N)) (body : jsstring) :
  getHeader ctKey hs = ctAlternative b ->
  parseEntity rt (S fuel) hs body
  = (do acc <- mergeParts (parsePart rt (parseEntity rt fuel)
                                     (parseEmailBodyWith rt (parseEntity rt fuel)))
                          (splitMultipart body b) (Parsed [] []);
     Ret (finishEntity rt body acc)).
Proof.
  intros H. cbn [parseEntity]. fold ctKey. rewrite H.
  rewrite (lowers (ctAlternative b)).
  2:{ unfold ctAlternative. rewrite !forallb_app. unfold b.
      now rewrite (boundary_ascii id id_chars). }
  change (startsWith (str "multipart/") (map lowerAscii (ctAlternative b))) with true.
  cbn [negb]. rewrite getBoundary_alternative.
  - reflexivity.
  - discriminate.
  - apply (boundary_chars id id_chars).
  - apply (boundary_noSpace id id_chars).
Qed.

Lemma alternative_headers sender mailbox subject dateStr :
  exists h,
    fst (fold_left (parseHeaders_step rt)
           (headerLines (envelope sender mailbox subject dateStr)
            ++ [str "Content-Type: " ++ ctAlternative b]) (∅, [])) = h
    /\ getHeader ctKey h = ctAlternative b.
Proof.
  rewrite fold_left_app.
  destruct (other_headers rt lowers _ ∅ [] (envelope_other sender mailbox subject dateStr))
    as (h1 & k1 & E & _).
  unfold headerLines. rewrite E. cbn [fold_left].
  change (str "Content-Type: " ++ ctAlternative b)
    with (str "Content-Type" ++ 58%N :: [32%N] ++ ctAlternative b).
  rewrite step_match; [|reflexivity|discriminate|reflexivity|reflexivity|reflexivity|].
  2:{ unfold ctAlternative. rewrite !forallb_app. unfold b.
      now rewrite (boundary_dot id id_chars). }
  eexists. split; [reflexivity|]. cbn [fst].
  rewrite (lowers (str "Content-Type")) by reflexivity.
  apply getHeader_setHeader. discriminate.
Qed.

End WithRuntime.

End AlternativeFacts.

Section AlternativeProperties.

Variable rt : Runtime.

(** X15.  A message received with HTML is stored so that the parser reads
    back both bodies with their line ends turned into line feeds, provided
    no line of them is a delimiter of the boundary or ends with a carriage
    return of its own. *)
Theorem stored_alternative_read_back
    (sender mailbox subject dateStr id text html : jsstring) (fuel : nat) :
  lowersAscii rt ->
  noLF sender = true -> noLF mailbox = true ->
  noLF subject = true -> noLF dateStr = true ->
  forallb Receiver.isIdChar id = true ->
  truthy html = true ->
  forallb (isContentLine (Receiver.boundaryFor id)) (splitLines text) = true ->
  forallb noFinalCR (splitLines text) = true ->
  forallb (isContentLine (Receiver.boundaryFor id)) (splitLines html) = true ->
  forallb noFinalCR (splitLines html) = true ->
  parseEmailBody rt (S (S fuel))
    (Receiver.buildEml sender mailbox subject dateStr (Receiver.boundaryFor id) text html)
  = Ret (Parsed (join [10%N] (splitLines text)) (join [10%N] (splitLines html))).
Proof.
  intros Hrt H1 H2 H3 H4 Hid Hh Ht1 Ht2 Hh1 Hh2.
  rewrite AlternativeFacts.buildEml_html by exact Hh.
  unfold parseEmailBody, parseEmailBodyWith.
  rewrite EmlFacts.truthy_app by reflexivity. cbn [negb].
  rewrite splitHeadersAndBody_block; [|discriminate|].
  2:{ rewrite forallb_app, EmlFacts.envelope_lines by assumption.
      cbn [forallb]. unfold ctAlternative. rewrite !EmlFacts.noLF_app.
      now rewrite (BoundaryFacts.boundary_noLF id Hid). }
  destruct (AlternativeFacts.alternative_headers rt Hrt id Hid sender mailbox subject dateStr)
    as (h & -> & Hct).
  rewrite (AlternativeFacts.parseEntity_alternative rt Hrt id Hid _ _ _ Hct).
  rewrite (AlternativeFacts.stored_parts id Hid text html Ht1 Hh1).
  cbn [mergeParts].
  rewrite (PartFacts.parsePart_plain rt Hrt);
    [|apply splitLines_nonempty|apply splitLines_noLF|exact Ht2].
  rewrite (PartFacts.parsePart_html rt Hrt);
    [|apply splitLines_nonempty|apply splitLines_noLF|exact Hh2].
  pose proof (join_splitLines_truthy html Hh) as Hj.
  fold Stored.lineFeed. change [10%N] with Stored.lineFeed in Hj.
  destruct (join Stored.lineFeed (splitLines html)) as [|c H']; [discriminate|].
  destruct (join Stored.lineFeed (splitLines text)) as [|d T']; reflexivity.
Qed.

End AlternativeProperties.

(** ** A message without header *)

Section HeaderlessProperties.

Variable rt : Runtime.

(** X16.  A message without any blank line has no header: the whole of it
    is the body, taken as plain text, unless the sniffer finds an HTML
    document in it, which is then the HTML and the text is empty. *)
Theorem headerless_message (raw : jsstring) (fuel : nat) :
  toLowerCase rt [] = [] ->
  truthy raw = true ->
  absent [13; 10; 13; 10]%N raw = true -> absent [10; 10]%N raw = true ->
  parseEmailBody rt (S fuel) raw
  = Ret (if truthy (guessHtmlFromRaw rt raw)
         then Parsed [] (guessHtmlFromRaw rt raw)
         else Parsed raw []).
Proof.
  intros Hl Ht H1 H2. unfold parseEmailBody, parseEmailBodyWith. rewrite Ht. cbn [negb].
  unfold splitHeadersAndBody.
  rewrite (indexOf_absent _ _ H1), (indexOf_absent _ _ H2).
  cbn [parseEntity]. unfold getHeader. rewrite !lookup_empty. cbn [default].
  rewrite Hl. change (startsWith (str "multipart/") []) with false. cbn [negb].
  unfold parseLeaf, decodeBodyWithCharset, decodeBody, orElse.
  generalize (guessHtmlFromRaw rt). intros g.
  destruct raw as [|c r]; [discriminate Ht|]. cbn [truthy negb].
  change (str_eqb (trim []) (str "base64")) with false.
  change (str_eqb (trim []) (str "quoted-printable")) with false.
  cbn [bind truthy negb].
  change (search re_charset []) with (@None (mstate * mstate)). cbv beta iota.
  change (str_eqb (str "utf-8") (str "utf-8")) with true. cbn [orb bind truthy negb].
  change (includes (str "text/html") []) with false.
  change (includes (str "text/plain") []) with false. cbn [orb negb].
  destruct (truthy (g (c :: r))); reflexivity.
Qed.

End HeaderlessProperties.

(** ** The code of the list preview *)

Module PreviewFacts.
Import Re.

Lemma rep_opt_chr_bounded p g fuel : forall budget bef aft cs m,
  In m (rep_opt (run (Chr p)) g budget fuel (MState bef aft cs)) ->
  exists a1 a2, aft = a1 ++ a2 /\ forallb p a1 = true
                /\ (forall b, budget = Some b -> length a1 <= b)
                /\ m = MState (rev a1 ++ bef) a2 cs.
Proof.
  induction fuel as [|fuel IH]; intros budget bef aft cs m Hin.
  - destruct Hin as [<-|[]]. exists [], aft. repeat split; auto. intros; simpl; lia.
  - cbn [rep_opt] in Hin.
    assert (Hst : m = MState bef aft cs ->
                  exists a1 a2, aft = a1 ++ a2 /\ forallb p a1 = true
                                /\ (forall b, budget = Some b -> length a1 <= b)
                                /\ m = MState (rev a1 ++ bef) a2 cs).
    { intros ->. exists [], aft. repeat split; auto. intros; simpl; lia. }
    assert (Hmore : forall b',
      (forall b, budget = Some b -> b' = Some (pred b) /\ 0 < b) ->
      In m (flat_map
              (fun st' => if length (after st') <? length (after (MState bef aft cs))
                          then rep_opt (run (Chr p)) g b' fuel st' else [])
              (run (Chr p) (MState bef aft cs))) ->
      exists a1 a2, aft = a1 ++ a2 /\ forallb p a1 = true
                    /\ (forall b, budget = Some b -> length a1 <= b)
                    /\ m = MState (rev a1 ++ bef) a2 cs).
    { intros b' Hb H. destruct aft as [|c rest]; [destruct H|].
      rewrite run_chr_cons in H. destruct (p c) eqn:Hc; [|destruct H].
      cbn [flat_map] in H. rewrite app_nil_r in H.
      destruct (_ <? _); [|destruct H].
      destruct (IH _ _ _ _ _ H) as (a1 & a2 & -> & Hp & Hlen & ->).
      exists (c :: a1), a2. simpl. rewrite Hc, Hp, <- app_assoc.
      repeat split; auto. intros b E. destruct (Hb b E) as [E' Hpos].
      specialize (Hlen _ E'). lia. }
    destruct budget as [[|b]|].
    + destruct Hin as [<-|[]]. now apply Hst.
    + assert (Hb : forall b0, Some (S b) = Some b0 -> Some b = Some (pred b0) /\ 0 < b0).
      { intros b0 [= <-]. simpl. split; [reflexivity | lia]. }
      destruct g.
      * apply in_app_or in Hin as [H|[<-|[]]]; [now apply (Hmore _ Hb H) | now apply Hst].
      * destruct Hin as [<-|H]; [now apply Hst | now apply (Hmore _ Hb H)].
    + assert (Hb : forall b0, @None nat = Some b0 -> @None nat = Some (pred b0) /\ 0 < b0)
        by (intros b0 [=]).
      destruct g.
      * apply in_app_or in Hin as [H|[<-|[]]]; [now apply (Hmore _ Hb H) | now apply Hst].
      * destruct Hin as [<-|H]; [now apply Hst | now apply (Hmore _ Hb H)].
Qed.

(** A bounded repetition of a class passes a run of the class whose length
    is within the bounds. *)
Lemma run_rep_chr_shape p g lo hi bef aft cs m :
  In m (run (Rep g lo (Some hi) (Chr p)) (MState bef aft cs)) ->
  exists a1 a2, aft = a1 ++ a2 /\ forallb p a1 = true
                /\ lo <= length a1 <= lo + (hi - lo)
                /\ m = MState (rev a1 ++ bef) a2 cs.
Proof.
  rewrite run_rep, ClientFacts.iter_chr. intros H.
  apply in_flat_map in H as (s1 & H1 & H).
  destruct ((lo <=? length aft) && forallb p (take lo aft)) eqn:E; [|destruct H1].
  destruct H1 as [<-|[]]. apply andb_prop in E as [Hlo Hp]. apply Nat.leb_le in Hlo.
  cbn [after option_map] in H.
  apply rep_opt_chr_bounded in H as (a1 & a2 & Ea & Hp1 & Hlen & ->).
  specialize (Hlen _ eq_refl).
  exists (take lo aft ++ a1), a2. repeat split.
  - now rewrite <- app_assoc, <- Ea, take_drop.
  - now rewrite forallb_app, Hp, Hp1.
  - rewrite length_app, length_take. lia.
  - rewrite length_app, length_take. lia.
  - now rewrite rev_app_distr, <- app_assoc.
Qed.

(** A run of a class that ends where the class ends holds every shorter
    run from the same place. *)
Lemma maximal_prefix p : forall (a1 a2 c1 c2 : jsstring),
  a1 ++ a2 = c1 ++ c2 -> forallb p c1 = true -> headIs p a2 = false ->
  exists r, a1 = c1 ++ r.
Proof.
  induction a1 as [|x a1 IH]; intros a2 c1 c2 E Hc Ha.
  - destruct c1 as [|y c1]; [now exists []|].
    simpl in E. subst a2. simpl in Ha, Hc. apply andb_prop in Hc as [Hy _]. congruence.
  - destruct c1 as [|y c1]; [now exists (x :: a1)|].
    simpl in E. injection E as -> E. simpl in Hc. apply andb_prop in Hc as [_ Hc].
    destruct (IH _ _ _ E Hc Ha) as [r ->]. now exists r.
Qed.

Lemma digit_alnum c : isDigit c = true -> isAlnum c = true.
Proof. intros H. unfold isAlnum. now rewrite H. Qed.

Lemma digits_code (s : jsstring) :
  4 <= length s <= 8 -> forallb isDigit s = true -> isPreviewCode s = true.
Proof.
  intros [H4 H8] Hd. unfold isPreviewCode.
  rewrite (BoundaryFacts.forallb_impl isDigit isAlnum s digit_alnum Hd).
  destruct s as [|c s]; [simpl in H4; lia|].
  apply Nat.leb_le in H4 as ->. apply Nat.leb_le in H8 as ->.
  simpl in Hd. apply andb_prop in Hd as [Hc _]. simpl. now rewrite Hc.
Qed.

Lemma digitsInRange_code s d :
  Client.digitsInRange s = Some d -> isPreviewCode d = true.
Proof.
  unfold Client.digitsInRange, replace_with, replace_all.
  rewrite (EscapeFacts.replace_chr _ _ (fun _ => [])); [|reflexivity|lia].
  set (digits := flat_map _ s).
  destruct ((4 <=? length digits) && (length digits <=? 8)) eqn:E; [|discriminate].
  intros [= <-]. apply andb_prop in E as [H4 H8].
  apply Nat.leb_le in H4, H8. apply digits_code; [lia|].
  subst digits. apply EscapeFacts.forallb_flat_map. intros c.
  destruct (isDigit c) eqn:Hc; simpl; [now rewrite Hc | reflexivity].
Qed.

Lemma run_notFollowAlnum st m :
  In m (run Client.notFollowAlnum st) -> m = st /\ headIs isAlnum (after st) = false.
Proof.
  unfold Client.notFollowAlnum. cbn [run].
  destruct (after st) as [|c rest] eqn:E.
  - intros [<-|[]]. auto.
  - destruct (isAlnum c) eqn:Hc; [intros []|]. intros [<-|[]]. auto.
Qed.

Lemma capture_first n r bef aft cs : capture n (MState bef aft ((n, r) :: cs)) = r.
Proof. unfold capture. simpl. now rewrite Nat.eqb_refl. Qed.

(** The group of the first rule. *)
Lemma rule1_code s m : In m (run Client.rule1 s) -> isPreviewCode (capture 1 m) = true.
Proof.
  change Client.rule1 with
    (Seq Client.keywords (Seq (upto 20 Client.notAlnum) (Seq Client.connector
       (Seq (upto 10 Client.notAlnum)
          (Seq (Group 1 (Rep true 4 (Some 8) (Chr isDigit))) Client.notFollowAlnum))))).
  intros H.
  apply DecodeFacts.in_run_seq in H as (t1 & _ & H).
  apply DecodeFacts.in_run_seq in H as (t2 & _ & H).
  apply DecodeFacts.in_run_seq in H as (t3 & _ & H).
  apply DecodeFacts.in_run_seq in H as (t4 & _ & H).
  apply DecodeFacts.in_run_seq in H as (s5 & H5 & H).
  rewrite run_group in H5. apply in_map_iff in H5 as (s' & <- & H').
  destruct t4 as [bef aft cs].
  apply run_rep_chr_shape in H' as (a1 & a2 & -> & Hp & Hlen & ->).
  apply run_notFollowAlnum in H as [-> _].
  cbn [before after caps]. rewrite capture_first, DecodeFacts.consumed_run.
  apply digits_code; [simpl in Hlen; lia | exact Hp].
Qed.

(** The group of the third rule: the look-ahead finds a digit in the run
    of letters and digits, and the group is the whole of that run. *)
Lemma rule3_code s m : In m (run Client.rule3 s) -> isPreviewCode (capture 1 m) = true.
Proof.
  change Client.rule3 with
    (Seq Client.keywords (Seq (upto 40 Client.notAlnum)
       (Seq (Group 1 (Seq (Ahead true (Seq (star isAlnum) (Chr isDigit)))
                          (Rep true 4 (Some 8) (Chr isAlnum))))
            Client.notFollowAlnum))).
  intros H.
  apply DecodeFacts.in_run_seq in H as (t1 & _ & H).
  apply DecodeFacts.in_run_seq in H as (t2 & _ & H).
  apply DecodeFacts.in_run_seq in H as (s5 & H5 & H).
  rewrite run_group in H5. apply in_map_iff in H5 as (s' & <- & H').
  destruct t2 as [bef aft cs].
  apply DecodeFacts.in_run_seq in H' as (sa & Ha & H').
  assert (Hl : sa = MState bef aft cs
               /\ exists x, In x (run (Seq (star isAlnum) (Chr isDigit)) (MState bef aft cs))).
  { cbn [run] in Ha.
    destruct (flat_map _ _) as [|x l] eqn:E; [destruct Ha|].
    destruct Ha as [<-|[]]. split; [reflexivity|]. exists x.
    rewrite run_seq. cbn [run]. rewrite E. now left. }
  destruct Hl as [-> [w Hw]].
  apply run_rep_chr_shape in H' as (a1 & a2 & -> & Hp & Hlen & ->).
  apply run_notFollowAlnum in H as [-> Hn]. cbn [after] in Hn.
  cbn [before after caps]. rewrite capture_first, DecodeFacts.consumed_run.
  unfold isPreviewCode. rewrite Hp.
  destruct Hlen as [H4 H8]. simpl in H8.
  apply Nat.leb_le in H4 as ->. apply Nat.leb_le in H8 as ->. cbn [andb].
  apply DecodeFacts.in_run_seq in Hw as (y & Hy & Hx).
  apply HeaderLineFacts.run_star_shape in Hy as (b1 & b2 & E & Hb & ->).
  destruct b2 as [|d b3]; [destruct Hx|].
  rewrite run_chr_cons in Hx. destruct (isDigit d) eqn:Hd; [|destruct Hx].
  assert (E' : a1 ++ a2 = (b1 ++ [d]) ++ b3) by (now rewrite <- app_assoc).
  destruct (maximal_prefix isAlnum a1 a2 (b1 ++ [d]) b3 E') as [r ->].
  - rewrite forallb_app, Hb. simpl. now rewrite (digit_alnum _ Hd).
  - exact Hn.
  - rewrite !existsb_app. simpl. rewrite Hd. now rewrite orb_true_r.
Qed.

Lemma rule4_code s m :
  search Client.rule4 s = Some m -> isPreviewCode (capture 1 (snd m)) = true.
Proof.
  destruct m as [st m]. unfold search. intros H.
  apply MatchFacts.search_from_start in H as [Hin [k ->]].
  rewrite ClientFacts.run_rule4 in Hin.
  destruct (isolatedSix _ _) as [r|] eqn:E; [|destruct Hin].
  destruct Hin as [<-|[]]. cbn [snd]. rewrite ClientFacts.capture_single.
  unfold isolatedSix in E. destruct (_ && _) eqn:Hb; [|discriminate].
  injection E as <-.
  apply andb_prop in Hb as [Hb _]. apply andb_prop in Hb as [Hb Hd].
  apply andb_prop in Hb as [_ Hl]. apply Nat.leb_le in Hl.
  apply digits_code; [|exact Hd]. rewrite length_take. lia.
Qed.

End PreviewFacts.

(** X17.  What the list preview shows as a code is never anything but
    nothing, or four to eight letters or digits of ASCII with a digit
    among them. *)
Theorem extractCode_shape (text : jsstring) :
  Client.extractCode text = [] \/ isPreviewCode (Client.extractCode text) = true.
Proof.
  unfold Client.extractCode. destruct (negb (truthy text)); [now left|].
  destruct (search Client.rule1 text) as [[s1 m1]|] eqn:E1.
  { right. apply DecodeFacts.search_from_some in E1. now apply PreviewFacts.rule1_code in E1. }
  destruct (search Client.rule2 text) as [[s2 m2]|] eqn:E2.
  - destruct (Client.digitsInRange (capture 1 m2)) as [d|] eqn:Ed.
    { right. now apply PreviewFacts.digitsInRange_code in Ed. }
    destruct (search Client.rule3 text) as [[s3 m3]|] eqn:E3.
    { right. apply DecodeFacts.search_from_some in E3. now apply PreviewFacts.rule3_code in E3. }
    destruct (search Client.rule4 text) as [[s4 m4]|] eqn:E4.
    { right. now apply PreviewFacts.rule4_code in E4. }
    destruct (search Client.rule5 text) as [[s5 m5]|]; [|now left].
    destruct (Client.digitsInRange (capture 1 m5)) as [d|] eqn:Ed5; [|now left].
    right. now apply PreviewFacts.digitsInRange_code in Ed5.
  - destruct (search Client.rule3 text) as [[s3 m3]|] eqn:E3.
    { right. apply DecodeFacts.search_from_some in E3. now apply PreviewFacts.rule3_code in E3. }
    destruct (search Client.rule4 text) as [[s4 m4]|] eqn:E4.
    { right. now apply PreviewFacts.rule4_code in E4. }
    destruct (search Client.rule5 text) as [[s5 m5]|]; [|now left].
    destruct (Client.digitsInRange (capture 1 m5)) as [d|] eqn:Ed5; [|now left].
    right. now apply PreviewFacts.digitsInRange_code in Ed5.
Qed.

(** ** The address of a sender or a recipient *)

Module CommonFacts.
Import Re Common.

Lemma angle_pattern :
  re_angle = Seq (chr 60) (Seq (Group 1 (plus notGreater)) (chr 62)).
Proof. reflexivity. Qed.

Lemma run_angle_other bef c aft cs :
  c <> 60%N -> run re_angle (MState bef (c :: aft) cs) = [].
Proof.
  intros H. rewrite angle_pattern, run_seq. unfold chr. rewrite run_chr_cons.
  unfold cu_eqb. now rewrite (proj2 (N.eqb_neq 60 c)) by congruence.
Qed.

Lemma search_angle_skip pre : forall bef rest,
  forallb (fun c => negb (cu_eqb c 60)) pre = true ->
  search_from re_angle bef (pre ++ rest) = search_from re_angle (rev pre ++ bef) rest.
Proof.
  induction pre as [|c pre IH]; intros bef rest H; [reflexivity|].
  simpl in H. apply andb_prop in H as [Hc H]. apply negb_true_iff, N.eqb_neq in Hc.
  cbn [app]. rewrite MatchFacts.search_from_skip by now apply run_angle_other.
  rewrite IH by exact H. simpl. now rewrite <- app_assoc.
Qed.

Lemma firstPiece_noSpace s : forallb (fun c => negb (isSpace c)) (firstPiece s) = true.
Proof.
  induction s as [|c s IH]; [reflexivity|]. cbn [firstPiece].
  destruct (isSpace c) eqn:Hc; [reflexivity|]. simpl. now rewrite Hc.
Qed.

Lemma firstPiece_empty s : headIs isSpace s = false -> firstPiece s = [] -> s = [].
Proof.
  destruct s as [|c s]; [reflexivity|]. simpl. intros ->. discriminate.
Qed.

End CommonFacts.

(** X18.  An address in angle brackets is what [extractEmail] returns,
    trimmed: the first pair of brackets with something between them
    decides, whatever precedes and follows it. *)
Theorem extractEmail_angle (addr : option jsstring) (pre inner post : jsstring) :
  trim (stringOr addr) = pre ++ 60%N :: inner ++ 62%N :: post ->
  forallb (fun c => negb (cu_eqb c 60)) pre = true ->
  inner <> [] -> forallb Common.notGreater inner = true ->
  Common.extractEmail addr = trim inner.
Proof.
  intros E Hpre Hne Hin. unfold Common.extractEmail. rewrite E.
  unfold search. rewrite CommonFacts.search_angle_skip by exact Hpre.
  assert (H : exists m, firstIs (run Common.re_angle
                                   (MState (rev pre ++ []) (60%N :: inner ++ 62%N :: post) []))
                                m
                        /\ capture 1 m = inner).
  { eexists. split.
    - rewrite CommonFacts.angle_pattern.
      eapply MatchFacts.firstIs_seq; [apply MatchFacts.run_chr_first|].
      eapply MatchFacts.firstIs_seq.
      { apply MatchFacts.run_group_first.
        apply MatchFacts.run_plus_longest; [exact Hne | exact Hin | reflexivity]. }
      cbn [before after caps]. apply MatchFacts.run_chr_first.
    - cbn [capture caps find fst snd Nat.eqb]. apply DecodeFacts.consumed_run. }
  destruct H as (m & Hf & Hc).
  rewrite (MatchFacts.search_from_first _ _ _ _ Hf). now rewrite Hc.
Qed.

(** X19.  Whatever [extractEmail] returns has no white space around it,
    and without a pair of brackets to take the address from it has no
    white space at all: it is the address up to its first white space. *)
Theorem extractEmail_clean (addr : option jsstring) :
  trim (Common.extractEmail addr) = Common.extractEmail addr
  /\ (search Common.re_angle (trim (stringOr addr)) = None ->
      Common.extractEmail addr = Common.firstPiece (trim (stringOr addr))
      /\ forallb (fun c => negb (isSpace c)) (Common.extractEmail addr) = true).
Proof.
  unfold Common.extractEmail.
  destruct (search Common.re_angle (trim (stringOr addr))) as [[s m]|].
  - split; [apply ForwardFacts.trim_idem | discriminate].
  - assert (E : orElse (Common.firstPiece (trim (stringOr addr))) (trim (stringOr addr))
                = Common.firstPiece (trim (stringOr addr))).
    { unfold orElse.
      destruct (truthy (Common.firstPiece (trim (stringOr addr)))) eqn:Ht; [reflexivity|].
      destruct (Common.firstPiece (trim (stringOr addr))) as [|c p] eqn:Ep; [|discriminate].
      apply CommonFacts.firstPiece_empty in Ep; [exact Ep|].
      unfold trim. apply TextFacts.trimEnd_head, TextFacts.trimStart_head. }
    rewrite E. split.
    + apply BoundaryFacts.trim_noSpace, CommonFacts.firstPiece_noSpace.
    + intros _. split; [reflexivity | apply CommonFacts.firstPiece_noSpace].
Qed.

(** ** Base64 *)

Module Base64Facts.

Lemma triple_ind (P : list N -> Prop) :
  P [] -> (forall a, P [a]) -> (forall a b, P [a; b]) ->
  (forall a b c rest, P rest -> P (a :: b :: c :: rest)) ->
  forall l, P l.
Proof.
  intros H0 H1 H2 H3 l.
  assert (H : forall n l, length l <= n -> P l).
  { induction n as [|n IH]; intros l0 Hl.
    - destruct l0; [exact H0 | simpl in Hl; lia].
    - destruct l0 as [|a [|b [|c rest]]]; auto.
      apply H3, IH. simpl in Hl. lia. }
  apply (H (length l)). lia.
Qed.

Lemma b64val_char v : (v < 64)%N -> b64val (b64char v) = Some v.
Proof.
  intros H.
  assert (E : forallb (fun v => match b64val (b64char v) with
                                | Some w => (w =? v)%N
                                | None => false
                                end) (map N.of_nat (seq 0 64)) = true)
    by (vm_compute; reflexivity).
  rewrite forallb_forall in E. specialize (E v).
  destruct (b64val (b64char v)) as [w|].
  - f_equal. apply N.eqb_eq, E. apply in_map_iff. exists (N.to_nat v).
    split; [apply N2Nat.id | apply in_seq; lia].
  - exfalso. assert (false = true); [|discriminate].
    apply E. apply in_map_iff. exists (N.to_nat v).
    split; [apply N2Nat.id | apply in_seq; lia].
Qed.

Lemma b64char_plain v :
  (v < 64)%N -> b64char v <> 61%N /\ isAsciiWhitespace (b64char v) = false.
Proof.
  intros H.
  assert (E : forallb (fun v => negb (b64char v =? 61)%N
                                && negb (isAsciiWhitespace (b64char v)))
                      (map N.of_nat (seq 0 64)) = true)
    by (vm_compute; reflexivity).
  rewrite forallb_forall in E. specialize (E v).
  assert (Hin : In v (map N.of_nat (seq 0 64))).
  { apply in_map_iff. exists (N.to_nat v). split; [apply N2Nat.id | apply in_seq; lia]. }
  apply E in Hin. apply andb_prop in Hin as [H1 H2].
  apply negb_true_iff in H1, H2. apply N.eqb_neq in H1. auto.
Qed.

Lemma sextets_small bytes :
  forallb isByte bytes = true -> Forall (fun v => (v < 64)%N) (sextets bytes).
Proof.
  unfold isByte. induction bytes as [|a|a b|a b c rest IH] using triple_ind; intros H.
  - constructor.
  - simpl in H. rewrite andb_true_r in H. apply N.ltb_lt in H.
    cbn [sextets]. repeat constructor.
    + apply N.Div0.div_lt_upper_bound. lia.
    + pose proof (N.mod_lt a 4). lia.
  - simpl in H. rewrite andb_true_r in H. apply andb_prop in H as [Ha Hb].
    apply N.ltb_lt in Ha, Hb. cbn [sextets]. repeat constructor.
    + apply N.Div0.div_lt_upper_bound. lia.
    + pose proof (N.mod_lt a 4). assert (b / 16 < 16)%N by (apply N.Div0.div_lt_upper_bound; lia). lia.
    + pose proof (N.mod_lt b 16). lia.
  - cbn [forallb] in H. apply andb_prop in H as [Ha H]. apply andb_prop in H as [Hb H].
    apply andb_prop in H as [Hc H]. apply N.ltb_lt in Ha, Hb, Hc.
    cbn [sextets]. repeat constructor.
    + apply N.Div0.div_lt_upper_bound. lia.
    + pose proof (N.mod_lt a 4). assert (b / 16 < 16)%N by (apply N.Div0.div_lt_upper_bound; lia). lia.
    + pose proof (N.mod_lt b 16). assert (c / 64 < 4)%N by (apply N.Div0.div_lt_upper_bound; lia). lia.
    + apply N.mod_lt. lia.
    + now apply IH.
Qed.

Lemma b64vals_chars l :
  Forall (fun v => (v < 64)%N) l -> b64vals (map b64char l) = Some l.
Proof.
  induction 1 as [|v l Hv _ IH]; [reflexivity|].
  cbn [map b64vals]. now rewrite (b64val_char v Hv), IH.
Qed.

(** The bytes of the values of a byte string. *)
Lemma b64bytes_sextets bytes :
  forallb isByte bytes = true -> b64bytes (sextets bytes) = bytes.
Proof.
  unfold isByte. induction bytes as [|a|a b|a b c rest IH] using triple_ind; intros H.
  - reflexivity.
  - simpl in H. rewrite andb_true_r in H. apply N.ltb_lt in H.
    cbn [sextets b64bytes]. f_equal.
    pose proof (N.div_mod a 4 ltac:(lia)). pose proof (N.mod_lt a 4 ltac:(lia)).
    symmetry. apply (N.div_unique _ 16 a ((a mod 4) * 16 mod 16)).
    + apply N.mod_lt. lia.
    + rewrite N.Div0.mod_mul. lia.
  - simpl in H. rewrite andb_true_r in H. apply andb_prop in H as [Ha Hb].
    apply N.ltb_lt in Ha, Hb. cbn [sextets b64bytes].
    pose proof (N.div_mod a 4 ltac:(lia)). pose proof (N.mod_lt a 4 ltac:(lia)).
    pose proof (N.div_mod b 16 ltac:(lia)). pose proof (N.mod_lt b 16 ltac:(lia)).
    assert (En : ((a / 4 * 64 + (a mod 4 * 16 + b / 16)) * 64 + b mod 16 * 4
                  = a * 1024 + b * 4)%N) by lia.
    rewrite En. f_equal; [|f_equal].
    + symmetry. apply (N.div_unique _ 1024 a (b * 4)); lia.
    + assert (E4 : ((a * 1024 + b * 4) / 4 = a * 256 + b)%N).
      { symmetry. apply (N.div_unique _ 4 _ 0); lia. }
      rewrite E4. symmetry. apply (N.mod_unique _ 256 a); lia.
  - cbn [forallb] in H. apply andb_prop in H as [Ha H]. apply andb_prop in H as [Hb H].
    apply andb_prop in H as [Hc H]. apply N.ltb_lt in Ha, Hb, Hc.
    cbn [sextets b64bytes]. rewrite (IH H).
    pose proof (N.div_mod a 4 ltac:(lia)). pose proof (N.mod_lt a 4 ltac:(lia)).
    pose proof (N.div_mod b 16 ltac:(lia)). pose proof (N.mod_lt b 16 ltac:(lia)).
    pose proof (N.div_mod c 64 ltac:(lia)). pose proof (N.mod_lt c 64 ltac:(lia)).
    assert (En : (((a / 4 * 64 + (a mod 4 * 16 + b / 16)) * 64 + (b mod 16 * 4 + c / 64)) * 64
                  + c mod 64 = a * 65536 + b * 256 + c)%N) by lia.
    cbv zeta. rewrite En. f_equal; [|f_equal; [|f_equal]].
    + symmetry. apply (N.div_unique _ 65536 a (b * 256 + c)); lia.
    + assert (E8 : ((a * 65536 + b * 256 + c) / 256 = a * 256 + b)%N).
      { symmetry. apply (N.div_unique _ 256 _ c); lia. }
      rewrite E8. symmetry. apply (N.mod_unique _ 256 a); lia.
    + symmetry. apply (N.mod_unique _ 256 (a * 256 + b)); lia.
Qed.

Lemma encode_lengths bytes :
  length (b64encode bytes) mod 4 = 0
  /\ length (sextets bytes) mod 4 <> 1.
Proof.
  unfold b64encode. rewrite length_app, length_map.
  induction bytes as [|a|a b|a b c rest IH] using triple_ind.
  - split; [reflexivity | discriminate].
  - split; [reflexivity | discriminate].
  - split; [reflexivity | discriminate].
  - cbn [sextets padding length]. destruct IH as [IH1 IH2].
    replace (S (S (S (S (length (sextets rest))))) + length (padding rest))
      with (length (sextets rest) + length (padding rest) + 1 * 4) by lia.
    replace (S (S (S (S (length (sextets rest))))))
      with (length (sextets rest) + 1 * 4) by lia.
    rewrite !Nat.Div0.mod_add. auto.
Qed.

Lemma padding_cases bytes :
  padding bytes = [] \/ (sextets bytes <> [] /\ (padding bytes = [61%N] \/ padding bytes = [61; 61]%N)).
Proof.
  induction bytes as [|a|a b|a b c rest IH] using triple_ind.
  - now left.
  - right. split; [discriminate | now right].
  - right. split; [discriminate | now left].
  - cbn [padding sextets]. destruct IH as [IH|[_ IH]]; [now left|].
    right. split; [discriminate | exact IH].
Qed.

Lemma match_not_equals {A} (x : N) (a b : A) :
  x <> 61%N -> match x with 61%N => a | _ => b end = b.
Proof. intros H. destruct x as [|p]; [reflexivity|]. bits 8 p. Qed.

(** Stripping the padding of an encoding leaves its characters. *)
Lemma stripPadding_encode bytes :
  forallb isByte bytes = true ->
  stripPadding (b64encode bytes) = map b64char (sextets bytes).
Proof.
  intros Hb. unfold stripPadding.
  rewrite (proj1 (encode_lengths bytes)). cbn [Nat.eqb].
  pose proof (sextets_small bytes Hb) as Hs.
  unfold b64encode. rewrite rev_app_distr.
  assert (Hlast : forall x l, rev (map b64char (sextets bytes)) = x :: l -> x <> 61%N).
  { intros x l E.
    assert (Hin : In x (map b64char (sextets bytes))).
    { apply in_rev. rewrite E. now left. }
    apply in_map_iff in Hin as (v & <- & Hv).
    rewrite List.Forall_forall in Hs. exact (proj1 (b64char_plain v (Hs v Hv))). }
  destruct (padding_cases bytes) as [->|[Hne [-> | ->]]].
  - cbn [rev app]. rewrite app_nil_r.
    destruct (rev (map b64char (sextets bytes))) as [|x l] eqn:E; [reflexivity|].
    specialize (Hlast x l eq_refl).
    destruct x as [|p]; [reflexivity|]. bits 8 p.
  - cbn [rev app].
    destruct (rev (map b64char (sextets bytes))) as [|x l] eqn:E.
    + exfalso. apply Hne. apply (f_equal (@rev N)) in E.
      rewrite rev_involutive in E. simpl in E. now destruct (sextets bytes).
    + specialize (Hlast x l eq_refl).
      rewrite (match_not_equals x _ _ Hlast).
      now rewrite <- E, rev_involutive.
  - cbn [rev app].
    destruct (rev (map b64char (sextets bytes))) as [|x l] eqn:E.
    + exfalso. apply Hne. apply (f_equal (@rev N)) in E.
      rewrite rev_involutive in E. simpl in E. now destruct (sextets bytes).
    + now rewrite <- E, rev_involutive.
Qed.

Lemma filter_encode bytes :
  forallb isByte bytes = true ->
  List.filter (fun c => negb (isAsciiWhitespace c)) (b64encode bytes) = b64encode bytes.
Proof.
  intros Hb. apply forallb_filter_id. unfold b64encode. rewrite forallb_app.
  apply andb_true_intro. split.
  - apply forallb_forall. intros c Hin. apply in_map_iff in Hin as (v & <- & Hv).
    pose proof (sextets_small bytes Hb) as Hs. rewrite List.Forall_forall in Hs.
    apply negb_true_iff. exact (proj2 (b64char_plain v (Hs v Hv))).
  - destruct (padding_cases bytes) as [->|[_ [-> | ->]]]; reflexivity.
Qed.

Lemma atob_encode bytes :
  forallb isByte bytes = true -> atob (b64encode bytes) = Ret bytes.
Proof.
  intros Hb. unfold atob.
  rewrite (TextFacts.filter_bool (fun c => negb (isAsciiWhitespace c))).
  rewrite (filter_encode bytes Hb), (stripPadding_encode bytes Hb), length_map.
  destruct (Nat.eqb_spec (length (sextets bytes) mod 4) 1) as [E|_].
  - now apply (proj2 (encode_lengths bytes)) in E.
  - rewrite (b64vals_chars _ (sextets_small bytes Hb)).
    now rewrite (b64bytes_sextets bytes Hb).
Qed.

End Base64Facts.

Section Base64Properties.

Variable rt : Runtime.

(** X20.  Base64 round trip: a body that is the encoding of bytes, with
    white space anywhere in it, is decoded to what the decoder of the
    runtime makes of these bytes, or to the bytes themselves when that
    throws. *)
Theorem base64_round_trip (body enc : jsstring) (bytes : list N) :
  trim enc = str "base64" ->
  truthy body = true ->
  forallb isByte bytes = true ->
  List.filter (fun c => negb (isSpace c)) body = b64encode bytes ->
  decodeBody rt body enc = Ret (default bytes (textDecode rt (str "utf-8") bytes)).
Proof.
  intros He Ht Hb Hf. unfold decodeBody. rewrite Ht, He. cbn [negb].
  change (str_eqb (str "base64") (str "base64")) with true. cbv iota.
  rewrite replace_with_plus_delete.
  rewrite (TextFacts.filter_bool (fun c => negb (isSpace c))), Hf.
  rewrite (Base64Facts.atob_encode bytes Hb). cbn [bind try_catch].
  rewrite (DecodeFacts.toUint8Array_bytes bytes Hb).
  now destruct (textDecode rt _ _).
Qed.

End Base64Properties.

(** ** Witnesses of the further properties *)

(** X5 at a text with the keyword before a year: the tight pattern of the
    body finds it. *)
Lemma year_only_from_tight_match_witness :
  extractVerificationCode rt0 (Some (Ctx None (Some (str "code 2024")) None)) = str "2024"
  /\ (firstCode subjectOrdereds [] (fun _ => true)
      = Some (extractVerificationCode rt0 (Some (Ctx None (Some (str "code 2024")) None)))
      \/ firstCode bodyOrdereds (str "code 2024") (fun _ => true)
         = Some (extractVerificationCode rt0 (Some (Ctx None (Some (str "code 2024")) None)))).
Proof.
  split; [vm_compute; reflexivity|].
  refine (year_only_from_tight_match rt0 (Some (Ctx None (Some (str "code 2024")) None)) _).
  vm_compute. reflexivity.
Defined.

(** X6 at a wildcard rule placed before the rule of the prefix [sales]. *)
Lemma wildcard_is_fallback_witness :
  Forward.resolveTargetEmail rt0 (Some (str "Sales-1"))
    ([] ++ Forward.Rule (str "*") (str "all@x.y")
        :: [Forward.Rule (str "sales") (str "s@x.y")])
  = Forward.resolveTargetEmail rt0 (Some (str "Sales-1"))
      ([] ++ [Forward.Rule (str "sales") (str "s@x.y")])
  /\ exists r', In r' ([] ++ [Forward.Rule (str "sales") (str "s@x.y")])
       /\ Forward.prefix r' <> Forward.wildcard
       /\ Forward.resolveTargetEmail rt0 (Some (str "Sales-1"))
            ([] ++ Forward.Rule (str "*") (str "all@x.y")
                :: [Forward.Rule (str "sales") (str "s@x.y")])
          = Some (Forward.email r').
Proof.
  refine (wildcard_is_fallback rt0 (Some (str "Sales-1")) []
            [Forward.Rule (str "sales") (str "s@x.y")]
            (Forward.Rule (str "*") (str "all@x.y"))
            (Forward.Rule (str "sales") (str "s@x.y")) _ _ _ _).
  - reflexivity.
  - simpl. left. reflexivity.
  - vm_compute. discriminate.
  - vm_compute. reflexivity.
Defined.

(** X7 at an item whose address is surrounded by spaces. *)
Lemma normalizeRules_resolve_nonempty_witness :
  truthy (str "s@x.y") = true /\ trim (str "s@x.y") = str "s@x.y"
  /\ exists it, In it [Forward.Item (Some (str "Sales")) (Some (str " s@x.y "))]
       /\ str "s@x.y" = trim (stringOr (Forward.item_email it))
       /\ truthy (toLowerCase rt0 (stringOr (Forward.item_prefix it))) = true.
Proof.
  refine (normalizeRules_resolve_nonempty rt0 (Some (str "sales1"))
            [Forward.Item (Some (str "Sales")) (Some (str " s@x.y "))] (str "s@x.y") _).
  vm_compute. reflexivity.
Defined.

(** X9 at a body with a preamble, a group of two lines, an empty group, a
    group of one line and an epilogue. *)
Lemma splitMultipart_groups_witness :
  splitMultipart
    (str "pre" ++ [10%N] ++ str "--b" ++ [10%N] ++ str "A" ++ [10%N] ++ str "B" ++ [10%N]
     ++ str "--b" ++ [10%N] ++ str "--b" ++ [10%N] ++ str "C" ++ [10%N]
     ++ str "--b--" ++ [10%N] ++ str "post") (str "b")
  = [str "A" ++ [10%N] ++ str "B"; str "C"].
Proof.
  refine (eq_trans
            (splitMultipart_groups _ (str "b") [str "pre"]
               [(str "--b", [str "A"; str "B"]); (str "--b", []); (str "--b", [str "C"])]
               (str "--b--") [str "post"] _ _ _ _) _);
    vm_compute; reflexivity.
Defined.

(** X10 at a body of two groups without closing delimiter. *)
Lemma splitMultipart_truncated_witness :
  splitMultipart
    (str "--b" ++ [10%N] ++ str "A" ++ [10%N] ++ str "--b" ++ [10%N] ++ str "B") (str "b")
  = [str "A"].
Proof.
  refine (eq_trans
            (splitMultipart_truncated _ (str "b") []
               [(str "--b", [str "A"]); (str "--b", [str "B"])] _ _ _) _);
    vm_compute; reflexivity.
Defined.

(** X11 at a body in the URL-safe alphabet. *)
Lemma decodeBody_base64_illegal_witness :
  decodeBody rt0 (str "aGVsbG8_") (str " base64 ") = Ret (str "aGVsbG8_").
Proof.
  refine (decodeBody_base64_illegal rt0 (str "aGVsbG8_") (str " base64 ") 95%N _ _ _ _ _).
  - vm_compute. reflexivity.
  - vm_compute. tauto.
  - reflexivity.
  - discriminate.
  - reflexivity.
Defined.

(** X12 at the bytes of a letter, an equals sign, a byte above 127 and a
    line feed, with the printable characters written literally. *)
Lemma quotedPrintable_round_trip_witness :
  qpEncode (fun b => in_range 33 126 b && negb (cu_eqb b 61)) [72; 61; 233; 10]%N
  = str "H=3D=E9=0A"
  /\ qpBytes (str "H=3D=E9=0A") = [72; 61; 233; 10]%N
  /\ decodeQuotedPrintable rt0 (str "H=3D=E9=0A")
     = Ret [72; 61; 0xFFFD; 10]%N.
Proof.
  split; [vm_compute; reflexivity|].
  pose proof (quotedPrintable_round_trip rt0
                (fun b => in_range 33 126 b && negb (cu_eqb b 61)) [72; 61; 233; 10]%N
                eq_refl eq_refl) as [H1 H2].
  split; [exact H1 | exact H2].
Defined.

(** X14 at a message of two lines. *)
Lemma stored_text_read_back_witness :
  parseEmailBody rt0 1
    (Receiver.buildEml (str "a@b.c") (str "me@x.y") (str "Hi")
       (str "Mon, 01 Jan 2024 00:00:00 GMT") (str "mf-1f")
       (str "code 1234" ++ [13; 10]%N ++ str "bye") [])
  = Ret (Parsed (str "code 1234" ++ [13; 10]%N ++ str "bye" ++ [13; 10]%N) []).
Proof.
  refine (eq_trans
            (stored_text_read_back rt0 (str "a@b.c") (str "me@x.y") (str "Hi")
               (str "Mon, 01 Jan 2024 00:00:00 GMT") (str "mf-1f")
               (str "code 1234" ++ [13; 10]%N ++ str "bye") 0 _ _ _ _ _) _).
  - intros s _. reflexivity.
  - reflexivity.
  - reflexivity.
  - reflexivity.
  - reflexivity.
  - vm_compute. reflexivity.
Defined.

(** X15 at a message whose text has a line end of two characters. *)
Lemma stored_alternative_read_back_witness :
  parseEmailBody rt0 2
    (Receiver.buildEml (str "a@b.c") (str "me@x.y") (str "Hi")
       (str "Mon, 01 Jan 2024 00:00:00 GMT") (Receiver.boundaryFor (str "1f"))
       (str "hi" ++ [13; 10]%N ++ str "there") (str "<b>hi</b>" ++ [10%N]))
  = Ret (Parsed (str "hi" ++ [10%N] ++ str "there") (str "<b>hi</b>" ++ [10%N])).
Proof.
  refine (eq_trans
            (stored_alternative_read_back rt0 (str "a@b.c") (str "me@x.y") (str "Hi")
               (str "Mon, 01 Jan 2024 00:00:00 GMT") (str "1f")
               (str "hi" ++ [13; 10]%N ++ str "there") (str "<b>hi</b>" ++ [10%N]) 0
               _ _ _ _ _ _ _ _ _ _ _) _).
  - intros s _. reflexivity.
  - reflexivity.
  - reflexivity.
  - reflexivity.
  - reflexivity.
  - reflexivity.
  - reflexivity.
  - vm_compute. reflexivity.
  - vm_compute. reflexivity.
  - vm_compute. reflexivity.
  - vm_compute. reflexivity.
  - vm_compute. reflexivity.
Defined.

(** X16 at a message of one line. *)
Lemma headerless_message_witness :
  parseEmailBody rt0 1 (str "Subject: just one line") = Ret (Parsed (str "Subject: just one line") []).
Proof.
  refine (eq_trans (headerless_message rt0 (str "Subject: just one line") 0 _ _ _ _) _);
    vm_compute; reflexivity.
Defined.

(** X18 at a display name before the address. *)
Lemma extractEmail_angle_witness :
  Common.extractEmail (Some (str "  Ann Lee < ann@x.y > (work) ")) = str "ann@x.y".
Proof.
  refine (eq_trans
            (extractEmail_angle (Some (str "  Ann Lee < ann@x.y > (work) "))
               (str "Ann Lee ") (str " ann@x.y ") (str " (work)") _ _ _ _) _);
    try (vm_compute; reflexivity).
  discriminate.
Defined.

(** X19 at an address followed by other words. *)
Lemma extractEmail_clean_witness :
  Common.extractEmail (Some (str " bob@x.y  and more ")) = str "bob@x.y".
Proof.
  refine (eq_trans
            (proj1 (proj2 (extractEmail_clean (Some (str " bob@x.y  and more "))) _)) _);
    vm_compute; reflexivity.
Defined.

(** X20 at the encoding of five bytes, broken into two lines. *)
Lemma base64_round_trip_witness :
  b64encode [104; 101; 108; 108; 111]%N = str "aGVsbG8="
  /\ decodeBody rt0 (str "aGVs" ++ [13; 10]%N ++ str "bG8=" ++ [13; 10]%N) (str "base64")
     = Ret (str "hello").
Proof.
  split; [vm_compute; reflexivity|].
  refine (eq_trans
            (base64_round_trip rt0 (str "aGVs" ++ [13; 10]%N ++ str "bG8=" ++ [13; 10]%N)
               (str "base64") [104; 101; 108; 108; 111]%N _ _ _ _) _);
    vm_compute; reflexivity.
Defined.

(** * The depth of the calls *)

Module DepthFacts.

Section WithRuntime.

Variable rt : Runtime.















End WithRuntime.

End DepthFacts.

(** ** Nested messages *)

Module NestingFacts.

Import Examples.






(** Lines that end with a line feed only. *)

Lemma noCR_app a b : noCR (a ++ b) = noCR a && noCR b.
Proof. apply forallb_app. Qed.





(** Lines that start and end with something else than white space. *)




(** The lines of a nested message. *)















Section WithRuntime.

Variable rt : Runtime.
Hypothesis lowers : lowersAscii rt.

















End WithRuntime.

End NestingFacts.

(** * The bytes of the quoted-printable decoder *)

Module ByteFacts.

Lemma ascii_bytes bs : forallb isAscii bs = true -> forallb isByte bs = true.
Proof.
  intros H. apply List.forallb_forall. intros b Hb.
  rewrite List.forallb_forall in H. specialize (H b Hb).
  unfold isAscii, isByte in *. apply N.ltb_lt in H. apply N.ltb_lt. lia.
Qed.

Lemma hexval_small h : isHex h = true -> (hexval h < 16)%N.
Proof.
  unfold isHex, hexval, isDigit, isUpper, in_range. intros H.
  repeat match goal with
         | |- context [N.leb ?a ?b] => destruct (N.leb_spec a b)
         | H : context [N.leb ?a ?b] |- _ => destruct (N.leb_spec a b)
         end; cbn [andb orb] in *; try discriminate; lia.
Qed.

Lemma length_ind (P : jsstring -> Prop) :
  (forall s, (forall t, length t < length s -> P t) -> P s) -> forall s, P s.
Proof.
  intros H s. remember (length s) as n eqn:E. revert s E.
  induction n as [n IH] using lt_wf_ind. intros s ->.
  apply H. intros t Ht. now apply (IH (length t)).
Qed.

(** An input of bytes decodes to bytes. *)
Lemma qpBytes_bytes : forall s,
  forallb isByte s = true -> forallb isByte (qpBytes s) = true.
Proof.
  apply (length_ind (fun s => forallb isByte s = true -> forallb isByte (qpBytes s) = true)).
  intros [|c r] IH H; [reflexivity|].
  cbn [forallb] in H. apply andb_prop in H as [Hc Hr].
  assert (Hlit : forallb isByte (c :: qpBytes r) = true).
  { cbn [forallb]. rewrite Hc. apply IH; [simpl; lia | exact Hr]. }
  cbn [qpBytes]. destruct (cu_eqb c 61); [|exact Hlit].
  destruct r as [|h1 [|h2 r']]; try exact Hlit.
  destruct (isHex h1 && isHex h2) eqn:Hh; [|exact Hlit].
  apply andb_prop in Hh as [H1 H2].
  cbn [forallb] in Hr. apply andb_prop in Hr as [_ Hr]. apply andb_prop in Hr as [_ Hr].
  cbn [forallb]. rewrite (IH r') by (simpl; lia || exact Hr).
  rewrite andb_true_r. unfold isByte. apply N.ltb_lt.
  pose proof (hexval_small h1 H1). pose proof (hexval_small h2 H2). lia.
Qed.

Lemma removeSoftBreaks_bytes : forall s,
  forallb isByte s = true -> forallb isByte (removeSoftBreaks s) = true.
Proof.
  apply (length_ind (fun s => forallb isByte s = true
                              -> forallb isByte (removeSoftBreaks s) = true)).
  intros [|c r] IH H; [reflexivity|].
  cbn [forallb] in H. apply andb_prop in H as [Hc Hr].
  assert (Hlit : forallb isByte (c :: removeSoftBreaks r) = true).
  { cbn [forallb]. rewrite Hc. apply IH; [simpl; lia | exact Hr]. }
  cbn [removeSoftBreaks]. destruct (cu_eqb c 61); [|exact Hlit].
  destruct r as [|d r']; [exact Hlit|].
  cbn [forallb] in Hr. apply andb_prop in Hr as [_ Hr].
  destruct (cu_eqb d 10); [apply IH; [simpl; lia | exact Hr]|].
  destruct (cu_eqb d 13); [|exact Hlit].
  destruct r' as [|e r'']; [exact Hlit|].
  cbn [forallb] in Hr. apply andb_prop in Hr as [_ Hr].
  destruct (cu_eqb e 10); [apply IH; [simpl; lia | exact Hr] | exact Hlit].
Qed.

(** Without escape the bytes are the text. *)
Lemma qpBytes_noEscape s : noEscape s = true -> qpBytes s = s.
Proof.
  induction s as [|c r IH]; [reflexivity|]. cbn [noEscape]. intros H.
  apply andb_prop in H as [Hc Hr]. apply negb_true_iff in Hc.
  cbn [qpBytes]. rewrite (IH Hr).
  destruct (cu_eqb c 61); [|reflexivity]. cbn [andb] in Hc.
  destruct r as [|h1 [|h2 r']]; try reflexivity.
  cbn [twoHex] in Hc. now rewrite Hc.
Qed.

(** A code unit and the same plus 256 give the same byte. *)
Lemma high_bits_lost c r :
  c <> 61%N ->
  toUint8Array (qpBytes (removeSoftBreaks ((c + 256)%N :: r)))
  = toUint8Array (qpBytes (removeSoftBreaks (c :: r))).
Proof.
  intros Hc.
  rewrite !DecodeFacts.removeSoftBreaks_literal, !DecodeFacts.qpBytes_literal by lia.
  unfold toUint8Array. cbn [map]. f_equal.
  rewrite <- (N.mul_1_l 256) at 1. now rewrite N.Div0.mod_add.
Qed.

End ByteFacts.

(** * The properties of the specification that rest on these facts *)

Section DepthAndBytes.

Variable rt : Runtime.



(** C10 (amended).  The quoted-printable decoder is total, and what it
    loses besides the soft line breaks is the high bits of the code units
    above 255.  It removes the soft line breaks and returns what the
    decoder of the runtime makes of the bytes, or the text without the soft
    line breaks when that throws.  On an input of code units below 256
    these bytes lose nothing: an equals sign followed by two hexadecimal
    digits is the byte they denote and every other code unit is kept, an
    equals sign that no two hexadecimal digits follow included, so that
    without escape the bytes are the text itself; and when the bytes are
    ASCII and the runtime decodes ASCII as it is, they are the result.  But
    the bytes are stored in a [Uint8Array], which cuts every number modulo
    256: a code unit and the same plus 256 give the same byte. *)
Theorem decodeQuotedPrintable_bytes :
  (forall input,
      let s := removeSoftBreaks input in
      Re.replace_with re_softBreak [] input = s
      /\ decodeQuotedPrintable rt input
         = Ret (default s (textDecode rt (str "utf-8") (toUint8Array (qpBytes s)))))
  /\ (forall input,
        forallb isByte input = true ->
        qpDecodes (removeSoftBreaks input)
                  (toUint8Array (qpBytes (removeSoftBreaks input))))
  /\ (forall input,
        forallb isByte input = true -> noEscape (removeSoftBreaks input) = true ->
        toUint8Array (qpBytes (removeSoftBreaks input)) = removeSoftBreaks input)
  /\ (decodesAscii rt ->
      forall input,
        forallb isAscii (qpBytes (removeSoftBreaks input)) = true ->
        decodeQuotedPrintable rt input = Ret (qpBytes (removeSoftBreaks input)))
  /\ (forall c r,
        c <> 61%N ->
        toUint8Array (qpBytes (removeSoftBreaks ((c + 256)%N :: r)))
        = toUint8Array (qpBytes (removeSoftBreaks (c :: r)))).
Proof.
  split; [|split; [|split; [|split]]].
  - intros input s. split.
    + unfold Re.replace_with, Re.replace_all. apply replace_softBreaks. lia.
    + rewrite decodeQuotedPrintable_result. fold s.
      now destruct (textDecode rt _ _).
  - intros input H.
    rewrite DecodeFacts.toUint8Array_bytes
      by apply ByteFacts.qpBytes_bytes, ByteFacts.removeSoftBreaks_bytes, H.
    apply qpBytes_decodes.
  - intros input H Hn.
    rewrite DecodeFacts.toUint8Array_bytes
      by apply ByteFacts.qpBytes_bytes, ByteFacts.removeSoftBreaks_bytes, H.
    now apply ByteFacts.qpBytes_noEscape.
  - intros Hd input H. rewrite decodeQuotedPrintable_result.
    rewrite DecodeFacts.toUint8Array_bytes by now apply ByteFacts.ascii_bytes.
    now rewrite (Hd _ H).
  - apply ByteFacts.high_bits_lost.
Qed.

End DepthAndBytes.

(** ** Witnesses and counterexamples *)





(** C10 as stated fails at the ideograph U+4E2D: its code unit is cut to
    the byte 2D, and the result is a hyphen, as for a hyphen. *)
Lemma decodeQuotedPrintable_cut_counterexample :
  decodeQuotedPrintable rt0 [0x4E2D%N] = Ret (str "-")
  /\ decodeQuotedPrintable rt0 (str "-") = Ret (str "-")
  /\ removeSoftBreaks [0x4E2D%N] = [0x4E2D%N].
Proof. split; [|split]; vm_compute; reflexivity. Qed.

(** C10 (amended) at a text with a soft line break and three equals
    signs that no two hexadecimal digits follow. *)
Lemma decodeQuotedPrintable_bytes_witness :
  toUint8Array (qpBytes (removeSoftBreaks (str "a=" ++ [13; 10]%N ++ str "b=4=zz=")))
  = str "ab=4=zz=".
Proof.
  refine (eq_trans
            (proj1 (proj2 (proj2 (decodeQuotedPrintable_bytes rt0)))
               (str "a=" ++ [13; 10]%N ++ str "b=4=zz=") _ _) _);
    vm_compute; reflexivity.
Defined.

(** C10 at a text with an escape, a soft line break and three equals signs
    that no two hexadecimal digits follow. *)
Example decodeQuotedPrintable_example :
  decodeQuotedPrintable rt0 (str "a=3Db=" ++ [13; 10]%N ++ str "c=4=zz=")
  = Ret (str "a=bc=4=zz=").
Proof. vm_compute. reflexivity. Qed.
